(** * sync_module.py: session store, login loop, per-task reconciliation
      and dispatcher, embedded as executable Rocq definitions.

    The Python module talks to four outside parties: the local file system
    (the cookie file), a browser driving the portal's login page, the
    portal's JSON endpoint and a SQL Server database.  Each of them is an
    oracle held in one read-only record [Env]; everything the module
    mutates (cookie file, tables, the log) lives in [World] and is threaded
    through a small state-and-exception monad. *)

From Stdlib Require Import ZArith NArith List Bool Lia PeanoNat Strings.Byte.
Import ListNotations.

(** ** Python strings

    A [str] is a sequence of code points, each a number up to 0x10FFFF;
    the surrogates 0xD800 to 0xDFFF are code points like any other, as in
    Python.  A literal stands for the code points of its characters. *)

Inductive str : Set :=
  | EmptyStr
  | Str (c : N) (rest : str).

Fixpoint str_of_bytes (l : list byte) : str :=
  match l with
  | [] => EmptyStr
  | b :: rest => Str (Byte.to_N b) (str_of_bytes rest)
  end.

Fixpoint bytes_of_str (s : str) : option (list byte) :=
  match s with
  | EmptyStr => Some []
  | Str c rest =>
      match Byte.of_N c, bytes_of_str rest with
      | Some b, Some l => Some (b :: l)
      | _, _ => None
      end
  end.

Declare Scope str_scope.
Delimit Scope str_scope with str.
Bind Scope str_scope with str.
String Notation str str_of_bytes bytes_of_str : str_scope.

Fixpoint append (a b : str) : str :=
  match a with
  | EmptyStr => b
  | Str c a' => Str c (append a' b)
  end.

Notation "a ++ b" := (append a b) (right associativity, at level 60) : str_scope.

Open Scope str_scope.
Open Scope Z_scope.

Fixpoint str_eqb (a b : str) : bool :=
  match a, b with
  | EmptyStr, EmptyStr => true
  | Str c a', Str d b' => N.eqb c d && str_eqb a' b'
  | _, _ => false
  end.

Fixpoint str_length (s : str) : nat :=
  match s with
  | EmptyStr => O
  | Str _ s' => S (str_length s')
  end.

Fixpoint prefix (a b : str) : bool :=
  match a, b with
  | EmptyStr, _ => true
  | Str c a', Str d b' => N.eqb c d && prefix a' b'
  | Str _ _, EmptyStr => false
  end.

Definition LF : N := 10.
Definition CR : N := 13.

(** [str.isspace] on one character: the code points Python counts as
    whitespace (TAB, LF, VT, FF, CR, FS, GS, RS, US, space, NEL, NBSP and
    the Unicode spaces and line separators). *)
Definition is_space (c : N) : bool :=
  (((9 <=? c) && (c <=? 13)) || ((28 <=? c) && (c <=? 32))
   || (c =? 0x85) || (c =? 0xA0) || (c =? 0x1680)
   || ((0x2000 <=? c) && (c <=? 0x200A))
   || (c =? 0x2028) || (c =? 0x2029) || (c =? 0x202F) || (c =? 0x205F)
   || (c =? 0x3000))%N.

Fixpoint lstrip (s : str) : str :=
  match s with
  | EmptyStr => EmptyStr
  | Str c s' => if is_space c then lstrip s' else s
  end.

Fixpoint rstrip (s : str) : str :=
  match s with
  | EmptyStr => EmptyStr
  | Str c s' =>
      match rstrip s' with
      | EmptyStr => if is_space c then EmptyStr else Str c EmptyStr
      | r => Str c r
      end
  end.

(** [str.strip()] with no argument. *)
Definition strip (s : str) : str := rstrip (lstrip s).

(** [sub in s] for two strings. *)
Fixpoint contains (sub s : str) : bool :=
  if prefix sub s then true
  else match s with
       | EmptyStr => false
       | Str _ s' => contains sub s'
       end.

(** [sep.join(parts)]. *)
Fixpoint join (sep : str) (parts : list str) : str :=
  match parts with
  | [] => ""
  | [p] => p
  | p :: rest => p ++ sep ++ join sep rest
  end.

(** The characters of a string, in order. *)
Fixpoint code_points (s : str) : list N :=
  match s with
  | EmptyStr => []
  | Str c s' => c :: code_points s'
  end.

(** A string is truthy when it is not empty. *)
Definition truthy (s : str) : bool :=
  match s with EmptyStr => false | _ => true end.

(** *** UTF-8

    The codec behind [open(..., encoding='utf-8')], with the default
    [errors='strict'].  Encoding fails on a surrogate
    (UnicodeEncodeError); decoding fails on a byte sequence that is not
    the shortest encoding of a code point other than a surrogate
    (UnicodeDecodeError). *)

Definition is_surrogate (c : N) : bool := ((0xD800 <=? c) && (c <=? 0xDFFF))%N.

Definition byte_of (n : N) : byte :=
  match Byte.of_N n with Some b => b | None => x00 end.

(** A continuation byte with the low six bits of [n]. *)
Definition continuation (n : N) : byte := byte_of (0x80 + n mod 64)%N.

Definition encode_char (c : N) : option (list byte) :=
  (if c <? 0x80 then Some [byte_of c]
   else if c <? 0x800 then
     Some [byte_of (0xC0 + c / 64); continuation c]
   else if c <? 0x10000 then
     if is_surrogate c then None
     else Some [byte_of (0xE0 + c / 64 / 64); continuation (c / 64); continuation c]
   else if c <? 0x110000 then
     Some [byte_of (0xF0 + c / 64 / 64 / 64); continuation (c / 64 / 64);
           continuation (c / 64); continuation c]
   else None)%N.

(** [s.encode('utf-8')]. *)
Fixpoint utf8_encode (s : str) : option (list byte) :=
  match s with
  | EmptyStr => Some []
  | Str c rest =>
      match encode_char c, utf8_encode rest with
      | Some b, Some bs => Some (b ++ bs)%list
      | _, _ => None
      end
  end.

Definition is_continuation (n : N) : bool := ((0x80 <=? n) && (n <=? 0xBF))%N.

Definition payload (n : N) : N := (n - 0x80)%N.

Definition then_decoded (c : N) (rest : option str) : option str :=
  match rest with
  | Some s => Some (Str c s)
  | None => None
  end.

(** [raw.decode('utf-8')]. *)
Fixpoint utf8_decode (raw : list byte) : option str :=
  match raw with
  | [] => Some EmptyStr
  | b0 :: r0 =>
      let n0 := Byte.to_N b0 in
      (if n0 <? 0x80 then then_decoded n0 (utf8_decode r0)
       else if n0 <? 0xC0 then None
       else if n0 <? 0xE0 then
         match r0 with
         | b1 :: r1 =>
             let n1 := Byte.to_N b1 in
             let c := (n0 - 0xC0) * 64 + payload n1 in
             if is_continuation n1 && (0x80 <=? c)
             then then_decoded c (utf8_decode r1)
             else None
         | _ => None
         end
       else if n0 <? 0xF0 then
         match r0 with
         | b1 :: b2 :: r2 =>
             let n1 := Byte.to_N b1 in
             let n2 := Byte.to_N b2 in
             let c := ((n0 - 0xE0) * 64 + payload n1) * 64 + payload n2 in
             if is_continuation n1 && is_continuation n2
                && (0x800 <=? c) && negb (is_surrogate c)
             then then_decoded c (utf8_decode r2)
             else None
         | _ => None
         end
       else if n0 <? 0xF8 then
         match r0 with
         | b1 :: b2 :: b3 :: r3 =>
             let n1 := Byte.to_N b1 in
             let n2 := Byte.to_N b2 in
             let n3 := Byte.to_N b3 in
             let c := (((n0 - 0xF0) * 64 + payload n1) * 64 + payload n2) * 64
                      + payload n3 in
             if is_continuation n1 && is_continuation n2 && is_continuation n3
                && (0x10000 <=? c) && (c <? 0x110000)
             then then_decoded c (utf8_decode r3)
             else None
         | _ => None
         end
       else None)%N
  end.

(** *** Text-mode files

    [open(path, 'w', encoding='utf-8')] and [open(path, 'r', ...)] leave
    [newline] at its default [None].  On writing, every LF becomes
    [os.linesep]; on reading, universal newlines turn CR LF and a lone CR
    into LF. *)

Inductive Platform := Posix | Windows.

Definition os_linesep (p : Platform) : str :=
  match p with
  | Posix => Str LF EmptyStr
  | Windows => Str CR (Str LF EmptyStr)
  end.

Fixpoint text_write (p : Platform) (s : str) : str :=
  match s with
  | EmptyStr => EmptyStr
  | Str c s' =>
      if N.eqb c LF then os_linesep p ++ text_write p s'
      else Str c (text_write p s')
  end.

Fixpoint text_read (raw : str) : str :=
  match raw with
  | EmptyStr => EmptyStr
  | Str c rest =>
      if N.eqb c CR then
        match rest with
        | Str c2 rest2 =>
            if N.eqb c2 LF then Str LF (text_read rest2)
            else Str LF (text_read rest)
        | EmptyStr => Str LF EmptyStr
        end
      else Str c (text_read rest)
  end.

(** ** Exceptions

    Only the class matters: the handlers of the module dispatch on it. *)

Inductive PyExc :=
  | RequestException        (* requests.exceptions.RequestException and subclasses *)
  | PymssqlError            (* pymssql.Error and subclasses *)
  | PlaywrightTimeoutError
  | IOError                 (* IOError is OSError *)
  | TypeError
  | KeyError
  | ValueError.               (* ValueError and subclasses: UnicodeEncodeError, UnicodeDecodeError *)

Definition is_RequestException (e : PyExc) : bool :=
  match e with RequestException => true | _ => false end.

Definition is_PymssqlError (e : PyExc) : bool :=
  match e with PymssqlError => true | _ => false end.

Definition is_PlaywrightTimeoutError (e : PyExc) : bool :=
  match e with PlaywrightTimeoutError => true | _ => false end.

Inductive Outcome (A : Type) :=
  | Returned (a : A)
  | Raised (e : PyExc).
Arguments Returned {A} a.
Arguments Raised {A} e.

(** ** JSON values, as [response.json()] hands them over

    Numbers are the integer literals; a literal with a fraction or an
    exponent (a Python float) has no constructor.  An object is the list
    of its items; [json.loads] keeps one item per key. *)

#[local] Set Warnings "-register-all".

Inductive JSON :=
  | JNull
  | JBool (b : bool)
  | JInt (z : Z)
  | JStr (s : str)
  | JList (l : list JSON)
  | JDict (items : list (str * JSON)).

Fixpoint dict_get (k : str) (items : list (str * JSON)) : option JSON :=
  match items with
  | [] => None
  | (k', v) :: rest => if str_eqb k' k then Some v else dict_get k rest
  end.

Definition is_str (k : str) (j : JSON) : bool :=
  match j with JStr s => str_eqb s k | _ => false end.

(** [k in obj] for a string [k]: key membership on a dict, element
    membership on a list, substring on a string, [TypeError] otherwise. *)
Definition py_in (k : str) (obj : JSON) : Outcome bool :=
  match obj with
  | JDict items => Returned (match dict_get k items with Some _ => true | None => false end)
  | JList l => Returned (existsb (is_str k) l)
  | JStr s => Returned (contains k s)
  | JNull | JBool _ | JInt _ => Raised TypeError
  end.

(** [obj[k]] for a string [k]. *)
Definition py_getitem (obj : JSON) (k : str) : Outcome JSON :=
  match obj with
  | JDict items =>
      match dict_get k items with
      | Some v => Returned v
      | None => Raised KeyError
      end
  | _ => Raised TypeError
  end.

(** [v == n] for a JSON value and an [int]; [True == 1] holds in Python. *)
Definition py_eq_int (v : JSON) (n : Z) : bool :=
  match v with
  | JInt z => z =? n
  | JBool b => (if b then 1 else 0) =? n
  | _ => false
  end.

(** [for x in obj]: the sequence Python iterates over. *)
Definition py_iter (obj : JSON) : Outcome (list JSON) :=
  match obj with
  | JList l => Returned l
  | JDict items => Returned (map (fun kv => JStr (fst kv)) items)
  | JStr s => Returned (map (fun c => JStr (Str c EmptyStr)) (code_points s))
  | JNull | JBool _ | JInt _ => Raised TypeError
  end.

(** ** Tasks and tables

    Dates and datetimes are seconds since 1970-01-01 00:00 local time.  The
    Python side carries [dTrainBeginDate] and [dTrainEndDate] as the text
    'YYYY-MM-DD' produced by [CONVERT(VARCHAR(10), ..., 120)]; the server
    reads that text back as midnight of the day, which is the number kept
    here. *)

Record Task := {
  salesregid : str;
  finish_start_date : Z;
  finish_end_date : Z;
  dTrainBeginDate : Z;
  dTrainEndDate : Z;
  nTotalComplete : Z;
  cClassYM : str;
  cRegNumber : str
}.

(** NYDB.AT.InsuExternalTrainingX, the summary table. *)
Record SummaryRow := {
  x_cInsuLicense : str;
  x_cEmpIdn : str;
  x_dTrainBeginDate : Z;
  x_dTrainEndDate : Z;
  x_nTotalComplete : Z;
  x_nShouldComplete : Z;
  x_cClassYM : str;
  x_cRegNumber : option str;
  x_dRefreshDate : Z
}.

(** NYDB.AT.InsuExternalTrainingY, the detail table. *)
Record DetailRow := {
  y_cClassYM : str;
  y_cInsuLicense : str;
  y_cEmpIdn : option str;
  y_cCourse : str;
  y_dChgDate : Z
}.

(** NYDB.AT.vInsuSalesEmpX, the roster view. *)
Record RosterRow := {
  v_cEmpIdn : str;
  v_cWorkingStatus : str
}.

Record Database := {
  InsuExternalTrainingX : list SummaryRow;
  InsuExternalTrainingY : list DetailRow;
  vInsuSalesEmpX : list RosterRow;
  getdate : Z
}.

(** The three statements [sync_data] sends, with their bound parameters. *)
Inductive Stmt :=
  | DeleteDetails (license : str) (chg_from chg_to : Z)
  | InsertDetail (ym license lookup : str) (fullname finish_time : JSON)
  | UpdateSummary (total : JSON) (license : str) (train_begin train_end : Z).

(** ** Logging: one constructor per message of the module. *)

Inductive LogLevel := INFO | WARNING | ERROR.

Inductive LogMsg :=
  | CookieSaved | SaveCookieFailed | ReadCookieFailed
  | CookieCleared | ClearCookieFailed
  | CaptchaElementMissing | OcrResult (text : str)
  | LoginSucceeded | LoginRejected (banner : str) | PageLoadTimeout
  | LoginAttempt (n : nat) (max_attempts : Z)
  | LoginUnknownError | AllLoginAttemptsFailed
  | BadApiResponse | DataUnchanged (id : str) (total : JSON)
  | ApiRequestFailed (id : str) | DbOperationFailed (id : str)
  | UnknownError (id : str)
  | DetailsDeleted (id ym : str) | NoNewDetails (id : str)
  | DetailsInserted (n : nat) (id ym : str)
  | SummaryUpdated (id ym : str) (total : JSON)
  | FetchTasksFailed | TaskException (id : str)
  | NoValidCookie | LoginFailedAbort | NoCookieAfterLogin
  | NothingToProcess | StartProcessing (total : nat)
  | Done (success_count total : nat).

(** ** The mutable world *)

Record World := {
  cookie_file : option (list byte);   (* the bytes of COOKIE_FILE, None when absent *)
  db : Database;
  journal : list Stmt;           (* write statements the server has executed *)
  log : list (LogLevel * LogMsg)
}.

Definition set_cookie_file (f : option (list byte)) (w : World) : World :=
  {| cookie_file := f; db := db w; journal := journal w; log := log w |}.

Definition commit (s : Stmt) (d : Database) (w : World) : World :=
  {| cookie_file := cookie_file w; db := d;
     journal := journal w ++ [s]; log := log w |}.

Definition add_log (l : LogLevel) (m : LogMsg) (w : World) : World :=
  {| cookie_file := cookie_file w; db := db w; journal := journal w;
     log := log w ++ [(l, m)] |}.

(** ** The outside parties *)

Inductive FileOp := OpenWrite | OpenRead | Remove.

(** What the portal shows after the sign-in click and the wait. *)
Record SubmitResult := {
  wait_error : option PyExc;     (* raised by the click or by wait_for_load_state *)
  page_url : str;
  error_alert : option str;
  context_cookies : list (str * str)
}.

(** One page of the browser: what each call on it yields. *)
Record Page := {
  goto_error : option PyExc;     (* raised by page.goto *)
  captcha_img : option str;   (* screenshot of the captcha element, None when it is missing *)
  after_click : str -> str -> str -> SubmitResult
                                 (* user name, password and captcha text typed in *)
}.

Record Request := {
  req_cookie : str;
  req_salesregid : str;
  req_finish_start_date : Z;
  req_finish_end_date : Z
}.

Record Response := {
  status_code : Z;
  body : option JSON      (* None: the body is not JSON *)
}.

Inductive HttpResult :=
  | TransportFailure      (* requests.post raises ConnectionError, Timeout, ... *)
  | Replied (r : Response)
  | PostError (e : PyExc).
                          (* requests.post raises something else, as UnicodeEncodeError
                             on a cookie with a character beyond Latin-1 *)

(** Where a connection fails: never, on connect, or on its [k]-th
    statement (counted from 0). *)
Inductive DbFault := NoFault | ConnectFails | StmtFails (k : nat).

(** The calls around the login loop: [ddddocr.DdddOcr()], entering
    [with sync_playwright()], [p.chromium.launch(headless=True)],
    [browser.close()] and leaving the [with]. *)
Inductive Setup := NewOcr | StartPlaywright | LaunchChromium | CloseBrowser | StopPlaywright.

Record Env := {
  os_platform : Platform;
  io_error : FileOp -> bool;                   (* the file operation raises *)
  TII_USERNAME : option str;
  TII_PASSWORD : option str;
  setup_error : Setup -> option PyExc;         (* what the call raises, if anything *)
  new_page : nat -> Page;                      (* the n-th page the browser opens *)
  classification : str -> str;           (* ddddocr *)
  requests_post : Request -> HttpResult;
  json_error : PyExc;                          (* what response.json() raises on a non-JSON body *)
  sync_fault : Task -> DbFault;                (* the connection sync_data opens for a task *)
  fetch_fault : DbFault;                       (* the connection fetch_tasks opens *)
  getEmpIdnByInsuLicence : str -> option str;
  sql_varchar : JSON -> option str;         (* a bound value as the server stores it in cCourse *)
  sql_datetime : JSON -> option Z;             (* ... in dChgDate *)
  sql_int : JSON -> option Z                   (* ... in nTotalComplete *)
}.

(** ** The monad: state and exceptions *)

Definition M (A : Type) : Type := World -> Outcome A * World.

Definition ret {A} (a : A) : M A := fun w => (Returned a, w).

Definition raise {A} (e : PyExc) : M A := fun w => (Raised e, w).

Definition bind {A B} (m : M A) (k : A -> M B) : M B :=
  fun w => match m w with
           | (Returned a, w') => k a w'
           | (Raised e, w') => (Raised e, w')
           end.

(** [try: m  except ...: h e]. *)
Definition try_except {A} (m : M A) (h : PyExc -> M A) : M A :=
  fun w => match m w with
           | (Returned a, w') => (Returned a, w')
           | (Raised e, w') => h e w'
           end.

(** [try: m  finally: f], and [with ...: m] around a context manager
    whose exit is [f] and swallows nothing: [f] runs whatever [m] did, and
    an exception of [f] replaces the outcome of [m], a pending [return]
    included. *)
Definition try_finally {A} (m : M A) (f : M unit) : M A :=
  fun w => match m w with
           | (o, w') =>
               match f w' with
               | (Returned _, w'') => (o, w'')
               | (Raised e, w'') => (Raised e, w'')
               end
           end.

Definition of_outcome {A} (o : Outcome A) : M A := fun w => (o, w).

Definition logging (l : LogLevel) (m : LogMsg) : M unit :=
  fun w => (Returned tt, add_log l m w).

Declare Scope py_scope.
Delimit Scope py_scope with py.
Notation "x <- m ;; k" := (bind m (fun x => k))
  (at level 61, m at next level, right associativity) : py_scope.
Notation "m ;; k" := (bind m (fun _ => k))
  (at level 61, right associativity) : py_scope.
Open Scope py_scope.

(** ** Global constants *)

Definition BASE_URL : str := "https://elearning.tii.org.tw".
Definition LOGIN_URL : str := BASE_URL ++ "/edu/mpage/".
Definition MAX_WORKERS : nat := 5.

Section Program.

Variable env : Env.

(** ** Session store *)

(** [with open(COOKIE_FILE, 'w', encoding='utf-8') as f: f.write(text)].
    Opening truncates the file; a text that cannot be encoded raises
    UnicodeEncodeError before anything is written. *)
Definition open_write (text : str) : M unit :=
  fun w =>
    if io_error env OpenWrite then (Raised IOError, w)
    else match utf8_encode (text_write (os_platform env) text) with
         | Some raw => (Returned tt, set_cookie_file (Some raw) w)
         | None => (Raised ValueError, set_cookie_file (Some []) w)
         end.

(** [with open(COOKIE_FILE, 'r', encoding='utf-8') as f: f.read()]. *)
Definition open_read : M str :=
  fun w =>
    if io_error env OpenRead then (Raised IOError, w)
    else match cookie_file w with
         | Some raw =>
             match utf8_decode raw with
             | Some text => (Returned (text_read text), w)
             | None => (Raised ValueError, w)
             end
         | None => (Raised IOError, w)
         end.

Definition os_path_exists : M bool :=
  fun w => (Returned (match cookie_file w with Some _ => true | None => false end), w).

Definition os_remove : M unit :=
  fun w =>
    if io_error env Remove then (Raised IOError, w)
    else match cookie_file w with
         | Some _ => (Returned tt, set_cookie_file None w)
         | None => (Raised IOError, w)
         end.

Definition save_cookie (cookie_str : str) : M unit :=
  try_except
    (open_write cookie_str ;;
     logging INFO CookieSaved)
    (fun e => match e with
              | IOError => logging ERROR SaveCookieFailed
              | _ => raise e
              end).

Definition get_cookie : M (option str) :=
  present <- os_path_exists ;;
  if negb present then ret None
  else
    try_except
      (text <- open_read ;;
       ret (Some (strip text)))
      (fun e => match e with
                | IOError => logging ERROR ReadCookieFailed ;; ret None
                | _ => raise e
                end).

Definition clear_cookies : M unit :=
  present <- os_path_exists ;;
  if present then
    try_except
      (os_remove ;;
       logging INFO CookieCleared)
      (fun e => match e with
                | IOError => logging ERROR ClearCookieFailed
                | _ => raise e
                end)
  else ret tt.

(** ** Login *)

(** [page.fill(selector, value)]: the value must be a string. *)
Definition page_fill (value : option str) : M str :=
  match value with
  | Some s => ret s
  | None => raise TypeError
  end.

Definition cookie_pair (c : str * str) : str := fst c ++ "=" ++ snd c.

Definition _attempt_login (page : Page) (ocr : str -> str)
    (username password : option str) : M bool :=
  try_except
    (match goto_error page with
     | Some e => raise e
     | None =>
         u <- page_fill username ;;
         p <- page_fill password ;;
         match captcha_img page with
         | None =>
             logging ERROR CaptchaElementMissing ;;
             ret false
         | Some img_bytes =>
             let captcha_text := ocr img_bytes in
             logging INFO (OcrResult captcha_text) ;;
             let shown := after_click page u p captcha_text in
             match wait_error shown with
             | Some e => raise e
             | None =>
                 if negb (contains "mpage" (page_url shown)) then
                   logging INFO LoginSucceeded ;;
                   let cookie_str := join "; " (map cookie_pair (context_cookies shown)) in
                   save_cookie cookie_str ;;
                   ret true
                 else
                   match error_alert shown with
                   | Some text => logging WARNING (LoginRejected text) ;; ret false
                   | None => ret false
                   end
             end
         end
     end)
    (fun e => if is_PlaywrightTimeoutError e
              then logging WARNING PageLoadTimeout ;; ret false
              else raise e).

(** The [for attempt in range(max_attempts)] loop; [true] is the early
    [return True].  Closing the page and sleeping change no state. *)
Fixpoint login_loop (max_attempts : Z) (remaining attempt : nat) : M bool :=
  match remaining with
  | O => ret false
  | S remaining' =>
      logging INFO (LoginAttempt (attempt + 1) max_attempts) ;;
      ok <- _attempt_login (new_page env attempt) (classification env)
              (TII_USERNAME env) (TII_PASSWORD env) ;;
      if ok then ret true
      else login_loop max_attempts remaining' (S attempt)
  end.

Definition setup (op : Setup) : M unit :=
  match setup_error env op with
  | Some e => raise e
  | None => ret tt
  end.

(** The [try] statement inside the [with] block: the loop, the handler
    for everything it raises, and [browser.close()] in the [finally]. *)
Definition login_attempts (max_attempts : Z) : M bool :=
  try_finally
    (try_except
       (login_loop max_attempts (Z.to_nat max_attempts) 0)
       (fun _ => logging ERROR LoginUnknownError ;; ret false))
    (setup CloseBrowser).

Definition login_and_save_cookie (max_attempts : Z) : M bool :=
  setup NewOcr ;;
  setup StartPlaywright ;;
  returned <- try_finally
                (setup LaunchChromium ;;
                 login_attempts max_attempts)
                (setup StopPlaywright) ;;
  if returned then ret true
  else
    logging ERROR AllLoginAttemptsFailed ;;
    ret false.

(** ** Database driver

    The connection is opened with [autocommit=True]: the server commits
    every statement as it executes it. *)

Definition in_window (license : str) (chg_from chg_to : Z) (r : DetailRow) : bool :=
  str_eqb (y_cInsuLicense r) license
  && (chg_from <=? y_dChgDate r) && (y_dChgDate r <=? chg_to).

Definition summary_matches (license : str) (b e : Z) (r : SummaryRow) : bool :=
  str_eqb (x_cInsuLicense r) license
  && (x_dTrainBeginDate r =? b) && (x_dTrainEndDate r =? e).

Definition refresh (total now : Z) (r : SummaryRow) : SummaryRow :=
  {| x_cInsuLicense := x_cInsuLicense r; x_cEmpIdn := x_cEmpIdn r;
     x_dTrainBeginDate := x_dTrainBeginDate r; x_dTrainEndDate := x_dTrainEndDate r;
     x_nTotalComplete := total; x_nShouldComplete := x_nShouldComplete r;
     x_cClassYM := x_cClassYM r; x_cRegNumber := x_cRegNumber r;
     x_dRefreshDate := now |}.

Definition with_tables (xs : list SummaryRow) (ys : list DetailRow) (d : Database) : Database :=
  {| InsuExternalTrainingX := xs; InsuExternalTrainingY := ys;
     vInsuSalesEmpX := vInsuSalesEmpX d; getdate := getdate d + 1 |}.

(** What the server does with one statement; [None] when it rejects a
    bound value. *)
Definition exec_stmt (s : Stmt) (d : Database) : option Database :=
  match s with
  | DeleteDetails license chg_from chg_to =>
      Some (with_tables (InsuExternalTrainingX d)
              (filter (fun r => negb (in_window license chg_from chg_to r))
                      (InsuExternalTrainingY d)) d)
  | InsertDetail ym license lookup fullname finish_time =>
      match sql_varchar env fullname, sql_datetime env finish_time with
      | Some course, Some chg =>
          Some (with_tables (InsuExternalTrainingX d)
                  (InsuExternalTrainingY d ++
                   [{| y_cClassYM := ym; y_cInsuLicense := license;
                       y_cEmpIdn := getEmpIdnByInsuLicence env lookup;
                       y_cCourse := course; y_dChgDate := chg |}]) d)
      | _, _ => None
      end
  | UpdateSummary total license b e =>
      match sql_int env total with
      | Some n =>
          Some (with_tables
                  (map (fun r => if summary_matches license b e r
                                 then refresh n (getdate d) r else r)
                       (InsuExternalTrainingX d))
                  (InsuExternalTrainingY d) d)
      | None => None
      end
  end.

Record Connection := { conn_fault : DbFault }.

Record Cursor := { cur_fault : DbFault; executed : nat }.

Definition get_db_connection (fault : DbFault) : M Connection :=
  match fault with
  | ConnectFails => raise PymssqlError
  | _ => ret {| conn_fault := fault |}
  end.

Definition conn_cursor (conn : Connection) : Cursor :=
  {| cur_fault := conn_fault conn; executed := 0 |}.

Definition fault_hits (c : Cursor) : bool :=
  match cur_fault c with
  | StmtFails k => Nat.eqb k (executed c)
  | _ => false
  end.

Definition next (c : Cursor) : Cursor :=
  {| cur_fault := cur_fault c; executed := S (executed c) |}.

(** [cursor.execute(stmt, params)] for a write. *)
Definition cursor_execute (c : Cursor) (s : Stmt) : M Cursor :=
  fun w =>
    if fault_hits c then (Raised PymssqlError, w)
    else match exec_stmt s (db w) with
         | Some d => (Returned (next c), commit s d w)
         | None => (Raised PymssqlError, w)
         end.

(** [cursor.executemany(stmt, params)]: pymssql executes the statement
    once per parameter tuple, in order. *)
Fixpoint cursor_executemany (c : Cursor) (ss : list Stmt) : M Cursor :=
  match ss with
  | [] => ret c
  | s :: rest =>
      c' <- cursor_execute c s ;;
      cursor_executemany c' rest
  end.

(** ** Core synchronisation *)

Definition delete_details (cursor : Cursor) (item : Task) : M Cursor :=
  cursor' <- cursor_execute cursor
               (DeleteDetails (salesregid item) (dTrainBeginDate item) (dTrainEndDate item)) ;;
  logging INFO (DetailsDeleted (salesregid item) (cClassYM item)) ;;
  ret cursor'.

(** One element of the [params] comprehension, already paired with the
    INSERT it is bound to. *)
Definition row_params (item : Task) (row : JSON) : Outcome Stmt :=
  match py_getitem row "fullname" with
  | Raised e => Raised e
  | Returned fullname =>
      match py_getitem row "finish_time" with
      | Raised e => Raised e
      | Returned finish_time =>
          Returned (InsertDetail (cClassYM item) (salesregid item) (salesregid item)
                      fullname finish_time)
      end
  end.

Fixpoint all_params (item : Task) (rows : list JSON) : Outcome (list Stmt) :=
  match rows with
  | [] => Returned []
  | row :: rest =>
      match row_params item row with
      | Raised e => Raised e
      | Returned p =>
          match all_params item rest with
          | Raised e => Raised e
          | Returned ps => Returned (p :: ps)
          end
      end
  end.

Definition insert_details (cursor : Cursor) (item : Task) (rows : JSON) : M Cursor :=
  seq_rows <- of_outcome (py_iter rows) ;;
  params <- of_outcome (all_params item seq_rows) ;;
  match params with
  | [] =>
      logging INFO (NoNewDetails (salesregid item)) ;;
      ret cursor
  | _ =>
      cursor' <- cursor_executemany cursor params ;;
      logging INFO (DetailsInserted (List.length params) (salesregid item) (cClassYM item)) ;;
      ret cursor'
  end.

Definition update_summary (cursor : Cursor) (item : Task) (total : JSON) : M Cursor :=
  cursor' <- cursor_execute cursor
               (UpdateSummary total (salesregid item) (dTrainBeginDate item) (dTrainEndDate item)) ;;
  logging INFO (SummaryUpdated (salesregid item) (cClassYM item) total) ;;
  ret cursor'.

Definition request_of (item : Task) (cookie_str : str) : Request :=
  {| req_cookie := cookie_str;
     req_salesregid := salesregid item;
     req_finish_start_date := finish_start_date item;
     req_finish_end_date := finish_end_date item |}.

Definition http_error (r : Response) : bool :=
  (400 <=? status_code r) && (status_code r <? 600).

(** [response.raise_for_status()]: HTTPError, a RequestException, on a 4xx
    or 5xx status. *)
Definition raise_for_status (r : Response) : M unit :=
  if http_error r then raise RequestException else ret tt.

Definition response_json (r : Response) : M JSON :=
  match body r with
  | Some j => ret j
  | None => raise (json_error env)
  end.

(** The three writes of [sync_data], inside the two [with] blocks. *)
Definition apply_changes (item : Task) (api_data : JSON) : M unit :=
  conn <- get_db_connection (sync_fault env item) ;;
  let cursor := conn_cursor conn in
  cursor1 <- delete_details cursor item ;;
  rows <- of_outcome (py_getitem api_data "rows") ;;
  cursor2 <- insert_details cursor1 item rows ;;
  total <- of_outcome (py_getitem api_data "total") ;;
  update_summary cursor2 item total ;;
  ret tt.

Definition sync_data (item : Task) (cookie_str : str) : M bool :=
  try_except
    (match requests_post env (request_of item cookie_str) with
     | TransportFailure => raise RequestException
     | PostError e => raise e
     | Replied response =>
         raise_for_status response ;;
         api_data <- response_json response ;;
         has_total <- of_outcome (py_in "total" api_data) ;;
         malformed <- (if negb has_total then ret true
                       else has_rows <- of_outcome (py_in "rows" api_data) ;;
                            ret (negb has_rows)) ;;
         if (malformed : bool) then
           logging ERROR BadApiResponse ;;
           clear_cookies ;;
           ret false
         else
           total <- of_outcome (py_getitem api_data "total") ;;
           if py_eq_int total (nTotalComplete item) then
             logging INFO (DataUnchanged (salesregid item) total) ;;
             ret true
           else
             apply_changes item api_data ;;
             ret true
     end)
    (fun e =>
       if is_RequestException e then
         logging ERROR (ApiRequestFailed (salesregid item)) ;;
         clear_cookies ;;
         ret false
       else if is_PymssqlError e then
         logging ERROR (DbOperationFailed (salesregid item)) ;;
         ret false
       else
         logging ERROR (UnknownError (salesregid item)) ;;
         ret false).

(** ** Task source *)

Definition midnight (t : Z) : Z := 86400 * (t / 86400).

Definition task_of (a : SummaryRow) (reg : str) : Task :=
  {| salesregid := x_cInsuLicense a;
     finish_start_date := x_dTrainBeginDate a - 8 * 3600;
     finish_end_date := (x_dTrainEndDate a + 86400 - 8 * 3600) - 1;
     dTrainBeginDate := midnight (x_dTrainBeginDate a);
     dTrainEndDate := midnight (x_dTrainEndDate a);
     nTotalComplete := x_nTotalComplete a;
     cClassYM := x_cClassYM a;
     cRegNumber := reg |}.

(** The SELECT of [fetch_tasks]: summary rows joined with the roster. *)
Definition select_outstanding (d : Database) : list Task :=
  flat_map
    (fun a =>
       flat_map
         (fun b =>
            match x_cRegNumber a with
            | Some reg =>
                if str_eqb (v_cEmpIdn b) (x_cEmpIdn a)
                   && str_eqb (v_cWorkingStatus b) "W"
                   && negb (x_nTotalComplete a =? x_nShouldComplete a)
                then [task_of a reg] else []
            | None => []
            end)
         (vInsuSalesEmpX d))
    (InsuExternalTrainingX d).

Definition cursor_select (c : Cursor) : M (list Task) :=
  fun w =>
    if fault_hits c then (Raised PymssqlError, w)
    else (Returned (select_outstanding (db w)), w).

Definition fetch_tasks : M (list Task) :=
  try_except
    (conn <- get_db_connection (fetch_fault env) ;;
     cursor_select (conn_cursor conn))
    (fun _ =>
       logging ERROR FetchTasksFailed ;;
       ret []).

(** ** Dispatcher *)

(** The body of [process_single_task] around any synchronisation
    function; the sleep after it changes no state. *)
Definition process_single_task_with (sync : Task -> str -> M bool)
    (item : Task) (cookie_str : str) : M bool :=
  try_except
    (result <- sync item cookie_str ;;
     ret result)
    (fun _ =>
       logging ERROR (TaskException (salesregid item)) ;;
       ret false).

Definition process_single_task (item : Task) (cookie_str : str) : M bool :=
  process_single_task_with sync_data item cookie_str.

(** *** The worker pool

    [executor.map] submits every task at once; at most [MAX_WORKERS] of
    them, the oldest still pending, are in flight.  A task is run as one
    step; which of the tasks in flight takes the next step is the
    scheduler's choice, read from [schedule] (0 once it is used up).  A
    worker's exception is kept in its future. *)

Definition in_flight (pending : list (nat * Task)) : nat :=
  Nat.min MAX_WORKERS (List.length pending).

Fixpoint run_pool (f : Task -> M bool) (schedule : list nat) (fuel : nat)
    (pending : list (nat * Task)) (done : list (nat * Outcome bool))
    (w : World) : list (nat * Outcome bool) * World :=
  match fuel with
  | O => (done, w)
  | S fuel' =>
      let k := Nat.modulo (hd O schedule) (in_flight pending) in
      match nth_error pending k with
      | None => (done, w)
      | Some (i, t) =>
          let (o, w1) := f t w in
          run_pool f (tl schedule) fuel'
            (firstn k pending ++ skipn (S k) pending) ((i, o) :: done) w1
      end
  end.

Fixpoint future (i : nat) (done : list (nat * Outcome bool)) : option (Outcome bool) :=
  match done with
  | [] => None
  | (j, o) :: rest => if Nat.eqb j i then Some o else future i rest
  end.

(** [list(...)] over the iterator of [executor.map]: results in the
    order of submission; the first future holding an exception raises it.
    An index with no future adds nothing ([run_pool] leaves none). *)
Fixpoint gather (done : list (nat * Outcome bool)) (indices : list nat) : Outcome (list bool) :=
  match indices with
  | [] => Returned []
  | i :: rest =>
      match future i done with
      | Some (Raised e) => Raised e
      | Some (Returned b) =>
          match gather done rest with
          | Returned bs => Returned (b :: bs)
          | Raised e => Raised e
          end
      | None => gather done rest
      end
  end.

Definition executor_map (f : Task -> M bool) (schedule : list nat) (tasks : list Task)
    : M (list bool) :=
  fun w =>
    let n := List.length tasks in
    let (done, w') := run_pool f schedule n (combine (seq O n) tasks) [] w in
    (gather done (seq O n), w').

(** [sum(results)] over booleans. *)
Definition sum (results : list bool) : nat :=
  List.length (filter (fun b => b) results).

(** Step 3 of [main]; returns [(success_count, total)]. *)
Definition run_tasks (schedule : list nat) (tasks : list Task) (cookie_str : str)
    : M (nat * nat) :=
  let total := List.length tasks in
  logging INFO (StartProcessing total) ;;
  results <- executor_map (fun task => process_single_task task cookie_str) schedule tasks ;;
  let success_count := sum results in
  logging INFO (Done success_count total) ;;
  ret (success_count, total).

(** Steps 2 and 3 of [main]. *)
Definition main_sync (schedule : list nat) (cookie_str : str) : M unit :=
  tasks <- fetch_tasks ;;
  match tasks with
  | [] => logging INFO NothingToProcess
  | _ => run_tasks schedule tasks cookie_str ;; ret tt
  end.

(** [cookie_str] when it is neither [None] nor empty. *)
Definition usable (c : option str) : option str :=
  match c with
  | Some s => if truthy s then Some s else None
  | None => None
  end.

Definition main (schedule : list nat) : M unit :=
  c <- get_cookie ;;
  match usable c with
  | Some cookie_str => main_sync schedule cookie_str
  | None =>
      logging INFO NoValidCookie ;;
      ok <- login_and_save_cookie 10 ;;
      if negb ok then logging ERROR LoginFailedAbort
      else
        c' <- get_cookie ;;
        match usable c' with
        | Some cookie_str => main_sync schedule cookie_str
        | None => logging ERROR NoCookieAfterLogin
        end
  end.

End Program.

(** * Vocabulary of the properties *)

Open Scope list_scope.

(** ** Strings *)

Fixpoint last_char (s : str) : option N :=
  match s with
  | EmptyStr => None
  | Str c EmptyStr => Some c
  | Str _ s' => last_char s'
  end.

(** No leading and no trailing whitespace. *)
Definition bare (s : str) : bool :=
  match s with
  | EmptyStr => true
  | Str c _ =>
      negb (is_space c)
      && match last_char s with Some l => negb (is_space l) | None => true end
  end.

Fixpoint has_CR (s : str) : bool :=
  match s with
  | EmptyStr => false
  | Str c s' => N.eqb c CR || has_CR s'
  end.

(** The bytes of a file that holds the text [s]. *)
Definition file_bytes (s : str) : list byte :=
  match utf8_encode s with
  | Some raw => raw
  | None => []
  end.

(** A code point UTF-8 has an encoding for: no surrogate, nothing
    beyond 0x10FFFF. *)
Definition scalar (c : N) : bool := ((c <? 0x110000) && negb (is_surrogate c))%N.

(** A string without surrogates. *)
Fixpoint encodable (s : str) : bool :=
  match s with
  | EmptyStr => true
  | Str c s' => scalar c && encodable s'
  end.

(** ** Concrete surroundings for the examples *)

(** A page that never loads. *)
Definition no_page : Page :=
  {| goto_error := Some PlaywrightTimeoutError;
     captcha_img := None;
     after_click := fun _ _ _ =>
       {| wait_error := None; page_url := LOGIN_URL;
          error_alert := None; context_cookies := [] |} |}.

(** A Posix host with a sound disk, a browser that starts and stops
    without error and a server that stores text, epoch numbers and
    integers as they are; the endpoint answers [reply] to every request and
    every connection has the fault [fault]. *)
Definition scenario (reply : HttpResult) (fault : DbFault) : Env :=
  {| os_platform := Posix;
     io_error := fun _ => false;
     TII_USERNAME := Some "agent";
     TII_PASSWORD := Some "secret";
     setup_error := fun _ => None;
     new_page := fun _ => no_page;
     classification := fun img => img;
     requests_post := fun _ => reply;
     json_error := RequestException;
     sync_fault := fun _ => fault;
     fetch_fault := fault;
     getEmpIdnByInsuLicence := fun license => Some ("E-" ++ license)%str;
     sql_varchar := fun j => match j with JStr s => Some s | _ => None end;
     sql_datetime := fun j => match j with JInt z => Some z | _ => None end;
     sql_int := fun j => match j with JInt z => Some z | _ => None end |}.

(** [e] with another disk, and with another browser and recognizer. *)
Definition with_disk (io : FileOp -> bool) (e : Env) : Env :=
  {| os_platform := os_platform e;
     io_error := io;
     TII_USERNAME := TII_USERNAME e;
     TII_PASSWORD := TII_PASSWORD e;
     setup_error := setup_error e;
     new_page := new_page e;
     classification := classification e;
     requests_post := requests_post e;
     json_error := json_error e;
     sync_fault := sync_fault e;
     fetch_fault := fetch_fault e;
     getEmpIdnByInsuLicence := getEmpIdnByInsuLicence e;
     sql_varchar := sql_varchar e;
     sql_datetime := sql_datetime e;
     sql_int := sql_int e |}.

Definition with_browser (pages : nat -> Page) (ocr : str -> str) (e : Env) : Env :=
  {| os_platform := os_platform e;
     io_error := io_error e;
     TII_USERNAME := TII_USERNAME e;
     TII_PASSWORD := TII_PASSWORD e;
     setup_error := setup_error e;
     new_page := pages;
     classification := ocr;
     requests_post := requests_post e;
     json_error := json_error e;
     sync_fault := sync_fault e;
     fetch_fault := fetch_fault e;
     getEmpIdnByInsuLicence := getEmpIdnByInsuLicence e;
     sql_varchar := sql_varchar e;
     sql_datetime := sql_datetime e;
     sql_int := sql_int e |}.

Definition empty_db : Database :=
  {| InsuExternalTrainingX := []; InsuExternalTrainingY := [];
     vInsuSalesEmpX := []; getdate := 0 |}.

Definition fresh_world : World :=
  {| cookie_file := None; db := empty_db; journal := []; log := [] |}.

(** ** Session store *)

(** What [get_cookie] returns right after [save_cookie s]. *)
Definition saved_then_loaded (env : Env) (s : str) (w : World) : Outcome (option str) :=
  fst ((save_cookie env s ;; get_cookie env) w).

(** A lone surrogate between two letters. *)
Definition torn_cookie : str := "a" ++ Str 0xD800 "b".

(** The text a, carriage return, b. *)
Definition cr_cookie : str := "a" ++ Str CR "b".

(** A host whose file system refuses every operation on the cookie
    file. *)
Definition read_only_host : Env :=
  with_disk (fun _ => true) (scenario TransportFailure NoFault).

(** ** Storage and remote answers *)

(** The remote snapshot: the parsed body, when the endpoint answered
    with a status that [raise_for_status] lets pass and a body in which
    both ['total' in api_data] and ['rows' in api_data] hold. *)
Definition remote_snapshot (env : Env) (item : Task) (cookie_str : str) : option JSON :=
  match requests_post env (request_of item cookie_str) with
  | TransportFailure => None
  | PostError _ => None
  | Replied r =>
      if http_error r then None
      else match body r with
           | None => None
           | Some api =>
               match py_in "total" api, py_in "rows" api with
               | Returned true, Returned true => Some api
               | _, _ => None
               end
           end
  end.

(** Same tables, same executed statements. *)
Definition same_store (w w' : World) : Prop :=
  db w' = db w /\ journal w' = journal w.

(** The server executing [ss] one after the other. *)
Fixpoint replay (env : Env) (ss : list Stmt) (d : Database) : option Database :=
  match ss with
  | [] => Some d
  | s :: rest =>
      match exec_stmt env s d with
      | Some d' => replay env rest d'
      | None => None
      end
  end.

(** [w'] is [w] after the server executed exactly [ss]; the cookie file
    is as it was. *)
Definition committed (env : Env) (w : World) (ss : list Stmt) (w' : World) : Prop :=
  journal w' = journal w ++ ss
  /\ replay env ss (db w) = Some (db w')
  /\ cookie_file w' = cookie_file w.

(** How far a computation that is to execute [ss] got: to the end, or
    stopped by a pymssql error after a strict prefix. *)
Inductive Progress {A : Type} (env : Env) (w : World) (ss : list Stmt)
    : Outcome A * World -> Prop :=
  | AllDone a w' :
      committed env w ss w' -> Progress env w ss (Returned a, w')
  | Stopped k w' :
      (k < List.length ss)%nat ->
      committed env w (firstn k ss) w' ->
      Progress env w ss (Raised PymssqlError, w').

(** The statements [apply_changes] is to send, when the snapshot's rows
    can be read: the delete, one insert per row, the update. *)
Definition planned_writes (item : Task) (api_data : JSON) : option (list Stmt) :=
  match py_getitem api_data "rows", py_getitem api_data "total" with
  | Returned rows, Returned total =>
      match py_iter rows with
      | Returned seq_rows =>
          match all_params item seq_rows with
          | Returned params =>
              Some (DeleteDetails (salesregid item) (dTrainBeginDate item) (dTrainEndDate item)
                    :: params
                    ++ [UpdateSummary total (salesregid item)
                          (dTrainBeginDate item) (dTrainEndDate item)])
          | Raised _ => None
          end
      | Raised _ => None
      end
  | _, _ => None
  end.

(** *** The January task of entity A123: 5 completions known, one detail
    row stored. *)

Definition jan_task : Task :=
  {| salesregid := "A123";
     finish_start_date := 1704038400;
     finish_end_date := 1706716799;
     dTrainBeginDate := 1704067200;
     dTrainEndDate := 1706659200;
     nTotalComplete := 5;
     cClassYM := "202401";
     cRegNumber := "R-1" |}.

Definition jan_summary : SummaryRow :=
  {| x_cInsuLicense := "A123"; x_cEmpIdn := "E-A123";
     x_dTrainBeginDate := 1704067200; x_dTrainEndDate := 1706659200;
     x_nTotalComplete := 5; x_nShouldComplete := 12;
     x_cClassYM := "202401"; x_cRegNumber := Some "R-1";
     x_dRefreshDate := 0 |}.

Definition old_detail : DetailRow :=
  {| y_cClassYM := "202401"; y_cInsuLicense := "A123";
     y_cEmpIdn := Some "E-A123"; y_cCourse := "Ethics";
     y_dChgDate := 1704500000 |}.

Definition jan_world : World :=
  {| cookie_file := utf8_encode "PHPSESSID=abc";
     db := {| InsuExternalTrainingX := [jan_summary];
              InsuExternalTrainingY := [old_detail];
              vInsuSalesEmpX := [{| v_cEmpIdn := "E-A123"; v_cWorkingStatus := "W" |}];
              getdate := 1707000000 |};
     journal := [];
     log := [] |}.

Definition completion (name : str) (finished : Z) : JSON :=
  JDict [("fullname", JStr name); ("finish_time", JInt finished)].

Definition ok_reply (total : JSON) (rows : JSON) : HttpResult :=
  Replied {| status_code := 200;
             body := Some (JDict [("total", total); ("rows", rows)]) |}.

Definition five_reply : HttpResult :=
  ok_reply (JInt 5) (JList [completion "Ethics" 1704500000]).

Definition seven_reply : HttpResult :=
  ok_reply (JInt 7) (JList [completion "Ethics" 1704500000; completion "Law" 1705000000]).


Definition jan_writes : list Stmt :=
  [DeleteDetails "A123" 1704067200 1706659200;
   InsertDetail "202401" "A123" "A123" (JStr "Ethics") (JInt 1704500000);
   InsertDetail "202401" "A123" "A123" (JStr "Law") (JInt 1705000000);
   UpdateSummary (JInt 7) "A123" 1704067200 1706659200].

(** A computation that never changes the cookie file. *)
Definition keeps_cookie {A} (m : M A) : Prop :=
  forall w, cookie_file (snd (m w)) = cookie_file w.


(** The endpoint cannot be reached, answers with a 4xx or 5xx status, or
    answers with a JSON object that lacks "total" or "rows". *)
Definition refused (h : HttpResult) : Prop :=
  match h with
  | TransportFailure => True
  | PostError e => is_RequestException e = true
  | Replied r =>
      http_error r = true
      \/ exists items, body r = Some (JDict items)
                       /\ (dict_get "total" items = None \/ dict_get "rows" items = None)
  end.

Definition null_reply : HttpResult :=
  Replied {| status_code := 200; body := Some JNull |}.

Definition list_reply : HttpResult :=
  Replied {| status_code := 200; body := Some (JList [JStr "total"; JStr "rows"]) |}.

Definition no_rows_reply : HttpResult :=
  Replied {| status_code := 200; body := Some (JDict [("total", JInt 7)]) |}.

(** The task as [fetch_tasks] would read it once the summary says [n]. *)
Definition reread (n : Z) (item : Task) : Task :=
  {| salesregid := salesregid item;
     finish_start_date := finish_start_date item;
     finish_end_date := finish_end_date item;
     dTrainBeginDate := dTrainBeginDate item;
     dTrainEndDate := dTrainEndDate item;
     nTotalComplete := n;
     cClassYM := cClassYM item;
     cRegNumber := cRegNumber item |}.

(** The connection of [fetch_tasks] fails on connect or on its one
    statement. *)
Definition storage_error (f : DbFault) : bool :=
  match f with
  | ConnectFails => true
  | StmtFails O => true
  | _ => false
  end.

(** A computation whose outcome is the same from every world. *)
Definition steady {A} (m : M A) : Prop :=
  forall w w', fst (m w) = fst (m w').

(** Whether the server takes a statement depends on its bound values
    only. *)
Definition accepts (env : Env) (s : Stmt) : bool :=
  match s with
  | DeleteDetails _ _ _ => true
  | InsertDetail _ _ _ fullname finish_time =>
      match sql_varchar env fullname, sql_datetime env finish_time with
      | Some _, Some _ => true
      | _, _ => false
      end
  | UpdateSummary total _ _ _ =>
      match sql_int env total with Some _ => true | None => false end
  end.

(** ** Pool *)

(** Every pending entry is a submitted task; every submitted task is
    pending or has its future, holding its verdict. *)
Definition pool_inv (verdict : Task -> bool) (tasks : list Task)
    (pending : list (nat * Task)) (done : list (nat * Outcome bool)) : Prop :=
  (forall i t, In (i, t) pending -> nth_error tasks i = Some t)
  /\ (forall i t, nth_error tasks i = Some t ->
                  In (i, t) pending \/ future i done = Some (Returned (verdict t))).

(** What a worker returns for a task processed on its own, from [w0]. *)
Definition returns_true (worker : Task -> M bool) (w0 : World) (t : Task) : bool :=
  match fst (worker t w0) with
  | Returned true => true
  | _ => false
  end.

Definition succeeds_alone (env : Env) (cookie_str : str) (w0 : World) (t : Task) : bool :=
  returns_true (fun task => process_single_task env task cookie_str) w0 t.



(** The same entity with 7 and with 9 completions known. *)
Definition feb_task : Task := reread 7 jan_task.
Definition mar_task : Task := reread 9 jan_task.

(** ** Login *)

(** A portal as the login page presents it: it lets a visitor in when
    user name, password and captcha text are right and shows the landing
    page with the session cookies; otherwise the visitor stays on the login
    page, with or without an alert, or the wait runs into its timeout. *)
Record Portal := {
  valid_username : str;
  valid_password : str;
  captcha_image : nat -> str;
  captcha_answer : nat -> str;
  landing_url : str;
  session_cookies : list (str * str);
  reject_alert : nat -> option str;
  reject_times_out : nat -> bool
}.

Definition portal_page (P : Portal) (n : nat) : Page :=
  {| goto_error := None;
     captcha_img := Some (captcha_image P n);
     after_click := fun u p text =>
       if str_eqb u (valid_username P) && str_eqb p (valid_password P)
          && str_eqb text (captcha_answer P n)
       then {| wait_error := None; page_url := landing_url P;
               error_alert := None; context_cookies := session_cookies P |}
       else {| wait_error := if reject_times_out P n
                             then Some PlaywrightTimeoutError else None;
               page_url := LOGIN_URL;
               error_alert := reject_alert P n; context_cookies := [] |} |}.

(** The recognizer is created and the browser starts, closes and stops
    without an error. *)
Definition browser_runs (env : Env) : Prop :=
  forall op, setup_error env op = None.

Definition is_attempt (r : LogLevel * LogMsg) : bool :=
  match snd r with LoginAttempt _ _ => true | _ => false end.

(** Number of login attempts the log records. *)
Definition attempts_logged (w : World) : nat :=
  List.length (filter is_attempt (log w)).

(** The cookies of the portal as [_attempt_login] joins them. *)
Definition serialized (P : Portal) : str :=
  join "; " (map cookie_pair (session_cookies P)).

Definition demo_portal : Portal :=
  {| valid_username := "agent";
     valid_password := "secret";
     captcha_image := fun n => if Nat.even n then "img-a" else "img-b";
     captcha_answer := fun n => if Nat.even n then "x7k2" else "m3pq";
     landing_url := (BASE_URL ++ "/edu/home/")%str;
     session_cookies := [("PHPSESSID", "abc"); ("lang", "zh")];
     reject_alert := fun n => if Nat.even n then Some "wrong code" else None;
     reject_times_out := fun n => Nat.eqb n 2 |}.

Definition good_reader (img : str) : str :=
  if str_eqb img "img-a" then "x7k2" else "m3pq".

Definition bad_reader (img : str) : str := "????".

Definition browser_env (ocr : str -> str) : Env :=
  with_browser (portal_page demo_portal) ocr (scenario TransportFailure NoFault).

(** * Vocabulary of the further properties *)

(** A computation that returns from every world. *)
Definition never_raises {A} (m : M A) : Prop :=
  forall w, exists a, fst (m w) = Returned a.

(** A computation whose exceptions all satisfy [P]. *)
Definition raises_only {A} (P : PyExc -> bool) (m : M A) : Prop :=
  forall w e, fst (m w) = Raised e -> P e = true.

(** A computation that moves every world to one related by [R]. *)
Definition respects {A} (R : World -> World -> Prop) (m : M A) : Prop :=
  forall w, R w (snd (m w)).

Definition not_RequestException (e : PyExc) : bool := negb (is_RequestException e).

(** The cookie file is as it was, or gone. *)
Definition cookie_kept_or_gone (w w' : World) : Prop :=
  cookie_file w' = cookie_file w \/ cookie_file w' = None.

(** A statement bound to the entity, period and window of [item]. *)
Definition stmt_for (item : Task) (s : Stmt) : bool :=
  match s with
  | DeleteDetails license chg_from chg_to =>
      str_eqb license (salesregid item)
      && (chg_from =? dTrainBeginDate item) && (chg_to =? dTrainEndDate item)
  | InsertDetail ym license lookup _ _ =>
      str_eqb ym (cClassYM item) && str_eqb license (salesregid item)
      && str_eqb lookup (salesregid item)
  | UpdateSummary _ license b e =>
      str_eqb license (salesregid item)
      && (b =? dTrainBeginDate item) && (e =? dTrainEndDate item)
  end.

(** Nothing outside the reach of [item] is lost: detail rows that are not
    of its entity and window stay, summary rows with another key stay, the
    summary table keeps its size and the roster is the same. *)
Definition spares (item : Task) (w w' : World) : Prop :=
  (forall r, in_window (salesregid item) (dTrainBeginDate item) (dTrainEndDate item) r = false ->
             In r (InsuExternalTrainingY (db w)) -> In r (InsuExternalTrainingY (db w')))
  /\ (forall r, summary_matches (salesregid item) (dTrainBeginDate item) (dTrainEndDate item) r
                = false ->
                In r (InsuExternalTrainingX (db w)) -> In r (InsuExternalTrainingX (db w')))
  /\ List.length (InsuExternalTrainingX (db w')) = List.length (InsuExternalTrainingX (db w))
  /\ vInsuSalesEmpX (db w') = vInsuSalesEmpX (db w).

(** What is left of the [try] block of [sync_data] once the shape check
    has passed, and its three handlers. *)
Definition after_shape_check (env : Env) (item : Task) (api_data : JSON) : M bool :=
  total <- of_outcome (py_getitem api_data "total") ;;
  if py_eq_int total (nTotalComplete item) then
    logging INFO (DataUnchanged (salesregid item) total) ;;
    ret true
  else
    apply_changes env item api_data ;;
    ret true.

Definition sync_handlers (env : Env) (item : Task) (e : PyExc) : M bool :=
  if is_RequestException e then
    logging ERROR (ApiRequestFailed (salesregid item)) ;;
    clear_cookies env ;;
    ret false
  else if is_PymssqlError e then
    logging ERROR (DbOperationFailed (salesregid item)) ;;
    ret false
  else
    logging ERROR (UnknownError (salesregid item)) ;;
    ret false.

(** The detail row an INSERT stores, when the server takes its values. *)
Definition detail_of (env : Env) (s : Stmt) : list DetailRow :=
  match s with
  | InsertDetail ym license lookup fullname finish_time =>
      match sql_varchar env fullname, sql_datetime env finish_time with
      | Some course, Some chg =>
          [{| y_cClassYM := ym; y_cInsuLicense := license;
              y_cEmpIdn := getEmpIdnByInsuLicence env lookup;
              y_cCourse := course; y_dChgDate := chg |}]
      | _, _ => []
      end
  | _ => []
  end.

Definition inserted_rows (env : Env) (ss : list Stmt) : list DetailRow :=
  flat_map (detail_of env) ss.

Definition is_insert (s : Stmt) : bool :=
  match s with InsertDetail _ _ _ _ _ => true | _ => false end.

(** The detail rows the DELETE of [item] leaves. *)
Definition outside_window (item : Task) (rows : list DetailRow) : list DetailRow :=
  filter (fun r => negb (in_window (salesregid item) (dTrainBeginDate item)
                           (dTrainEndDate item) r)) rows.

(** A reply whose second row has no "finish_time". *)
Definition torn_reply : HttpResult :=
  ok_reply (JInt 7)
    (JList [completion "Ethics" 1704500000; JDict [("fullname", JStr "Law")]]).

(** A world whose cookie file holds blanks, a carriage return and line
    feed around the text. *)
Definition messy_world : World :=
  set_cookie_file (utf8_encode (" a b" ++ Str CR (Str LF EmptyStr))) fresh_world.

(** [e] with other credentials in the environment. *)
Definition with_credentials (u p : option str) (e : Env) : Env :=
  {| os_platform := os_platform e;
     io_error := io_error e;
     TII_USERNAME := u;
     TII_PASSWORD := p;
     setup_error := setup_error e;
     new_page := new_page e;
     classification := classification e;
     requests_post := requests_post e;
     json_error := json_error e;
     sync_fault := sync_fault e;
     fetch_fault := fetch_fault e;
     getEmpIdnByInsuLicence := getEmpIdnByInsuLicence e;
     sql_varchar := sql_varchar e;
     sql_datetime := sql_datetime e;
     sql_int := sql_int e |}.

(** The first attempt ends in an exception that [_attempt_login] does not
    handle: [page.goto] raises something other than a timeout, or the page
    loads and a credential is not configured. *)
Definition first_attempt_breaks (env : Env) : Prop :=
  match goto_error (new_page env O) with
  | Some e => is_PlaywrightTimeoutError e = false
  | None => TII_USERNAME env = None \/ TII_PASSWORD env = None
  end.

(** A recognizer that misreads the first kind of captcha only. *)
Definition slow_reader (img : str) : str :=
  if str_eqb img "img-a" then "????" else "m3pq".

(** The key the UPDATE of a task compares summary rows with. *)
Definition addresses (t : Task) (a : SummaryRow) : bool :=
  summary_matches (salesregid t) (dTrainBeginDate t) (dTrainEndDate t) a.

(** The cookie file, if there is one and it can be opened, holds
    UTF-8. *)
Definition readable (env : Env) (w : World) : Prop :=
  forall raw, cookie_file w = Some raw -> io_error env OpenRead = false ->
              utf8_decode raw <> None.

(** [e] with a recognizer and a browser that fail as [errors] says. *)
Definition with_setup (errors : Setup -> option PyExc) (e : Env) : Env :=
  {| os_platform := os_platform e;
     io_error := io_error e;
     TII_USERNAME := TII_USERNAME e;
     TII_PASSWORD := TII_PASSWORD e;
     setup_error := errors;
     new_page := new_page e;
     classification := classification e;
     requests_post := requests_post e;
     json_error := json_error e;
     sync_fault := sync_fault e;
     fetch_fault := fetch_fault e;
     getEmpIdnByInsuLicence := getEmpIdnByInsuLicence e;
     sql_varchar := sql_varchar e;
     sql_datetime := sql_datetime e;
     sql_int := sql_int e |}.

(** Chromium cannot be launched. *)
Definition no_chromium (op : Setup) : option PyExc :=
  match op with
  | LaunchChromium => Some IOError
  | _ => None
  end.

(** The summary table once the UPDATE of [t] has stored the total [n]
    at the server time [now]. *)
Definition summary_updated (t : Task) (n now : Z) (rows : list SummaryRow)
    : list SummaryRow :=
  map (fun r => if addresses t r then refresh n now r else r) rows.

(** [a1] is the row [a] with, at most, another total and refresh date. *)
Definition same_row (a a1 : SummaryRow) : Prop :=
  a1 = refresh (x_nTotalComplete a1) (x_dRefreshDate a1) a.

(** The January row of A123 with a training that begins at 01:00 of the
    first day, the world that holds it and the task [fetch_tasks] reads
    from it. *)
Definition night_summary : SummaryRow :=
  {| x_cInsuLicense := "A123"; x_cEmpIdn := "E-A123";
     x_dTrainBeginDate := 1704070800; x_dTrainEndDate := 1706659200;
     x_nTotalComplete := 5; x_nShouldComplete := 12;
     x_cClassYM := "202401"; x_cRegNumber := Some "R-1";
     x_dRefreshDate := 0 |}.

Definition night_world : World :=
  {| cookie_file := utf8_encode "PHPSESSID=abc";
     db := {| InsuExternalTrainingX := [night_summary];
              InsuExternalTrainingY := [old_detail];
              vInsuSalesEmpX := [{| v_cEmpIdn := "E-A123"; v_cWorkingStatus := "W" |}];
              getdate := 1707000000 |};
     journal := [];
     log := [] |}.

Definition night_task : Task := task_of night_summary "R-1".

(** Where [main] stands once [fetch_tasks] had nothing for it. *)
Definition after_empty_fetch (env : Env) (w : World) : World :=
  add_log INFO NothingToProcess
    (if storage_error (fetch_fault env) then add_log ERROR FetchTasksFailed w else w).

(** The last line of the log. *)
Definition last_logged (w : World) : option (LogLevel * LogMsg) :=
  match rev (log w) with
  | [] => None
  | r :: _ => Some r
  end.

(** A detail row that lies in the delete window of none of the tasks. *)
Definition out_of_reach (tasks : list Task) (r : DetailRow) : Prop :=
  forall t, In t tasks ->
            in_window (salesregid t) (dTrainBeginDate t) (dTrainEndDate t) r = false.

(** What a run over [tasks] may do to the world: the cookie file is kept
    or removed, detail rows out of reach of every task stay, the summary
    table keeps its size and the roster is the same. *)
Definition contained (tasks : list Task) (w w' : World) : Prop :=
  cookie_kept_or_gone w w'
  /\ (forall r, out_of_reach tasks r ->
                In r (InsuExternalTrainingY (db w)) -> In r (InsuExternalTrainingY (db w')))
  /\ List.length (InsuExternalTrainingX (db w')) = List.length (InsuExternalTrainingX (db w))
  /\ vInsuSalesEmpX (db w') = vInsuSalesEmpX (db w).

(** A reply with a completion on the last day of the January window,
    after midnight. *)
Definition late_reply : HttpResult :=
  ok_reply (JInt 7) (JList [completion "Ethics" 1706700000]).

(** * Properties *)

(** ** Strings and the cookie file *)

Lemma str_eqb_refl s : str_eqb s s = true.
Proof. induction s as [|c s IH]; cbn; [reflexivity|]. now rewrite N.eqb_refl. Qed.

Lemma str_eqb_eq a b : str_eqb a b = true <-> a = b.
Proof.
  split; [|intros ->; apply str_eqb_refl].
  revert b. induction a as [|c a IH]; intros [|d b]; cbn; try discriminate; [reflexivity|].
  intros H. apply andb_prop in H as [H1 H2].
  apply N.eqb_eq in H1. now rewrite H1, (IH b H2).
Qed.

Lemma str_eqb_neq a b : str_eqb a b = false <-> a <> b.
Proof.
  split.
  - intros H E. apply str_eqb_eq in E. congruence.
  - intros H. destruct (str_eqb a b) eqn:E; [|reflexivity].
    apply str_eqb_eq in E. contradiction.
Qed.

(** *** UTF-8 *)

Lemma byte_of_to_N n : (n < 256)%N -> Byte.to_N (byte_of n) = n.
Proof.
  intros H. unfold byte_of.
  destruct (Byte.of_N n) as [b|] eqn:E.
  - now apply Byte.to_of_N.
  - apply Byte.of_N_None_iff in E. lia.
Qed.

Ltac decide_tests :=
  repeat match goal with
         | |- context [(?a <? ?b)%N] => destruct (N.ltb_spec a b); try (exfalso; lia)
         | |- context [(?a <=? ?b)%N] => destruct (N.leb_spec a b); try (exfalso; lia)
         | H : context [(?a <? ?b)%N] |- _ => destruct (N.ltb_spec a b); try (exfalso; lia)
         | H : context [(?a <=? ?b)%N] |- _ => destruct (N.leb_spec a b); try (exfalso; lia)
         end.

Ltac euclid c q r :=
  pose proof (N.div_mod c 64 ltac:(lia));
  pose proof (N.mod_lt c 64 ltac:(lia));
  generalize dependent (c / 64)%N; intros q;
  generalize dependent (c mod 64)%N; intros r; intros.

Ltac name_bytes :=
  repeat match goal with
         | |- context [byte_of ?n] =>
             let b := fresh "b" in
             let E := fresh "E" in
             let T := fresh "T" in
             remember (byte_of n) as b eqn:E;
             assert (T : Byte.to_N b = n) by (rewrite E; apply byte_of_to_N; lia);
             clear E
         end.

Ltac test_holds :=
  repeat (apply andb_true_intro; split);
  first [ apply N.leb_le; lia
        | apply N.ltb_lt; lia
        | rewrite negb_andb; apply orb_true_iff;
          first [ left; apply negb_true_iff, N.leb_gt; lia
                | right; apply negb_true_iff, N.leb_gt; lia ] ].

Ltac head_tests :=
  repeat match goal with
         | |- (if (?a <? ?b)%N then _ else _) = _ =>
             destruct (N.ltb_spec a b); [try (exfalso; lia) | try (exfalso; lia)]
         | |- (if ?t then _ else _) = _ =>
             let H := fresh in
             assert (H : t = true) by test_holds; rewrite H; clear H
         end.

Ltac decode_front :=
  name_bytes; cbn [app utf8_decode];
  repeat match goal with T : Byte.to_N _ = _ |- _ => rewrite T; clear T end;
  unfold is_continuation, payload, is_surrogate;
  head_tests; f_equal; lia.

Lemma decode_encode_front c rest :
  match encode_char c with
  | Some bs => utf8_decode (bs ++ rest) = then_decoded c (utf8_decode rest)
  | None => True
  end.
Proof.
  unfold encode_char, continuation.
  euclid c q1 r1. euclid q1 q2 r2. euclid q2 q3 r3.
  destruct (N.ltb_spec c 0x80); [decode_front|].
  destruct (N.ltb_spec c 0x800); [decode_front|].
  destruct (N.ltb_spec c 0x10000).
  { unfold is_surrogate at 1.
    destruct (N.leb_spec 0xD800 c); destruct (N.leb_spec c 0xDFFF); cbn [andb];
      try exact I; decode_front. }
  destruct (N.ltb_spec c 0x110000); [|exact I].
  decode_front.
Qed.

(** A character that can be encoded is decoded again from the front of
    any byte sequence that starts with its encoding. *)
Lemma decode_encode_char c bs rest :
  encode_char c = Some bs ->
  utf8_decode (bs ++ rest) = then_decoded c (utf8_decode rest).
Proof.
  intros H. pose proof (decode_encode_front c rest) as F.
  now rewrite H in F.
Qed.

(** Decoding undoes encoding. *)
Lemma utf8_decode_encode s : forall raw,
  utf8_encode s = Some raw -> utf8_decode raw = Some s.
Proof.
  induction s as [|c s IH]; cbn [utf8_encode]; intros raw H.
  - now injection H as <-.
  - destruct (encode_char c) as [bs|] eqn:Ec; [|discriminate].
    destruct (utf8_encode s) as [rest|]; [|discriminate].
    injection H as <-.
    rewrite (decode_encode_char c bs rest Ec), (IH rest eq_refl). reflexivity.
Qed.

Lemma encode_char_scalar c : scalar c = true <-> exists bs, encode_char c = Some bs.
Proof.
  unfold scalar, encode_char, is_surrogate. split.
  - intros H. apply andb_prop in H as [H1 H2]. apply negb_true_iff in H2.
    rewrite H1, H2. destruct (c <? 0x80)%N, (c <? 0x800)%N, (c <? 0x10000)%N; eauto.
  - intros (bs & H).
    destruct (N.ltb_spec c 0x80); [decide_tests; reflexivity|].
    destruct (N.ltb_spec c 0x800); [decide_tests; reflexivity|].
    destruct (N.ltb_spec c 0x10000).
    + destruct ((0xD800 <=? c)%N && (c <=? 0xDFFF)%N); [discriminate|].
      decide_tests; reflexivity.
    + destruct (N.ltb_spec c 0x110000); [|discriminate].
      decide_tests; reflexivity.
Qed.

(** Exactly the strings without surrogates have an encoding. *)
Lemma utf8_encode_encodable s :
  encodable s = true <-> exists raw, utf8_encode s = Some raw.
Proof.
  induction s as [|c s IH]; cbn [encodable utf8_encode].
  - split; eauto.
  - rewrite andb_true_iff, IH, encode_char_scalar. split.
    + intros [(bs & ->) (raw & ->)]. eauto.
    + intros (raw & H).
      destruct (encode_char c); [|discriminate].
      destruct (utf8_encode s); [|discriminate]. eauto.
Qed.

Lemma utf8_encode_surrogate s :
  encodable s = false -> utf8_encode s = None.
Proof.
  intros H. destruct (utf8_encode s) as [raw|] eqn:E; [|reflexivity].
  assert (encodable s = true) by (apply utf8_encode_encodable; eauto). congruence.
Qed.

Lemma then_decoded_some c o s :
  then_decoded c o = Some s -> exists s', o = Some s' /\ s = Str c s'.
Proof. destruct o as [s'|]; cbn; [intros [= <-]; eauto | discriminate]. Qed.

Lemma utf8_decode_encodable_bounded n : forall raw s,
  (List.length raw <= n)%nat -> utf8_decode raw = Some s -> encodable s = true.
Proof.
  induction n as [|n IH]; intros raw s Hn.
  - destruct raw; [intros [= <-]; reflexivity | cbn in Hn; lia].
  - destruct raw as [|b0 r0]; [intros [= <-]; reflexivity|].
    cbn [List.length] in Hn. cbn [utf8_decode].
    pose proof (Byte.to_N_bounded b0) as B0.
    generalize dependent (Byte.to_N b0). intros n0 B0.
    destruct (N.ltb_spec n0 0x80) as [L1|L1].
    { intros Hd. apply then_decoded_some in Hd as (s' & Hd & ->).
      cbn [encodable]. rewrite (IH r0 s') by (auto; lia).
      unfold scalar, is_surrogate. decide_tests. reflexivity. }
    destruct (N.ltb_spec n0 0xC0) as [L2|L2]; [discriminate|].
    destruct (N.ltb_spec n0 0xE0) as [L3|L3].
    { destruct r0 as [|b1 r1]; [discriminate|].
      pose proof (Byte.to_N_bounded b1) as B1.
      generalize dependent (Byte.to_N b1). intros n1 B1.
      match goal with
      | |- (if ?t then _ else _) = _ -> _ => destruct t eqn:Et; [|discriminate]
      end.
      intros Hd. apply then_decoded_some in Hd as (s' & Hd & ->).
      cbn [encodable]. cbn [List.length] in Hn. rewrite (IH r1 s') by (auto; lia).
      rewrite andb_true_r.
      apply andb_prop in Et as [C1 Hmin].
      unfold is_continuation, payload, scalar, is_surrogate in *.
      decide_tests; try discriminate; reflexivity. }
    destruct (N.ltb_spec n0 0xF0) as [L4|L4].
    { destruct r0 as [|b1 [|b2 r2]]; try discriminate.
      pose proof (Byte.to_N_bounded b1) as B1.
      generalize dependent (Byte.to_N b1). intros n1 B1.
      pose proof (Byte.to_N_bounded b2) as B2.
      generalize dependent (Byte.to_N b2). intros n2 B2.
      match goal with
      | |- (if ?t then _ else _) = _ -> _ => destruct t eqn:Et; [|discriminate]
      end.
      intros Hd. apply then_decoded_some in Hd as (s' & Hd & ->).
      cbn [encodable]. cbn [List.length] in Hn. rewrite (IH r2 s') by (auto; lia).
      rewrite andb_true_r.
      apply andb_prop in Et as [Et Hs]. apply andb_prop in Et as [Et Hmin].
      apply andb_prop in Et as [C1 C2].
      unfold scalar. rewrite Hs, andb_true_r.
      unfold is_continuation, payload in *.
      decide_tests; try discriminate; reflexivity. }
    destruct (N.ltb_spec n0 0xF8) as [L5|L5]; [|discriminate].
    destruct r0 as [|b1 [|b2 [|b3 r3]]]; try discriminate.
    match goal with
    | |- (if ?t then _ else _) = _ -> _ => destruct t eqn:Et; [|discriminate]
    end.
    intros Hd. apply then_decoded_some in Hd as (s' & Hd & ->).
    cbn [encodable]. cbn [List.length] in Hn. rewrite (IH r3 s') by (auto; lia).
    rewrite andb_true_r.
    apply andb_prop in Et as [Et Hmax]. apply andb_prop in Et as [Et Hmin].
    unfold scalar, is_surrogate. rewrite Hmax. cbn [andb].
    apply N.leb_le in Hmin.
    generalize dependent ((((n0 - 240) * 64 + payload (Byte.to_N b1)) * 64
                           + payload (Byte.to_N b2)) * 64 + payload (Byte.to_N b3))%N.
    intros c Hmin _. decide_tests; reflexivity.
Qed.

(** What the decoder yields holds no surrogate. *)
Lemma utf8_decode_encodable raw s : utf8_decode raw = Some s -> encodable s = true.
Proof. exact (utf8_decode_encodable_bounded _ raw s (le_n _)). Qed.

(** Newline translation and stripping introduce no surrogate. *)
Lemma scalar_LF : scalar LF = true.
Proof. reflexivity. Qed.

Lemma encodable_app a b :
  encodable a = true -> encodable b = true -> encodable (a ++ b) = true.
Proof.
  induction a as [|c a IH]; cbn [append encodable]; [auto|].
  intros H Hb. apply andb_prop in H as [Hc Ha]. now rewrite Hc, IH.
Qed.

Lemma encodable_text_write p s :
  encodable s = true -> encodable (text_write p s) = true.
Proof.
  induction s as [|c s IH]; cbn [text_write encodable]; [auto|].
  intros H. apply andb_prop in H as [Hc Hs]. specialize (IH Hs).
  destruct (N.eqb c LF).
  - apply encodable_app; [destruct p; reflexivity | exact IH].
  - cbn [encodable]. now rewrite Hc, IH.
Qed.

Lemma encodable_text_read_bounded n : forall raw,
  (str_length raw <= n)%nat -> encodable raw = true -> encodable (text_read raw) = true.
Proof.
  induction n as [|n IH]; intros raw Hn.
  - destruct raw; [reflexivity | cbn in Hn; lia].
  - destruct raw as [|c rest]; [reflexivity|]. cbn [str_length] in Hn.
    cbn [text_read encodable]. intros H. apply andb_prop in H as [Hc Hr].
    destruct (N.eqb c CR).
    + destruct rest as [|c2 rest2]; [reflexivity|]. cbn [str_length] in Hn.
      destruct (N.eqb c2 LF); cbn [encodable]; rewrite scalar_LF; cbn [andb].
      * cbn [encodable] in Hr. apply andb_prop in Hr as [_ Hr]. apply IH; [lia | exact Hr].
      * apply IH; [cbn [str_length]; lia | exact Hr].
    + cbn [encodable]. rewrite Hc. cbn [andb]. apply IH; [lia | exact Hr].
Qed.

Lemma encodable_text_read raw : encodable raw = true -> encodable (text_read raw) = true.
Proof. exact (encodable_text_read_bounded _ raw (le_n _)). Qed.

Lemma encodable_lstrip s : encodable s = true -> encodable (lstrip s) = true.
Proof.
  induction s as [|c s IH]; cbn [lstrip]; [auto|]. intros H.
  destruct (is_space c); [|exact H].
  cbn [encodable] in H. apply andb_prop in H as [_ H]. auto.
Qed.

Lemma encodable_rstrip s : encodable s = true -> encodable (rstrip s) = true.
Proof.
  induction s as [|c s IH]; [auto|]. intros H.
  cbn [encodable] in H. apply andb_prop in H as [Hc Hs]. specialize (IH Hs).
  change (rstrip (Str c s))
    with (match rstrip s with
          | EmptyStr => if is_space c then EmptyStr else Str c EmptyStr
          | r => Str c r
          end).
  destruct (rstrip s) as [|a r].
  - destruct (is_space c); cbn [encodable]; [reflexivity | now rewrite Hc].
  - cbn [encodable] in *. now rewrite Hc, IH.
Qed.

Lemma encodable_strip s : encodable s = true -> encodable (strip s) = true.
Proof. intros H. apply encodable_rstrip, encodable_lstrip, H. Qed.

Lemma lstrip_bare s : bare s = true -> lstrip s = s.
Proof.
  destruct s as [|c s]; simpl; [reflexivity|].
  intros H. apply andb_prop in H as [H _].
  apply negb_true_iff in H. now rewrite H.
Qed.

Lemma rstrip_last s c :
  last_char s = Some c -> is_space c = false -> rstrip s = s.
Proof.
  induction s as [|a s IH]; [discriminate|].
  destruct s as [|b s].
  - simpl. intros [= ->] ->. reflexivity.
  - intros Hl Hc. change (last_char (Str a (Str b s))) with (last_char (Str b s)) in Hl.
    specialize (IH Hl Hc).
    change (rstrip (Str a (Str b s)))
      with (match rstrip (Str b s) with
            | EmptyStr => if is_space a then EmptyStr else Str a EmptyStr
            | r => Str a r
            end).
    rewrite IH. reflexivity.
Qed.

Lemma strip_bare s : bare s = true -> strip s = s.
Proof.
  intros H. unfold strip. rewrite (lstrip_bare _ H).
  destruct s as [|c s]; [reflexivity|].
  unfold bare in H. apply andb_prop in H as [_ H].
  destruct (last_char (Str c s)) as [l|] eqn:E.
  - apply negb_true_iff in H. exact (rstrip_last _ _ E H).
  - exfalso. clear H. revert c E.
    induction s as [|b s IH]; intros c E; [discriminate|].
    exact (IH b E).
Qed.

(** Reading back what was written gives the text again when it holds no
    carriage return, on either platform. *)
Lemma text_read_write p s : has_CR s = false -> text_read (text_write p s) = s.
Proof.
  induction s as [|c s IH]; simpl; [reflexivity|].
  intros H. apply orb_false_iff in H as [Hc Hs]. specialize (IH Hs).
  destruct (N.eqb c LF) eqn:El.
  - apply N.eqb_eq in El. subst c.
    destruct p; simpl; now rewrite IH.
  - simpl. rewrite Hc. now rewrite IH.
Qed.

(** ** Steps of a computation *)

Lemma bind_returned {A B} (m : M A) (k : A -> M B) w a w1 :
  m w = (Returned a, w1) -> bind m k w = k a w1.
Proof. intros H. unfold bind. now rewrite H. Qed.

Lemma bind_raised {A B} (m : M A) (k : A -> M B) w e w1 :
  m w = (Raised e, w1) -> bind m k w = (Raised e, w1).
Proof. intros H. unfold bind. now rewrite H. Qed.

(** ** Session store round trip *)

Lemma save_cookie_written env s raw w :
  io_error env OpenWrite = false ->
  utf8_encode (text_write (os_platform env) s) = Some raw ->
  save_cookie env s w
  = (Returned tt, add_log INFO CookieSaved (set_cookie_file (Some raw) w)).
Proof.
  intros Hw He. unfold save_cookie, try_except, bind, open_write, logging.
  now rewrite Hw, He.
Qed.

Lemma save_cookie_refused env s w :
  io_error env OpenWrite = true ->
  save_cookie env s w = (Returned tt, add_log ERROR SaveCookieFailed w).
Proof.
  intros Hw. unfold save_cookie, try_except, bind, open_write, logging.
  now rewrite Hw.
Qed.

(** A string with a surrogate cannot be written: the file is left
    empty and the UnicodeEncodeError passes the [except IOError]. *)
Lemma save_cookie_unencodable env s w :
  io_error env OpenWrite = false ->
  utf8_encode (text_write (os_platform env) s) = None ->
  save_cookie env s w = (Raised ValueError, set_cookie_file (Some []) w).
Proof.
  intros Hw He. unfold save_cookie, try_except, bind, open_write, logging.
  now rewrite Hw, He.
Qed.

Lemma get_cookie_absent env w :
  cookie_file w = None -> get_cookie env w = (Returned None, w).
Proof.
  intros H. unfold get_cookie, bind, os_path_exists. now rewrite H.
Qed.

Lemma get_cookie_present env w raw text :
  cookie_file w = Some raw -> io_error env OpenRead = false ->
  utf8_decode raw = Some text ->
  get_cookie env w = (Returned (Some (strip (text_read text))), w).
Proof.
  intros H Hr Hd. unfold get_cookie, bind, os_path_exists, try_except, open_read, ret.
  rewrite H. cbn. now rewrite Hr, H, Hd.
Qed.

Lemma get_cookie_unreadable env w raw :
  cookie_file w = Some raw -> io_error env OpenRead = true ->
  get_cookie env w = (Returned None, add_log ERROR ReadCookieFailed w).
Proof.
  intros H Hr. unfold get_cookie, bind, os_path_exists, try_except, open_read, ret.
  rewrite H. cbn. now rewrite Hr.
Qed.

(** A file that is not UTF-8 cannot be read: the UnicodeDecodeError
    passes the [except IOError]. *)
Lemma get_cookie_garbled env w raw :
  cookie_file w = Some raw -> io_error env OpenRead = false ->
  utf8_decode raw = None ->
  get_cookie env w = (Raised ValueError, w).
Proof.
  intros H Hr Hd. unfold get_cookie, bind, os_path_exists, try_except, open_read, ret.
  rewrite H. cbn. now rewrite Hr, H, Hd.
Qed.

Lemma saved_then_loaded_plain env s w :
  io_error env OpenWrite = false -> io_error env OpenRead = false ->
  bare s = true -> has_CR s = false -> encodable s = true ->
  saved_then_loaded env s w = Returned (Some s).
Proof.
  intros Hw Hr Hb Hc He.
  destruct (proj1 (utf8_encode_encodable _) (encodable_text_write (os_platform env) s He))
    as (raw & Er).
  unfold saved_then_loaded.
  rewrite (bind_returned _ _ _ _ _ (save_cookie_written env s raw w Hw Er)).
  rewrite (get_cookie_present env (add_log INFO CookieSaved (set_cookie_file (Some raw) w))
             raw _ eq_refl Hr (utf8_decode_encode _ _ Er)).
  cbn [fst]. now rewrite (text_read_write _ _ Hc), (strip_bare _ Hb).
Qed.

(** C9, as amended: on a disk that takes the write and the read, a
    credential with no leading or trailing whitespace, no carriage return
    and no surrogate comes back from [get_cookie] exactly as [save_cookie]
    stored it. *)
Theorem cookie_roundtrip (env : Env) (s : str) (w : World) :
  io_error env OpenWrite = false ->
  io_error env OpenRead = false ->
  bare s = true ->
  has_CR s = false ->
  encodable s = true ->
  saved_then_loaded env s w = Returned (Some s).
Proof.
  intros Hw Hr Hb Hc He. exact (saved_then_loaded_plain env s w Hw Hr Hb Hc He).
Qed.

Lemma cookie_roundtrip_witness :
  saved_then_loaded (scenario TransportFailure NoFault) "PHPSESSID=abc; lang=zh" fresh_world
  = Returned (Some "PHPSESSID=abc; lang=zh").
Proof.
  apply cookie_roundtrip; reflexivity.
Defined.

(** C9 as stated fails: a carriage return inside the credential is read
    back as a line feed, although the string has no surrounding
    whitespace.  A credential with a lone surrogate is not stored at all:
    the write raises UnicodeEncodeError, which [save_cookie] does not
    catch, and leaves an empty file.  And where the file system refuses
    the write, [save_cookie] only logs the IOError and [get_cookie] finds
    no file. *)
Lemma cookie_roundtrip_breaks_on_CR :
  bare cr_cookie = true
  /\ saved_then_loaded (scenario TransportFailure NoFault) cr_cookie fresh_world
     = Returned (Some ("a" ++ Str LF "b")%str)
  /\ saved_then_loaded (scenario TransportFailure NoFault) cr_cookie fresh_world
     <> Returned (Some cr_cookie)
  /\ bare torn_cookie = true
  /\ has_CR torn_cookie = false
  /\ save_cookie (scenario TransportFailure NoFault) torn_cookie jan_world
     = (Raised ValueError, set_cookie_file (Some []) jan_world)
  /\ saved_then_loaded (scenario TransportFailure NoFault) torn_cookie jan_world
     = Raised ValueError
  /\ bare "PHPSESSID=abc" = true
  /\ saved_then_loaded read_only_host "PHPSESSID=abc" fresh_world = Returned None.
Proof.
  repeat split; try reflexivity. vm_compute. discriminate.
Qed.

(** ** What a call leaves untouched *)

Lemma same_store_refl w : same_store w w.
Proof. split; reflexivity. Qed.

Lemma same_store_trans w1 w2 w3 :
  same_store w1 w2 -> same_store w2 w3 -> same_store w1 w3.
Proof. intros [A B] [C D]. split; congruence. Qed.

Lemma same_store_log l m w : same_store w (add_log l m w).
Proof. split; reflexivity. Qed.

(** [clear_cookies] always returns, touches nothing but the cookie file,
    and leaves no file when the removal is not refused. *)
Lemma clear_cookies_spec env w :
  exists w', clear_cookies env w = (Returned tt, w')
             /\ same_store w w'
             /\ (cookie_file w' = None \/ cookie_file w' = cookie_file w)
             /\ (io_error env Remove = false -> cookie_file w' = None).
Proof.
  unfold clear_cookies, bind, os_path_exists, try_except, os_remove, logging.
  destruct (cookie_file w) as [c|] eqn:E; cbn.
  - destruct (io_error env Remove) eqn:F; rewrite ?E; cbn.
    + eexists; repeat split; cbn; auto. discriminate.
    + eexists; repeat split; cbn; auto.
  - exists w. repeat split; auto.
Qed.

(** ** The remote snapshot *)

Ltac open_snapshot H :=
  unfold remote_snapshot in H;
  unfold sync_data, try_except, bind, raise_for_status, response_json, of_outcome, ret, raise;
  destruct (requests_post _ _) as [|?r|?e]; [discriminate| |discriminate];
  destruct (http_error _); [discriminate|];
  destruct (body _) as [?api|]; [|discriminate];
  destruct (py_in "total" _) as [[|]|]; try discriminate;
  destruct (py_in "rows" _) as [[|]|]; try discriminate;
  injection H as ->; cbn.

Lemma sync_data_unchanged env item cookie_str api total w :
  remote_snapshot env item cookie_str = Some api ->
  py_getitem api "total" = Returned total ->
  py_eq_int total (nTotalComplete item) = true ->
  sync_data env item cookie_str w
  = (Returned true, add_log INFO (DataUnchanged (salesregid item) total) w).
Proof.
  intros Hs Ht He. open_snapshot Hs.
  rewrite Ht, He. reflexivity.
Qed.

Lemma sync_data_applied env item cookie_str api total w w' :
  remote_snapshot env item cookie_str = Some api ->
  py_getitem api "total" = Returned total ->
  py_eq_int total (nTotalComplete item) = false ->
  apply_changes env item api w = (Returned tt, w') ->
  sync_data env item cookie_str w = (Returned true, w').
Proof.
  intros Hs Ht He Ha. open_snapshot Hs.
  rewrite Ht, He, Ha. reflexivity.
Qed.

Lemma sync_data_db_error env item cookie_str api total w w' :
  remote_snapshot env item cookie_str = Some api ->
  py_getitem api "total" = Returned total ->
  py_eq_int total (nTotalComplete item) = false ->
  apply_changes env item api w = (Raised PymssqlError, w') ->
  sync_data env item cookie_str w
  = (Returned false, add_log ERROR (DbOperationFailed (salesregid item)) w').
Proof.
  intros Hs Ht He Ha. open_snapshot Hs.
  rewrite Ht, He, Ha. reflexivity.
Qed.

Lemma sync_data_with_snapshot env item cookie_str api w :
  remote_snapshot env item cookie_str = Some api ->
  sync_data env item cookie_str w
  = try_except (after_shape_check env item api) (sync_handlers env item) w.
Proof.
  intros Hs. unfold remote_snapshot in Hs.
  unfold sync_data, after_shape_check, sync_handlers, try_except, bind,
    raise_for_status, response_json, of_outcome, ret, raise.
  destruct (requests_post _ _) as [|r|e]; [discriminate| |discriminate].
  destruct (http_error r); [discriminate|].
  destruct (body r) as [api'|]; [|discriminate].
  destruct (py_in "total" api') as [[|]|]; try discriminate.
  destruct (py_in "rows" api') as [[|]|]; try discriminate.
  injection Hs as ->. reflexivity.
Qed.

Lemma sync_data_unchanged_untouched env item cookie_str api total w :
  remote_snapshot env item cookie_str = Some api ->
  py_getitem api "total" = Returned total ->
  py_eq_int total (nTotalComplete item) = true ->
  fst (sync_data env item cookie_str w) = Returned true
  /\ same_store w (snd (sync_data env item cookie_str w))
  /\ cookie_file (snd (sync_data env item cookie_str w)) = cookie_file w.
Proof.
  intros Hs Ht He.
  rewrite (sync_data_unchanged _ _ _ _ _ _ Hs Ht He). cbn.
  repeat split.
Qed.

(** C2: when the snapshot's total equals the task's nTotalComplete,
    [sync_data] returns True having executed no statement: tables,
    executed statements and cookie file are as before. *)
Theorem sync_data_unchanged_no_writes env item cookie_str api total w :
  remote_snapshot env item cookie_str = Some api ->
  py_getitem api "total" = Returned total ->
  py_eq_int total (nTotalComplete item) = true ->
  fst (sync_data env item cookie_str w) = Returned true
  /\ same_store w (snd (sync_data env item cookie_str w))
  /\ cookie_file (snd (sync_data env item cookie_str w)) = cookie_file w.
Proof.
  intros Hs Ht He.
  destruct (sync_data_unchanged_untouched env item cookie_str api total w Hs Ht He)
    as (R & S & C).
  auto.
Qed.

Lemma sync_data_unchanged_no_writes_witness :
  let env := scenario five_reply NoFault in
  fst (sync_data env jan_task "PHPSESSID=abc" jan_world) = Returned true
  /\ same_store jan_world (snd (sync_data env jan_task "PHPSESSID=abc" jan_world))
  /\ cookie_file (snd (sync_data env jan_task "PHPSESSID=abc" jan_world))
     = cookie_file jan_world.
Proof.
  exact (sync_data_unchanged_no_writes (scenario five_reply NoFault) jan_task
           "PHPSESSID=abc" _ (JInt 5) jan_world eq_refl eq_refl eq_refl).
Defined.

(** ** Statements committed one by one *)

Lemma replay_app env a b d d' :
  replay env a d = Some d' -> replay env (a ++ b) d = replay env b d'.
Proof.
  revert d. induction a as [|s a IH]; cbn; intros d H.
  - now injection H as ->.
  - destruct (exec_stmt env s d); [eauto | discriminate].
Qed.

Lemma committed_nil env w : committed env w [] w.
Proof. repeat split. cbn. now rewrite app_nil_r. Qed.

Lemma committed_log env w ss w' l m :
  committed env w ss w' -> committed env w ss (add_log l m w').
Proof. intros (A & B & C). repeat split; assumption. Qed.

Lemma committed_app env w a w1 b w2 :
  committed env w a w1 -> committed env w1 b w2 -> committed env w (a ++ b) w2.
Proof.
  intros (A & B & C) (A' & B' & C'). repeat split.
  - now rewrite A', A, app_assoc.
  - now rewrite (replay_app _ _ _ _ _ B).
  - congruence.
Qed.

Lemma progress_bind {A B} env w a b (m : M A) (k : A -> M B) :
  Progress env w a (m w) ->
  (forall x w1, m w = (Returned x, w1) -> Progress env w1 b (k x w1)) ->
  Progress env w (a ++ b) (bind m k w).
Proof.
  intros Hm Hk. unfold bind.
  destruct (m w) as [o w1] eqn:E. inversion Hm; subst.
  - specialize (Hk _ _ eq_refl).
    destruct (k a0 w1) as [o2 w2]. inversion Hk; subst.
    + apply AllDone. eapply committed_app; eassumption.
    + apply (Stopped _ _ _ (List.length a + k0)%nat).
      * rewrite length_app. lia.
      * rewrite firstn_app_2. eapply committed_app; eassumption.
  - apply (Stopped _ _ _ k0).
    + rewrite length_app. lia.
    + rewrite firstn_app.
      replace (k0 - List.length a)%nat with O by lia.
      cbn. now rewrite app_nil_r.
Qed.

Lemma progress_ret {A} env w (a : A) : Progress env w [] (ret a w).
Proof. apply AllDone, committed_nil. Qed.

Lemma progress_log env w l m : Progress env w [] (logging l m w).
Proof. apply AllDone, committed_log, committed_nil. Qed.

Lemma progress_execute env c s w :
  Progress env w [s] (cursor_execute env c s w).
Proof.
  unfold cursor_execute.
  destruct (fault_hits c).
  { apply (Stopped _ _ _ O); [cbn; lia | apply committed_nil]. }
  destruct (exec_stmt env s (db w)) as [d|] eqn:E.
  - apply AllDone. repeat split; cbn. now rewrite E.
  - apply (Stopped _ _ _ O); [cbn; lia | apply committed_nil].
Qed.

Lemma progress_executemany env ss : forall c w,
  Progress env w ss (cursor_executemany env c ss w).
Proof.
  induction ss as [|s ss IH]; intros c w; cbn [cursor_executemany].
  - apply progress_ret.
  - change (s :: ss) with ([s] ++ ss).
    apply progress_bind; [apply progress_execute | auto].
Qed.

Lemma progress_delete_details env c item w :
  Progress env w
    [DeleteDetails (salesregid item) (dTrainBeginDate item) (dTrainEndDate item)]
    (delete_details env c item w).
Proof.
  unfold delete_details.
  match goal with |- Progress _ _ [?s] _ => change [s] with ([s] ++ ([] ++ [])) end.
  apply progress_bind; [apply progress_execute | intros].
  apply progress_bind; [apply progress_log | intros; apply progress_ret].
Qed.

Lemma progress_update_summary env c item total w :
  Progress env w
    [UpdateSummary total (salesregid item) (dTrainBeginDate item) (dTrainEndDate item)]
    (update_summary env c item total w).
Proof.
  unfold update_summary.
  match goal with |- Progress _ _ [?s] _ => change [s] with ([s] ++ ([] ++ [])) end.
  apply progress_bind; [apply progress_execute | intros].
  apply progress_bind; [apply progress_log | intros; apply progress_ret].
Qed.

Lemma progress_insert_details env c item rows seq_rows params w :
  py_iter rows = Returned seq_rows ->
  all_params item seq_rows = Returned params ->
  Progress env w params (insert_details env c item rows w).
Proof.
  intros Hi Hp. unfold insert_details.
  rewrite Hi. cbn [bind of_outcome]. rewrite Hp.
  destruct params as [|p ps].
  - change (@nil Stmt) with (@nil Stmt ++ []).
    apply progress_bind; [apply progress_log | intros; apply progress_ret].
  - rewrite <- (app_nil_r (p :: ps)) at 1.
    apply progress_bind; [apply progress_executemany | intros].
    change (@nil Stmt) with (@nil Stmt ++ []).
    apply progress_bind; [apply progress_log | intros; apply progress_ret].
Qed.

(** [apply_changes] commits a prefix of the planned statements: all of
    them when it returns, a strict prefix when pymssql raises. *)
Lemma progress_apply_changes env item api full w :
  planned_writes item api = Some full ->
  Progress env w full (apply_changes env item api w).
Proof.
  unfold planned_writes. intros H.
  destruct (py_getitem api "rows") as [rows|] eqn:Er; [|discriminate].
  destruct (py_getitem api "total") as [total|] eqn:Et; [|discriminate].
  destruct (py_iter rows) as [seq_rows|] eqn:Ei; [|discriminate].
  destruct (all_params item seq_rows) as [params|] eqn:Ep; [|discriminate].
  injection H as <-.
  unfold apply_changes. rewrite Er, Et.
  unfold bind at 1. unfold get_db_connection.
  destruct (sync_fault env item) eqn:Ef; cbn [raise ret].
  2:{ apply (Stopped _ _ _ O); [cbn; lia | apply committed_nil]. }
  all: match goal with |- Progress _ _ (?d :: ?r) _ => change (d :: r) with ([d] ++ r) end.
  all: apply progress_bind; [apply progress_delete_details | intros].
  all: cbn [bind of_outcome].
  all: apply progress_bind; [eapply progress_insert_details; eassumption | intros].
  all: cbn [bind of_outcome].
  all: match goal with |- Progress _ _ [?s] _ => change [s] with ([s] ++ []) end.
  all: apply progress_bind; [apply progress_update_summary | intros; apply progress_ret].
Qed.

(** ** Writes of [sync_data] *)




(** *** The cookie file and the database block *)

Lemma keeps_cookie_bind {A B} (m : M A) (k : A -> M B) :
  keeps_cookie m -> (forall a, keeps_cookie (k a)) -> keeps_cookie (bind m k).
Proof.
  intros Hm Hk w. unfold bind. specialize (Hm w).
  destruct (m w) as [[a|e] w1]; cbn in *; [|assumption].
  now rewrite Hk.
Qed.

Lemma keeps_cookie_ret {A} (a : A) : keeps_cookie (ret a).
Proof. intros w. reflexivity. Qed.

Lemma keeps_cookie_raise {A} e : keeps_cookie (@raise A e).
Proof. intros w. reflexivity. Qed.

Lemma keeps_cookie_of_outcome {A} (o : Outcome A) : keeps_cookie (of_outcome o).
Proof. intros w. reflexivity. Qed.

Lemma keeps_cookie_logging l m : keeps_cookie (logging l m).
Proof. intros w. reflexivity. Qed.

Lemma keeps_cookie_execute env c s : keeps_cookie (cursor_execute env c s).
Proof.
  intros w. unfold cursor_execute.
  destruct (fault_hits c); [reflexivity|].
  destruct (exec_stmt env s (db w)); reflexivity.
Qed.

Lemma keeps_cookie_executemany env ss : forall c, keeps_cookie (cursor_executemany env c ss).
Proof.
  induction ss as [|s ss IH]; intros c; cbn [cursor_executemany].
  - apply keeps_cookie_ret.
  - apply keeps_cookie_bind; [apply keeps_cookie_execute | auto].
Qed.

Create HintDb cookie.

#[local] Hint Resolve keeps_cookie_ret keeps_cookie_raise keeps_cookie_of_outcome
  keeps_cookie_logging keeps_cookie_execute keeps_cookie_executemany : cookie.

Ltac cookie_steps :=
  repeat first
    [ solve [auto with cookie]
    | apply keeps_cookie_bind; [|intros] ].

Lemma keeps_cookie_apply_changes env item api :
  keeps_cookie (apply_changes env item api).
Proof.
  unfold apply_changes, get_db_connection, delete_details, insert_details, update_summary.
  cookie_steps.
  - destruct (sync_fault env item); auto with cookie.
  - match goal with |- keeps_cookie (match ?p with _ => _ end) => destruct p end;
      cookie_steps.
Qed.

(** C4: when the database block of [sync_data] raises a pymssql error,
    the call returns False and the cookie file is exactly what it was. *)
Theorem sync_data_db_error_keeps_cookie env item cookie_str api total w w' :
  remote_snapshot env item cookie_str = Some api ->
  py_getitem api "total" = Returned total ->
  py_eq_int total (nTotalComplete item) = false ->
  apply_changes env item api w = (Raised PymssqlError, w') ->
  fst (sync_data env item cookie_str w) = Returned false
  /\ cookie_file (snd (sync_data env item cookie_str w)) = cookie_file w.
Proof.
  intros Hs Ht He Ha.
  rewrite (sync_data_db_error _ _ _ _ _ _ _ Hs Ht He Ha). cbn.
  split; [reflexivity|].
  pose proof (keeps_cookie_apply_changes env item api w) as K.
  now rewrite Ha in K.
Qed.

Lemma sync_data_db_error_keeps_cookie_witness :
  fst (sync_data (scenario seven_reply ConnectFails) jan_task "PHPSESSID=abc" jan_world)
    = Returned false
  /\ cookie_file (snd (sync_data (scenario seven_reply ConnectFails) jan_task
                         "PHPSESSID=abc" jan_world))
     = utf8_encode "PHPSESSID=abc".
Proof.
  exact (sync_data_db_error_keeps_cookie (scenario seven_reply ConnectFails) jan_task
           "PHPSESSID=abc" _ (JInt 7) jan_world _ eq_refl eq_refl eq_refl eq_refl).
Defined.

(** *** The tables after the writes *)

Lemma all_params_inserts item rows : forall ps,
  all_params item rows = Returned ps ->
  forallb is_insert ps = true /\ List.length ps = List.length rows.
Proof.
  induction rows as [|row rows IH]; cbn [all_params]; intros ps H.
  - injection H as <-. auto.
  - unfold row_params in H.
    destruct (py_getitem row "fullname"); [|discriminate].
    destruct (py_getitem row "finish_time"); [|discriminate].
    destruct (all_params item rows) as [ps'|]; [|discriminate].
    injection H as <-. destruct (IH ps' eq_refl) as [A B].
    cbn. rewrite A, B. auto.
Qed.

Lemma replay_inserts env ps : forall d d',
  forallb is_insert ps = true ->
  replay env ps d = Some d' ->
  InsuExternalTrainingY d' = InsuExternalTrainingY d ++ inserted_rows env ps
  /\ InsuExternalTrainingX d' = InsuExternalTrainingX d
  /\ List.length (inserted_rows env ps) = List.length ps.
Proof.
  induction ps as [|s ps IH]; cbn [replay forallb]; intros d d' Hi H.
  - injection H as <-. cbn. now rewrite app_nil_r.
  - apply andb_prop in Hi as [Hs Hi].
    destruct s as [| ym license lookup fullname finish_time |]; try discriminate.
    unfold inserted_rows. cbn [exec_stmt flat_map detail_of] in *.
    destruct (sql_varchar env fullname), (sql_datetime env finish_time); try discriminate.
    destruct (IH _ _ Hi H) as (A & B & C).
    rewrite A, B. cbn. rewrite <- app_assoc. cbn.
    repeat split. unfold inserted_rows in C. now rewrite C.
Qed.

Lemma replay_snoc env ss s d d' :
  replay env (ss ++ [s]) d = Some d' ->
  exists d1, replay env ss d = Some d1 /\ exec_stmt env s d1 = Some d'.
Proof.
  revert d. induction ss as [|a ss IH]; cbn [replay app]; intros d H.
  - exists d. split; [reflexivity|]. destruct (exec_stmt env s d); [exact H | discriminate].
  - destruct (exec_stmt env a d); [now apply IH | discriminate].
Qed.

Lemma exec_stmt_getdate env s d d' :
  exec_stmt env s d = Some d' -> getdate d' = getdate d + 1.
Proof.
  destruct s; cbn [exec_stmt].
  - now intros [= <-].
  - destruct (sql_varchar env fullname), (sql_datetime env finish_time); try discriminate.
    now intros [= <-].
  - destruct (sql_int env total); [|discriminate]. now intros [= <-].
Qed.

(** The server's clock moves by one with every statement. *)
Lemma replay_getdate env ss : forall d d',
  replay env ss d = Some d' -> getdate d' = getdate d + Z.of_nat (List.length ss).
Proof.
  induction ss as [|s ss IH]; cbn [replay List.length]; intros d d' H.
  - injection H as <-. lia.
  - destruct (exec_stmt env s d) as [d1|] eqn:E; [|discriminate].
    rewrite (IH _ _ H), (exec_stmt_getdate _ _ _ _ E). lia.
Qed.

Lemma summary_updated_in t n now rows a :
  In a rows -> addresses t a = true -> In (refresh n now a) (summary_updated t n now rows).
Proof.
  intros Hin Ha. unfold summary_updated. apply in_map_iff.
  exists a. now rewrite Ha.
Qed.

(** The tables once the planned statements have all been executed: the
    detail table is what the DELETE left followed by the inserted rows, and
    the UPDATE, the last of them, has refreshed the summary rows it
    addresses. *)
Lemma planned_tables env item api total full d d' :
  py_getitem api "total" = Returned total ->
  planned_writes item api = Some full ->
  replay env full d = Some d' ->
  exists n,
    sql_int env total = Some n
    /\ InsuExternalTrainingX d'
       = summary_updated item n
           (getdate d + Z.of_nat (S (List.length (inserted_rows env full))))
           (InsuExternalTrainingX d)
    /\ InsuExternalTrainingY d'
       = outside_window item (InsuExternalTrainingY d) ++ inserted_rows env full
    /\ List.length full = S (S (List.length (inserted_rows env full))).
Proof.
  intros Ht Hp Rp. unfold planned_writes in Hp. rewrite Ht in Hp.
  destruct (py_getitem api "rows") as [rows|]; [|discriminate].
  destruct (py_iter rows) as [seq_rows|]; [|discriminate].
  destruct (all_params item seq_rows) as [params|] eqn:Ep; [|discriminate].
  injection Hp as <-.
  destruct (all_params_inserts _ _ _ Ep) as [Hins _].
  cbn [replay exec_stmt] in Rp.
  apply replay_snoc in Rp as (d1 & R1 & R2).
  destruct (replay_inserts env params _ _ Hins R1) as (A & B & C).
  pose proof (replay_getdate env params _ _ R1) as G.
  cbn [exec_stmt] in R2.
  destruct (sql_int env total) as [n|]; [|discriminate].
  injection R2 as R2. exists n. split; [reflexivity|].
  match goal with
  | |- context [inserted_rows env (?del :: params ++ [?upd])] =>
      assert (I : inserted_rows env (del :: params ++ [upd]) = inserted_rows env params)
  end.
  { unfold inserted_rows. cbn [flat_map detail_of]. rewrite flat_map_app.
    cbn [flat_map detail_of]. now rewrite !app_nil_r. }
  rewrite I. rewrite <- C in G.
  rewrite <- R2. cbn [InsuExternalTrainingY InsuExternalTrainingX with_tables].
  rewrite A, B, G. cbn [InsuExternalTrainingY InsuExternalTrainingX with_tables getdate].
  split; [|split; [reflexivity|]].
  - unfold summary_updated, addresses.
    replace (getdate d + Z.of_nat (S (List.length (inserted_rows env params))))
      with (getdate d + 1 + Z.of_nat (List.length (inserted_rows env params))) by lia.
    reflexivity.
  - cbn [List.length]. rewrite length_app, C. cbn [List.length]. lia.
Qed.

(** When the database block returns it has executed all it planned. *)
Lemma apply_changes_returned env item api w w' :
  apply_changes env item api w = (Returned tt, w') ->
  exists full, planned_writes item api = Some full /\ committed env w full w'.
Proof.
  intros H.
  destruct (planned_writes item api) as [full|] eqn:Ep.
  - exists full. split; [reflexivity|].
    pose proof (progress_apply_changes env item api full w Ep) as P.
    rewrite H in P. inversion P; subst. assumption.
  - exfalso. revert H. unfold planned_writes in Ep.
    unfold apply_changes, bind, of_outcome.
    destruct (get_db_connection _ w) as [[conn|e] w0]; [|discriminate].
    destruct (delete_details env _ item w0) as [[c1|e] w1]; [|discriminate].
    destruct (py_getitem api "rows") as [rows|e]; [|discriminate].
    unfold insert_details, bind, of_outcome.
    destruct (py_iter rows) as [seq_rows|e]; [|discriminate].
    destruct (all_params item seq_rows) as [ps|e]; [|discriminate].
    destruct (py_getitem api "total") as [total|e]; [discriminate Ep|].
    destruct ps as [|p ps].
    + cbn. discriminate.
    + destruct (cursor_executemany env c1 (p :: ps) w1) as [[c2|e'] w2]; cbn; discriminate.
Qed.

(** A call that returns True although the totals differ has run the
    database block to its end. *)
Lemma sync_data_true_applied env item cookie_str api total w :
  remote_snapshot env item cookie_str = Some api ->
  py_getitem api "total" = Returned total ->
  py_eq_int total (nTotalComplete item) = false ->
  fst (sync_data env item cookie_str w) = Returned true ->
  apply_changes env item api w = (Returned tt, snd (sync_data env item cookie_str w)).
Proof.
  intros Hs Ht He Hr.
  destruct (apply_changes env item api w) as [[[]|e] w'] eqn:Ea.
  - now rewrite (sync_data_applied _ _ _ _ _ _ _ Hs Ht He Ea).
  - exfalso. revert Hr. rewrite (sync_data_with_snapshot _ _ _ _ _ Hs).
    unfold try_except, after_shape_check, bind, of_outcome, ret. rewrite Ht, He, Ea.
    unfold sync_handlers, bind, logging, ret. destruct (is_RequestException e).
    + destruct (clear_cookies_spec env (add_log ERROR (ApiRequestFailed (salesregid item)) w'))
        as (w2 & -> & _). discriminate.
    + destruct (is_PymssqlError e); discriminate.
Qed.


Lemma refresh_matches license b e n now r :
  summary_matches license b e (refresh n now r) = summary_matches license b e r.
Proof. reflexivity. Qed.




(** ** Failures of the remote call *)

(** On such an answer [sync_data] returns False, executes no statement
    and calls [clear_cookies]: the cookie file is gone unless the removal
    itself is refused by the file system. *)
Lemma sync_data_refused_clears_cookie env item cookie_str w :
  refused (requests_post env (request_of item cookie_str)) ->
  fst (sync_data env item cookie_str w) = Returned false
  /\ same_store w (snd (sync_data env item cookie_str w))
  /\ (io_error env Remove = false ->
      cookie_file (snd (sync_data env item cookie_str w)) = None).
Proof.
  unfold refused, sync_data, try_except, bind, raise_for_status, response_json,
    of_outcome, raise, ret.
  destruct (requests_post env (request_of item cookie_str)) as [|r|e].
  3:{ intros He. cbn -[clear_cookies]. rewrite He.
      destruct (clear_cookies_spec env (add_log ERROR (ApiRequestFailed (salesregid item)) w))
        as (w' & -> & S & _ & C).
      cbn. repeat split; try apply S. exact C. }
  - intros _. cbn -[clear_cookies].
    destruct (clear_cookies_spec env (add_log ERROR (ApiRequestFailed (salesregid item)) w))
      as (w' & -> & S & _ & C).
    cbn. repeat split; try apply S. exact C.
  - intros [H | (items & Hb & Hm)].
    + rewrite H. cbn -[clear_cookies].
      destruct (clear_cookies_spec env (add_log ERROR (ApiRequestFailed (salesregid item)) w))
        as (w' & -> & S & _ & C).
      cbn. repeat split; try apply S. exact C.
    + destruct (http_error r).
      * cbn -[clear_cookies].
        destruct (clear_cookies_spec env (add_log ERROR (ApiRequestFailed (salesregid item)) w))
          as (w' & -> & S & _ & C).
        cbn. repeat split; try apply S. exact C.
      * rewrite Hb. cbn -[clear_cookies dict_get].
        assert (E : (if negb (match dict_get "total" items with Some _ => true | None => false end)
                     then true
                     else negb (match dict_get "rows" items with Some _ => true | None => false end))
                    = true).
        { destruct Hm as [-> | ->]; [reflexivity|].
          now destruct (dict_get "total" items). }
        destruct (dict_get "total" items) as [t|] eqn:Et; cbn -[clear_cookies dict_get] in *.
        -- rewrite E. cbn -[clear_cookies].
           destruct (clear_cookies_spec env (add_log ERROR BadApiResponse w))
             as (w' & -> & S & _ & C).
           cbn. repeat split; try apply S. exact C.
        -- destruct (clear_cookies_spec env (add_log ERROR BadApiResponse w))
             as (w' & -> & S & _ & C).
           cbn. repeat split; try apply S. exact C.
Qed.

(** C3 at a body that is JSON but not an object.  On [null] the
    membership test raises TypeError, on the list ["total", "rows"] the
    subscript does; both reach the catch-all handler, which returns False
    and leaves the cookie file in place.  The object without "rows", next
    to them, takes the path that removes it. *)
Theorem sync_data_scalar_body_keeps_cookie :
  let run reply := sync_data (scenario reply NoFault) jan_task "PHPSESSID=abc" jan_world in
  fst (run null_reply) = Returned false
  /\ cookie_file (snd (run null_reply)) = utf8_encode "PHPSESSID=abc"
  /\ fst (run list_reply) = Returned false
  /\ cookie_file (snd (run list_reply)) = utf8_encode "PHPSESSID=abc"
  /\ fst (run no_rows_reply) = Returned false
  /\ cookie_file (snd (run no_rows_reply)) = None.
Proof.
  cbv zeta. repeat split; vm_compute; reflexivity.
Qed.

(** ** Calling [sync_data] again *)

Lemma remote_snapshot_request env item item' cookie_str :
  request_of item' cookie_str = request_of item cookie_str ->
  remote_snapshot env item' cookie_str = remote_snapshot env item cookie_str.
Proof. intros H. unfold remote_snapshot. now rewrite H. Qed.

(** C6, as amended: for a task read from a summary row whose dates
    carry no time of day, with the remote snapshot unchanged and a server
    that stores the total the endpoint sent.  Once a first call has
    returned True, the row as it stands in the table differs from the one
    the task was read from in total and refresh date at most, its total
    equals the remote one, and a second call with the record read from it
    is a no-op: it returns True and leaves tables, executed statements and
    cookie file as the first call left them. *)
Theorem sync_data_again_is_noop env a reg cookie_str api total w :
  In a (InsuExternalTrainingX (db w)) ->
  addresses (task_of a reg) a = true ->
  remote_snapshot env (task_of a reg) cookie_str = Some api ->
  py_getitem api "total" = Returned total ->
  (forall n, sql_int env total = Some n -> py_eq_int total n = true) ->
  fst (sync_data env (task_of a reg) cookie_str w) = Returned true ->
  let w1 := snd (sync_data env (task_of a reg) cookie_str w) in
  exists a1,
    In a1 (InsuExternalTrainingX (db w1))
    /\ same_row a a1
    /\ py_eq_int total (x_nTotalComplete a1) = true
    /\ fst (sync_data env (task_of a1 reg) cookie_str w1) = Returned true
    /\ same_store w1 (snd (sync_data env (task_of a1 reg) cookie_str w1))
    /\ cookie_file (snd (sync_data env (task_of a1 reg) cookie_str w1)) = cookie_file w1.
Proof.
  intros Hin Ha Hs Ht Hsql Hr. cbv zeta.
  destruct (py_eq_int total (nTotalComplete (task_of a reg))) eqn:He.
  - rewrite (sync_data_unchanged _ _ _ _ _ _ Hs Ht He). cbn [snd].
    exists a. split; [exact Hin|]. split; [destruct a; reflexivity|].
    split; [exact He|].
    exact (sync_data_unchanged_untouched env (task_of a reg) cookie_str api total _ Hs Ht He).
  - pose proof (sync_data_true_applied env _ cookie_str api total w Hs Ht He Hr) as Ea.
    destruct (apply_changes_returned _ _ _ _ _ Ea) as (full & Hp & _ & Rp & _).
    destruct (planned_tables env _ api total full _ _ Ht Hp Rp) as (n & Hn & Hx & _).
    set (w1 := snd (sync_data env (task_of a reg) cookie_str w)) in *.
    set (now := getdate (db w) + Z.of_nat (S (List.length (inserted_rows env full)))) in *.
    exists (refresh n now a).
    split; [rewrite Hx; exact (summary_updated_in _ n now _ a Hin Ha)|].
    split; [reflexivity|].
    split; [exact (Hsql n Hn)|].
    assert (Hs1 : remote_snapshot env (task_of (refresh n now a) reg) cookie_str = Some api)
      by exact Hs.
    exact (sync_data_unchanged_untouched env (task_of (refresh n now a) reg) cookie_str
             api total w1 Hs1 Ht (Hsql n Hn)).
Qed.

Lemma sync_data_again_is_noop_witness :
  let env := scenario seven_reply NoFault in
  let w1 := snd (sync_data env jan_task "PHPSESSID=abc" jan_world) in
  exists a1,
    In a1 (InsuExternalTrainingX (db w1))
    /\ same_row jan_summary a1
    /\ py_eq_int (JInt 7) (x_nTotalComplete a1) = true
    /\ fst (sync_data env (task_of a1 "R-1") "PHPSESSID=abc" w1) = Returned true
    /\ same_store w1 (snd (sync_data env (task_of a1 "R-1") "PHPSESSID=abc" w1))
    /\ cookie_file (snd (sync_data env (task_of a1 "R-1") "PHPSESSID=abc" w1))
       = cookie_file w1.
Proof.
  eapply (sync_data_again_is_noop (scenario seven_reply NoFault) jan_summary "R-1"
            "PHPSESSID=abc" _ (JInt 7) jan_world).
  - left. reflexivity.
  - reflexivity.
  - reflexivity.
  - reflexivity.
  - intros n [= <-]. reflexivity.
  - reflexivity.
Defined.

(** After the first call applied the change, [fetch_tasks] reads the
    January task back with 7 completions known. *)
Example fetch_tasks_after_sync :
  let env := scenario seven_reply NoFault in
  let w1 := snd (sync_data env jan_task "PHPSESSID=abc" jan_world) in
  fst (fetch_tasks env w1) = Returned [reread 7 jan_task].
Proof. vm_compute. reflexivity. Qed.

(** C6 as stated fails in two ways.  Called twice with the same task
    record (5 known, 7 remote), the second call sends the four statements
    again; the summary row is refreshed a second time.  And for a summary
    row that carries a time of day the UPDATE of the first call finds no
    row: [fetch_tasks] reads the task back with 5 known, and the second
    call, made with the record read again, sends the four statements
    again. *)
Lemma second_call_writes_again :
  (let env := scenario seven_reply NoFault in
   let w1 := snd (sync_data env jan_task "PHPSESSID=abc" jan_world) in
   let w2 := snd (sync_data env jan_task "PHPSESSID=abc" w1) in
   fst (sync_data env jan_task "PHPSESSID=abc" w1) = Returned true
   /\ journal w1 = jan_writes
   /\ journal w2 = jan_writes ++ jan_writes
   /\ map x_dRefreshDate (InsuExternalTrainingX (db w1))
      <> map x_dRefreshDate (InsuExternalTrainingX (db w2))
   /\ ~ same_store w1 w2)
  /\ (let env := scenario seven_reply NoFault in
      let w1 := snd (sync_data env night_task "PHPSESSID=abc" night_world) in
      let w2 := snd (sync_data env night_task "PHPSESSID=abc" w1) in
      fst (fetch_tasks env night_world) = Returned [night_task]
      /\ fst (sync_data env night_task "PHPSESSID=abc" night_world) = Returned true
      /\ journal w1 = jan_writes
      /\ fst (fetch_tasks env w1) = Returned [night_task]
      /\ fst (sync_data env night_task "PHPSESSID=abc" w1) = Returned true
      /\ journal w2 = jan_writes ++ jan_writes
      /\ ~ same_store w1 w2).
Proof.
  cbv zeta. split.
  - repeat split; try (vm_compute; reflexivity).
    + vm_compute. discriminate.
    + intros [_ J]. vm_compute in J. discriminate.
  - repeat split; try (vm_compute; reflexivity).
    intros [_ J]. vm_compute in J. discriminate.
Qed.

(** ** Task source *)

(** [fetch_tasks] never raises. *)
Lemma fetch_tasks_returns env w : exists tasks, fst (fetch_tasks env w) = Returned tasks.
Proof.
  unfold fetch_tasks, try_except, bind, get_db_connection, cursor_select, fault_hits,
    conn_cursor.
  destruct (fetch_fault env) as [| |[|k]]; cbn; eauto.
Qed.

(** C8: on a storage error [fetch_tasks] logs it and returns the empty
    list; nothing is raised to the caller. *)
Theorem fetch_tasks_storage_error env w :
  storage_error (fetch_fault env) = true ->
  fetch_tasks env w = (Returned [], add_log ERROR FetchTasksFailed w).
Proof.
  unfold fetch_tasks, try_except, bind, get_db_connection, cursor_select, fault_hits,
    conn_cursor.
  destruct (fetch_fault env) as [| |[|k]]; cbn; intros H;
    try discriminate; reflexivity.
Qed.

Lemma fetch_tasks_storage_error_witness :
  fetch_tasks (scenario TransportFailure (StmtFails 0)) jan_world
  = (Returned [], add_log ERROR FetchTasksFailed jan_world).
Proof.
  apply fetch_tasks_storage_error. reflexivity.
Defined.

(** Without fault the SELECT finds the outstanding January task. *)
Example fetch_tasks_jan :
  fst (fetch_tasks (scenario TransportFailure NoFault) jan_world) = Returned [jan_task].
Proof. reflexivity. Qed.

(** ** Outcomes that do not depend on the world

    What a task returns is decided by the endpoint and the fault of its
    connection, never by the cookie file, the tables or the log. *)

Lemma steady_bind {A B} (m : M A) (k : A -> M B) :
  steady m -> (forall a, steady (k a)) -> steady (bind m k).
Proof.
  intros Hm Hk w w'. unfold bind. specialize (Hm w w').
  destruct (m w) as [[a|e] w1], (m w') as [[a'|e'] w1']; cbn in Hm; try discriminate.
  - injection Hm as <-. apply Hk.
  - injection Hm as <-. reflexivity.
Qed.

Lemma steady_try {A} (m : M A) (h : PyExc -> M A) :
  steady m -> (forall e, steady (h e)) -> steady (try_except m h).
Proof.
  intros Hm Hh w w'. unfold try_except. specialize (Hm w w').
  destruct (m w) as [[a|e] w1], (m w') as [[a'|e'] w1']; cbn in Hm; try discriminate.
  - exact Hm.
  - injection Hm as <-. apply Hh.
Qed.

Lemma steady_ret {A} (a : A) : steady (ret a).
Proof. intros w w'. reflexivity. Qed.

Lemma steady_raise {A} e : steady (@raise A e).
Proof. intros w w'. reflexivity. Qed.

Lemma steady_of_outcome {A} (o : Outcome A) : steady (of_outcome o).
Proof. intros w w'. reflexivity. Qed.

Lemma steady_logging l m : steady (logging l m).
Proof. intros w w'. reflexivity. Qed.

Lemma steady_clear_cookies env : steady (clear_cookies env).
Proof.
  intros w w'.
  destruct (clear_cookies_spec env w) as (w1 & -> & _).
  destruct (clear_cookies_spec env w') as (w2 & -> & _).
  reflexivity.
Qed.

Lemma exec_stmt_accepts env s d :
  match exec_stmt env s d with Some _ => true | None => false end = accepts env s.
Proof.
  destruct s; cbn; try reflexivity.
  - destruct (sql_varchar env fullname), (sql_datetime env finish_time); reflexivity.
  - destruct (sql_int env total); reflexivity.
Qed.

Lemma steady_execute env c s : steady (cursor_execute env c s).
Proof.
  intros w w'. unfold cursor_execute.
  destruct (fault_hits c); [reflexivity|].
  pose proof (exec_stmt_accepts env s (db w)) as H.
  pose proof (exec_stmt_accepts env s (db w')) as H'.
  destruct (exec_stmt env s (db w)), (exec_stmt env s (db w')); cbn; congruence.
Qed.

Lemma steady_executemany env ss : forall c, steady (cursor_executemany env c ss).
Proof.
  induction ss as [|s ss IH]; intros c; cbn [cursor_executemany].
  - apply steady_ret.
  - apply steady_bind; [apply steady_execute | auto].
Qed.

Create HintDb steady.

#[local] Hint Resolve steady_ret steady_raise steady_of_outcome steady_logging
  steady_clear_cookies steady_execute steady_executemany : steady.

Ltac steady_steps :=
  repeat first
    [ solve [auto with steady]
    | apply steady_bind; [|intros]
    | apply steady_try; [|intros]
    | match goal with
      | |- steady (match ?x with _ => _ end) => destruct x
      end ].

Lemma steady_apply_changes env item api : steady (apply_changes env item api).
Proof.
  unfold apply_changes, get_db_connection, delete_details, insert_details, update_summary.
  steady_steps.
Qed.

Lemma steady_sync_data env item cookie_str : steady (sync_data env item cookie_str).
Proof.
  unfold sync_data, raise_for_status, response_json.
  pose proof (steady_apply_changes env item) as H.
  steady_steps.
Qed.

Lemma steady_process_single_task_with sync item cookie_str :
  steady (sync item cookie_str) ->
  steady (process_single_task_with sync item cookie_str).
Proof.
  intros H. unfold process_single_task_with. steady_steps.
Qed.

Lemma steady_process_single_task env item cookie_str :
  steady (process_single_task env item cookie_str).
Proof.
  apply steady_process_single_task_with, steady_sync_data.
Qed.

(** The handler of [process_single_task] catches everything: the worker
    returns a boolean whatever the body does. *)
Lemma catch_all_returns (m : M bool) (h : M bool) w :
  (forall w1, exists b, fst (h w1) = Returned b) ->
  exists b, fst (try_except m (fun _ => h) w) = Returned b.
Proof.
  intros Hh. unfold try_except.
  destruct (m w) as [[b|e] w1]; cbn; eauto.
Qed.

Lemma process_single_task_with_returns sync item cookie_str w :
  exists b, fst (process_single_task_with sync item cookie_str w) = Returned b.
Proof.
  unfold process_single_task_with. apply catch_all_returns.
  intros w1. exists false. reflexivity.
Qed.

(** ** The pool *)

Section Pool.

Variable f : Task -> M bool.
Variable verdict : Task -> bool.
Hypothesis f_verdict : forall t w, fst (f t w) = Returned (verdict t).

Variable tasks : list Task.

Lemma in_without {A} (l : list A) k a x :
  nth_error l k = Some a -> In x l ->
  x = a \/ In x (firstn k l ++ skipn (S k) l).
Proof.
  intros Hn Hin.
  destruct (nth_error_split l k Hn) as (l1 & l2 & -> & <-).
  rewrite firstn_app, firstn_all, Nat.sub_diag, app_nil_r.
  replace (S (List.length l1)) with (List.length l1 + 1)%nat by lia.
  rewrite skipn_app, skipn_all2 by lia.
  replace (List.length l1 + 1 - List.length l1)%nat with 1%nat by lia.
  cbn. apply in_app_or in Hin as [H | [H | H]]; auto using in_or_app.
Qed.

Lemma without_in {A} (l : list A) k x :
  In x (firstn k l ++ skipn (S k) l) -> In x l.
Proof.
  intros H. apply in_app_or in H as [H | H].
  - rewrite <- (firstn_skipn k l). apply in_or_app. auto.
  - rewrite <- (firstn_skipn (S k) l). apply in_or_app. auto.
Qed.

Lemma without_length {A} (l : list A) k a :
  nth_error l k = Some a ->
  S (List.length (firstn k l ++ skipn (S k) l)) = List.length l.
Proof.
  intros Hn.
  assert (k < List.length l)%nat by (apply nth_error_Some; congruence).
  rewrite length_app, length_firstn, length_skipn. lia.
Qed.

Lemma pick_in_range schedule (pending : list (nat * Task)) :
  pending <> [] ->
  (Nat.modulo (hd O schedule) (in_flight pending) < List.length pending)%nat.
Proof.
  intros H. unfold in_flight, MAX_WORKERS.
  assert (0 < List.length pending)%nat by (destruct pending; cbn; [congruence | lia]).
  pose proof (Nat.mod_upper_bound (hd O schedule) (Nat.min 5 (List.length pending))).
  lia.
Qed.

Lemma run_pool_inv fuel : forall schedule pending done w,
  (List.length pending <= fuel)%nat ->
  pool_inv verdict tasks pending done ->
  pool_inv verdict tasks [] (fst (run_pool f schedule fuel pending done w)).
Proof.
  induction fuel as [|fuel IH]; intros schedule pending done w Hlen Hinv.
  - destruct pending; [exact Hinv | cbn in Hlen; lia].
  - cbn [run_pool].
    destruct pending as [|p pending'] eqn:Ep.
    { unfold in_flight. cbn. destruct (hd O schedule); exact Hinv. }
    rewrite <- Ep in *.
    assert (Hne : pending <> []) by (rewrite Ep; discriminate).
    pose proof (pick_in_range schedule pending Hne) as Hk.
    set (k := Nat.modulo (hd O schedule) (in_flight pending)) in *.
    destruct (nth_error pending k) as [[i t]|] eqn:En.
    2:{ apply nth_error_None in En. lia. }
    pose proof (f_verdict t w) as Hv.
    destruct (f t w) as [o w1]. cbn in Hv. subst o.
    apply IH.
    + pose proof (without_length pending k _ En). lia.
    + destruct Hinv as [Ha Hb]. split.
      * intros j u Hin. apply Ha. eapply without_in. exact Hin.
      * intros j u Hj. cbn [future].
        destruct (Nat.eqb i j) eqn:Eij.
        -- apply Nat.eqb_eq in Eij. subst j.
           right. pose proof (Ha _ _ (nth_error_In _ _ En)). congruence.
        -- destruct (Hb j u Hj) as [Hin | Hf]; [|auto].
           destruct (in_without pending k (i, t) (j, u) En Hin) as [E | Hin']; [|auto].
           injection E as -> ->. rewrite Nat.eqb_refl in Eij. discriminate.
Qed.

Lemma combine_seq_in (l : list Task) : forall s i t,
  In (i, t) (combine (seq s (List.length l)) l)
  <-> (s <= i)%nat /\ nth_error l (i - s) = Some t.
Proof.
  induction l as [|a l IH]; intros s i t; cbn [List.length seq combine].
  - split; [intros [] | intros [_ H]]. destruct (i - s)%nat; discriminate.
  - cbn [In]. rewrite IH. split.
    + intros [E | [Hle Hn]].
      * injection E as <- <-. rewrite Nat.sub_diag. auto.
      * split; [lia|]. replace (i - s)%nat with (S (i - S s)) by lia. exact Hn.
    + intros [Hle Hn]. destruct (i - s)%nat as [|d] eqn:Ed.
      * left. cbn in Hn. injection Hn as <-. f_equal. lia.
      * right. split; [lia|]. replace (i - S s)%nat with d by lia. exact Hn.
Qed.

Lemma pool_inv_start :
  pool_inv verdict tasks (combine (seq O (List.length tasks)) tasks) [].
Proof.
  split; intros i t H.
  - apply combine_seq_in in H as [_ H]. now rewrite Nat.sub_0_r in H.
  - left. apply combine_seq_in. rewrite Nat.sub_0_r. auto with arith.
Qed.

Lemma gather_all done (l : list Task) : forall s,
  (forall j t, nth_error l j = Some t ->
               future (s + j) done = Some (Returned (verdict t))) ->
  gather done (seq s (List.length l)) = Returned (map verdict l).
Proof.
  induction l as [|a l IH]; intros s H; cbn [List.length seq gather map].
  - reflexivity.
  - pose proof (H O a eq_refl) as H0. rewrite Nat.add_0_r in H0. rewrite H0.
    rewrite IH; [reflexivity|].
    intros j t Hj. replace (S s + j)%nat with (s + S j)%nat by lia.
    apply H. exact Hj.
Qed.

(** The pool runs every task and hands back the verdicts in the order of
    submission, whatever the schedule. *)
Lemma executor_map_verdicts schedule w :
  fst (executor_map f schedule tasks w) = Returned (map verdict tasks).
Proof.
  unfold executor_map.
  pose proof (run_pool_inv (List.length tasks) schedule
                (combine (seq O (List.length tasks)) tasks) [] w) as H.
  destruct (run_pool f schedule (List.length tasks)
              (combine (seq O (List.length tasks)) tasks) [] w) as [done w'].
  cbn [fst] in *.
  destruct H as [_ Hb].
  - rewrite length_combine, length_seq. lia.
  - apply pool_inv_start.
  - apply gather_all. intros j t Hj.
    destruct (Hb j t Hj) as [[] | Hf]. exact Hf.
Qed.

End Pool.

Lemma sum_map_verdict (verdict : Task -> bool) (tasks : list Task) :
  sum (map verdict tasks)
  = (List.length tasks - List.length (filter (fun t => negb (verdict t)) tasks))%nat.
Proof.
  unfold sum.
  assert (H : (List.length (filter (fun b : bool => b) (map verdict tasks))
               + List.length (filter (fun t => negb (verdict t)) tasks)
               = List.length tasks)%nat).
  { induction tasks as [|t tasks IH]; cbn; [reflexivity|].
    destruct (verdict t); cbn; lia. }
  lia.
Qed.

Lemma worker_verdict sync cookie_str w0 t w :
  (forall item, steady (sync item cookie_str)) ->
  fst (process_single_task_with sync t cookie_str w)
  = Returned (returns_true (fun task => process_single_task_with sync task cookie_str) w0 t).
Proof.
  intros Hs. unfold returns_true.
  rewrite (steady_process_single_task_with sync t cookie_str (Hs t) w w0).
  destruct (process_single_task_with_returns sync t cookie_str w0) as (b & ->).
  now destruct b.
Qed.

(** The pool over the worker body, for any synchronisation function
    whose outcome does not depend on the world, raising or not. *)
Lemma pool_tally sync schedule tasks cookie_str w w0 :
  (forall item, steady (sync item cookie_str)) ->
  let worker := fun task => process_single_task_with sync task cookie_str in
  let alone := returns_true worker w0 in
  fst (executor_map worker schedule tasks w) = Returned (map alone tasks)
  /\ sum (map alone tasks)
     = (List.length tasks - List.length (filter (fun t => negb (alone t)) tasks))%nat.
Proof.
  intros Hs. cbv zeta. split.
  - apply executor_map_verdicts. intros t w1. now apply worker_verdict.
  - apply sum_map_verdict.
Qed.




(** Three tasks against a server that refuses every connection: only the
    task whose total is unchanged needs no connection and succeeds.  The
    scheduler lets the last task finish first. *)
Example dispatcher_one_of_three :
  let env := scenario seven_reply ConnectFails in
  fst (run_tasks env [2; 0; 0]%nat [feb_task; jan_task; mar_task] "PHPSESSID=abc" jan_world)
  = Returned (1%nat, 3%nat).
Proof. vm_compute. reflexivity. Qed.

(** ** Login *)

Lemma attempts_logged_add l m w :
  attempts_logged (add_log l m w)
  = (attempts_logged w + (if is_attempt (l, m) then 1 else 0))%nat.
Proof.
  unfold attempts_logged, add_log. cbn [log].
  rewrite filter_app, length_app. cbn [filter].
  destruct (is_attempt (l, m)); reflexivity.
Qed.

Lemma attempts_logged_set_cookie f w :
  attempts_logged (set_cookie_file f w) = attempts_logged w.
Proof. reflexivity. Qed.

Ltac count_attempts :=
  repeat (rewrite attempts_logged_add || rewrite attempts_logged_set_cookie);
  cbn [is_attempt snd]; lia.

Lemma login_url_has_mpage : contains "mpage" LOGIN_URL = true.
Proof. reflexivity. Qed.

Lemma login_loop_step env max_attempts remaining attempt w :
  login_loop env max_attempts (S remaining) attempt w
  = match _attempt_login env (new_page env attempt) (classification env)
            (TII_USERNAME env) (TII_PASSWORD env)
            (add_log INFO (LoginAttempt (attempt + 1) max_attempts) w) with
    | (Returned true, w1) => (Returned true, w1)
    | (Returned false, w1) => login_loop env max_attempts remaining (S attempt) w1
    | (Raised e, w1) => (Raised e, w1)
    end.
Proof.
  cbn [login_loop]. unfold bind, logging.
  destruct (_attempt_login _ _ _ _ _ _) as [[[|]|e] w1]; reflexivity.
Qed.

(** With a recognizer and a browser that start and stop without error,
    the login is its loop, the handler around it and the closing log
    line. *)
Lemma login_from_loop env max_attempts w :
  browser_runs env ->
  login_and_save_cookie env max_attempts w
  = match login_loop env max_attempts (Z.to_nat max_attempts) O w with
    | (Returned true, w1) => (Returned true, w1)
    | (Returned false, w1) => (Returned false, add_log ERROR AllLoginAttemptsFailed w1)
    | (Raised e, w1) =>
        (Returned false,
         add_log ERROR AllLoginAttemptsFailed (add_log ERROR LoginUnknownError w1))
    end.
Proof.
  intros H.
  unfold login_and_save_cookie, login_attempts, setup, try_finally, bind, try_except,
    logging, ret.
  rewrite !H.
  destruct (login_loop _ _ _ _ _) as [[[|]|e] w1]; reflexivity.
Qed.

Section Login.

Variable env : Env.
Variable P : Portal.
Variables u p : str.

Hypothesis runs : browser_runs env.
Hypothesis pages : forall n, new_page env n = portal_page P n.
Hypothesis landing : contains "mpage" (landing_url P) = false.
Hypothesis user : TII_USERNAME env = Some u.
Hypothesis pass : TII_PASSWORD env = Some p.

(** An attempt with the right credentials and the right captcha text. *)
Lemma attempt_accepted n w :
  u = valid_username P -> p = valid_password P ->
  classification env (captcha_image P n) = captcha_answer P n ->
  encodable (serialized P) = true ->
  exists w',
    _attempt_login env (new_page env n) (classification env)
      (TII_USERNAME env) (TII_PASSWORD env) w = (Returned true, w')
    /\ attempts_logged w' = attempts_logged w
    /\ (io_error env OpenWrite = false ->
        cookie_file w' = utf8_encode (text_write (os_platform env) (serialized P))).
Proof.
  intros -> -> Hc He.
  unfold _attempt_login, try_except. rewrite pages, user, pass.
  cbn [portal_page goto_error captcha_img after_click page_fill bind ret].
  rewrite Hc, !str_eqb_refl.
  cbn [andb wait_error page_url context_cookies]. rewrite landing.
  cbn [negb]. fold (serialized P).
  do 2 (unfold bind at 1; unfold logging at 1).
  destruct (io_error env OpenWrite) eqn:Ew.
  - rewrite (bind_returned _ _ _ _ _ (save_cookie_refused env _ _ Ew)).
    eexists. split; [reflexivity|]. split; [|discriminate].
    count_attempts.
  - destruct (proj1 (utf8_encode_encodable _)
                (encodable_text_write (os_platform env) _ He)) as (raw & Er).
    rewrite (bind_returned _ _ _ _ _ (save_cookie_written env _ raw _ Ew Er)).
    eexists. split; [reflexivity|]. split; [|intros _; now rewrite Er].
    count_attempts.
Qed.

(** An attempt with a wrong captcha text. *)
Lemma attempt_rejected n w :
  classification env (captcha_image P n) <> captcha_answer P n ->
  exists w',
    _attempt_login env (new_page env n) (classification env)
      (TII_USERNAME env) (TII_PASSWORD env) w = (Returned false, w')
    /\ attempts_logged w' = attempts_logged w
    /\ cookie_file w' = cookie_file w.
Proof.
  intros Hc. apply str_eqb_neq in Hc.
  unfold _attempt_login, try_except. rewrite pages, user, pass.
  cbn [portal_page goto_error captcha_img after_click page_fill bind ret].
  rewrite Hc, andb_false_r.
  cbn [wait_error page_url error_alert]. unfold bind, logging, raise.
  destruct (reject_times_out P n); cbn.
  - eexists. split; [reflexivity|].
    split; [|reflexivity]. count_attempts.
  - unfold LOGIN_URL, BASE_URL. cbn.
    destruct (reject_alert P n); cbn; eexists; (split; [reflexivity|]);
      (split; [|reflexivity]); count_attempts.
Qed.

Lemma login_loop_rejected max_attempts :
  (forall n, classification env (captcha_image P n) <> captcha_answer P n) ->
  forall remaining attempt w,
  exists w',
    login_loop env max_attempts remaining attempt w = (Returned false, w')
    /\ attempts_logged w' = (attempts_logged w + remaining)%nat
    /\ cookie_file w' = cookie_file w.
Proof.
  intros Hc. induction remaining as [|r IH]; intros attempt w.
  - exists w. repeat split. cbn. lia.
  - rewrite login_loop_step.
    destruct (attempt_rejected attempt
                (add_log INFO (LoginAttempt (attempt + 1) max_attempts) w) (Hc attempt))
      as (w1 & -> & Ha & Hf).
    destruct (IH (S attempt) w1) as (w2 & -> & Ha2 & Hf2).
    exists w2. repeat split.
    + rewrite Ha2, Ha. count_attempts.
    + rewrite Hf2, Hf. reflexivity.
Qed.

Lemma login_accepted max_attempts w :
  u = valid_username P -> p = valid_password P ->
  classification env (captcha_image P O) = captcha_answer P O ->
  0 < max_attempts ->
  encodable (serialized P) = true ->
  exists w',
    login_and_save_cookie env max_attempts w = (Returned true, w')
    /\ attempts_logged w' = (attempts_logged w + 1)%nat
    /\ (io_error env OpenWrite = false ->
        cookie_file w' = utf8_encode (text_write (os_platform env) (serialized P))).
Proof.
  intros Eu Ep Hc Hmax He.
  rewrite (login_from_loop env max_attempts w runs).
  destruct (Z.to_nat max_attempts) as [|rounds] eqn:En; [lia|].
  rewrite login_loop_step.
  destruct (attempt_accepted O
              (add_log INFO (LoginAttempt (0 + 1) max_attempts) w) Eu Ep Hc He)
    as (w1 & -> & Ha & Hf).
  exists w1. split; [reflexivity|]. split; [|exact Hf].
  rewrite Ha. count_attempts.
Qed.

Lemma login_rejected max_attempts w :
  (forall n, classification env (captcha_image P n) <> captcha_answer P n) ->
  exists w',
    login_and_save_cookie env max_attempts w = (Returned false, w')
    /\ attempts_logged w' = (attempts_logged w + Z.to_nat max_attempts)%nat
    /\ cookie_file w' = cookie_file w.
Proof.
  intros Hc.
  rewrite (login_from_loop env max_attempts w runs).
  destruct (login_loop_rejected max_attempts Hc (Z.to_nat max_attempts) O w)
    as (w1 & -> & Ha & Hf).
  eexists. split; [reflexivity|]. split.
  - rewrite <- Ha. count_attempts.
  - exact Hf.
Qed.

End Login.

(** C7: against a portal that lets the right credentials and the right
    captcha text in, with both credentials configured, a recognizer that
    can be created and a browser that starts, closes and stops without
    error.  If the credentials are the valid ones, the recognizer reads
    every captcha right and the session cookies hold no surrogate, a login
    with at least one attempt allowed returns True after exactly one
    attempt, and the cookie file holds the cookies joined as name=value
    pairs, encoded as UTF-8 (when the disk takes the write).  If the
    recognizer reads every captcha wrong, the login makes one attempt per
    round of [range(max_attempts)], returns False and leaves the cookie
    file as it was. *)
Theorem login_by_recognizer env P u p max_attempts w :
  browser_runs env ->
  (forall n, new_page env n = portal_page P n) ->
  contains "mpage" (landing_url P) = false ->
  TII_USERNAME env = Some u ->
  TII_PASSWORD env = Some p ->
  let r := login_and_save_cookie env max_attempts w in
  (u = valid_username P -> p = valid_password P ->
   (forall n, classification env (captcha_image P n) = captcha_answer P n) ->
   0 < max_attempts ->
   encodable (serialized P) = true ->
   fst r = Returned true
   /\ attempts_logged (snd r) = (attempts_logged w + 1)%nat
   /\ (io_error env OpenWrite = false ->
       cookie_file (snd r) = utf8_encode (text_write (os_platform env) (serialized P))))
  /\ ((forall n, classification env (captcha_image P n) <> captcha_answer P n) ->
      fst r = Returned false
      /\ attempts_logged (snd r) = (attempts_logged w + Z.to_nat max_attempts)%nat
      /\ cookie_file (snd r) = cookie_file w).
Proof.
  intros Hruns Hpages Hland Hu Hp. cbv zeta. split.
  - intros Eu Ep Hc Hmax He.
    destruct (login_accepted env P u p Hruns Hpages Hland Hu Hp max_attempts w
                Eu Ep (Hc O) Hmax He)
      as (w' & -> & Ha & Hf).
    cbn [fst snd]. auto.
  - intros Hc.
    destruct (login_rejected env P u p Hruns Hpages Hu Hp max_attempts w Hc)
      as (w' & -> & Ha & Hf).
    cbn [fst snd]. auto.
Qed.

Lemma good_reader_right n :
  classification (browser_env good_reader) (captcha_image demo_portal n)
  = captcha_answer demo_portal n.
Proof. cbn. destruct (Nat.even n); reflexivity. Qed.

Lemma bad_reader_wrong n :
  classification (browser_env bad_reader) (captcha_image demo_portal n)
  <> captcha_answer demo_portal n.
Proof. cbn. destruct (Nat.even n); discriminate. Qed.

Lemma login_by_recognizer_witness :
  (fst (login_and_save_cookie (browser_env good_reader) 10 fresh_world) = Returned true
   /\ attempts_logged (snd (login_and_save_cookie (browser_env good_reader) 10 fresh_world))
      = 1%nat
   /\ cookie_file (snd (login_and_save_cookie (browser_env good_reader) 10 fresh_world))
      = utf8_encode "PHPSESSID=abc; lang=zh")
  /\ (fst (login_and_save_cookie (browser_env bad_reader) 10 fresh_world) = Returned false
      /\ attempts_logged (snd (login_and_save_cookie (browser_env bad_reader) 10 fresh_world))
         = 10%nat
      /\ cookie_file (snd (login_and_save_cookie (browser_env bad_reader) 10 fresh_world))
         = None).
Proof.
  split.
  - destruct (proj1 (login_by_recognizer (browser_env good_reader) demo_portal
                       "agent" "secret" 10 fresh_world
                       (fun op => eq_refl) (fun n => eq_refl) eq_refl eq_refl eq_refl)
                eq_refl eq_refl good_reader_right eq_refl eq_refl) as (A & B & C).
    split; [exact A | split; [exact B | exact (C eq_refl)]].
  - exact (proj2 (login_by_recognizer (browser_env bad_reader) demo_portal
                    "agent" "secret" 10 fresh_world
                    (fun op => eq_refl) (fun n => eq_refl) eq_refl eq_refl eq_refl)
             bad_reader_wrong).
Defined.

(** * Further properties *)

(** ** Computations that return *)

Lemma never_raises_ret {A} (a : A) : never_raises (ret a).
Proof. intros w. exists a. reflexivity. Qed.

Lemma never_raises_logging l m : never_raises (logging l m).
Proof. intros w. exists tt. reflexivity. Qed.

Lemma never_raises_bind {A B} (m : M A) (k : A -> M B) :
  never_raises m -> (forall a, never_raises (k a)) -> never_raises (bind m k).
Proof.
  intros Hm Hk w. unfold bind.
  destruct (Hm w) as (a & Ha).
  destruct (m w) as [o w1]. cbn in Ha. subst o. apply Hk.
Qed.

(** A [try] whose handlers all return, returns. *)
Lemma never_raises_try {A} (m : M A) (h : PyExc -> M A) :
  (forall e, never_raises (h e)) -> never_raises (try_except m h).
Proof.
  intros Hh w. unfold try_except.
  destruct (m w) as [[a|e] w1]; [exists a; reflexivity | apply Hh].
Qed.

Lemma never_raises_clear_cookies env : never_raises (clear_cookies env).
Proof.
  intros w. destruct (clear_cookies_spec env w) as (w' & -> & _).
  exists tt. reflexivity.
Qed.

Lemma never_raises_sync_data env item cookie_str :
  never_raises (sync_data env item cookie_str).
Proof.
  unfold sync_data. apply never_raises_try. intros e.
  destruct (is_RequestException e); [|destruct (is_PymssqlError e)];
    repeat first [ apply never_raises_ret | apply never_raises_logging
                 | apply never_raises_clear_cookies
                 | apply never_raises_bind; [|intros] ].
Qed.

(** X1: [sync_data] catches whatever goes wrong: from every world, for
    every answer of the endpoint and every fault of the connection, it
    returns True or False. *)
Theorem sync_data_always_returns env item cookie_str w :
  exists b, fst (sync_data env item cookie_str w) = Returned b.
Proof. apply never_raises_sync_data. Qed.

Lemma worker_is_sync_data env item cookie_str w :
  process_single_task env item cookie_str w = sync_data env item cookie_str w.
Proof.
  unfold process_single_task, process_single_task_with, try_except, bind, ret.
  destruct (never_raises_sync_data env item cookie_str w) as (b & Hb).
  destruct (sync_data env item cookie_str w) as [o w']. cbn in Hb. now subst o.
Qed.

(** X2: as [sync_data] never raises, the wrapper [process_single_task]
    adds nothing to it: same result, same world; its own handler is never
    entered. *)
Theorem process_single_task_is_sync_data env item cookie_str w :
  process_single_task env item cookie_str w = sync_data env item cookie_str w.
Proof. exact (worker_is_sync_data env item cookie_str w). Qed.

(** ** Relations every step respects *)

Section Respects.

Variable env : Env.
Variable R : World -> World -> Prop.
Hypothesis R_refl : forall w, R w w.
Hypothesis R_trans : forall w1 w2 w3, R w1 w2 -> R w2 w3 -> R w1 w3.
Hypothesis R_log : forall l m w, R w (add_log l m w).

Lemma respects_ret {A} (a : A) : respects R (ret a).
Proof. intros w. apply R_refl. Qed.

Lemma respects_raise {A} e : respects R (@raise A e).
Proof. intros w. apply R_refl. Qed.

Lemma respects_of_outcome {A} (o : Outcome A) : respects R (of_outcome o).
Proof. intros w. apply R_refl. Qed.

Lemma respects_logging l m : respects R (logging l m).
Proof. intros w. apply R_log. Qed.

Lemma respects_bind {A B} (m : M A) (k : A -> M B) :
  respects R m -> (forall a, respects R (k a)) -> respects R (bind m k).
Proof.
  intros Hm Hk w. unfold bind. specialize (Hm w).
  destruct (m w) as [[a|e] w1]; cbn in *; [|assumption].
  eapply R_trans; [exact Hm | apply Hk].
Qed.

Lemma respects_bind_outcome {A B} (o : Outcome A) (k : A -> M B) :
  (forall a, o = Returned a -> respects R (k a)) -> respects R (bind (of_outcome o) k).
Proof.
  intros Hk w. unfold bind, of_outcome.
  destruct o as [a|e]; [now apply Hk | apply R_refl].
Qed.

Lemma respects_try {A} (m : M A) (h : PyExc -> M A) :
  respects R m -> (forall e, respects R (h e)) -> respects R (try_except m h).
Proof.
  intros Hm Hh w. unfold try_except. specialize (Hm w).
  destruct (m w) as [[a|e] w1]; cbn in *; [assumption|].
  eapply R_trans; [exact Hm | apply Hh].
Qed.

Hypothesis R_remove : forall w, R w (set_cookie_file None w).

Lemma respects_clear_cookies : respects R (clear_cookies env).
Proof.
  intros w. unfold clear_cookies, bind, os_path_exists, try_except, os_remove, logging.
  destruct (cookie_file w) eqn:E; cbn; [|apply R_refl].
  destruct (io_error env Remove); rewrite ?E; cbn.
  - apply R_log.
  - eapply R_trans; [apply R_remove | apply R_log].
Qed.

Hypothesis R_write : forall text raw w,
  utf8_encode text = Some raw -> R w (set_cookie_file (Some raw) w).

Lemma respects_save_cookie cookie_str : respects R (save_cookie env cookie_str).
Proof.
  intros w. unfold save_cookie, try_except, bind, open_write, logging.
  destruct (io_error env OpenWrite); cbn.
  - apply R_log.
  - destruct (utf8_encode (text_write (os_platform env) cookie_str)) as [raw|] eqn:E; cbn.
    + eapply R_trans; [exact (R_write _ _ _ E) | apply R_log].
    + exact (R_write EmptyStr [] w eq_refl).
Qed.

Lemma respects_get_cookie : respects R (get_cookie env).
Proof.
  intros w. unfold get_cookie, bind, os_path_exists, try_except, open_read, logging, ret.
  destruct (cookie_file w) as [raw|] eqn:E; cbn; [|apply R_refl].
  destruct (io_error env OpenRead); rewrite ?E; cbn; [apply R_log|].
  destruct (utf8_decode raw); apply R_refl.
Qed.

Lemma respects_setup op : respects R (setup env op).
Proof. intros w. unfold setup. destruct (setup_error env op); apply R_refl. Qed.

Lemma respects_try_finally {A} (m : M A) (f : M unit) :
  respects R m -> respects R f -> respects R (try_finally m f).
Proof.
  intros Hm Hf w. unfold try_finally. specialize (Hm w).
  destruct (m w) as [o w1]. specialize (Hf w1).
  destruct (f w1) as [[[]|e] w2]; cbn in *; eapply R_trans; eassumption.
Qed.

Ltac walk :=
  repeat first
    [ apply respects_ret | apply respects_raise | apply respects_of_outcome
    | apply respects_logging | apply respects_clear_cookies | apply respects_save_cookie
    | apply respects_bind; [|intros]
    | apply respects_try; [|intros]
    | match goal with
      | |- respects _ (match ?x with _ => _ end) => destruct x
      end ].

Lemma respects_attempt_login page ocr username password :
  respects R (_attempt_login env page ocr username password).
Proof. unfold _attempt_login, page_fill. walk. Qed.

Lemma respects_login_loop max_attempts remaining :
  forall attempt, respects R (login_loop env max_attempts remaining attempt).
Proof.
  induction remaining as [|r IH]; intros attempt; cbn [login_loop].
  - apply respects_ret.
  - apply respects_bind; [apply respects_logging | intros _].
    apply respects_bind; [apply respects_attempt_login | intros ok].
    destruct ok; [apply respects_ret | apply IH].
Qed.

Lemma respects_login max_attempts :
  respects R (login_and_save_cookie env max_attempts).
Proof.
  unfold login_and_save_cookie, login_attempts.
  apply respects_bind; [apply respects_setup | intros _].
  apply respects_bind; [apply respects_setup | intros _].
  apply respects_bind.
  - apply respects_try_finally; [|apply respects_setup].
    apply respects_bind; [apply respects_setup | intros _].
    apply respects_try_finally; [|apply respects_setup].
    apply respects_try; [apply respects_login_loop | intros; walk].
  - intros returned. walk.
Qed.

Lemma respects_fetch_tasks : respects R (fetch_tasks env).
Proof.
  unfold fetch_tasks, get_db_connection.
  apply respects_try; [|intros; walk].
  apply respects_bind; [walk | intros conn].
  intros w. unfold cursor_select. destruct (fault_hits _); apply R_refl.
Qed.

Variable item : Task.
Hypothesis R_commit : forall s d w,
  stmt_for item s = true -> exec_stmt env s (db w) = Some d -> R w (commit s d w).

Lemma respects_execute c s :
  stmt_for item s = true -> respects R (cursor_execute env c s).
Proof.
  intros Hs w. unfold cursor_execute.
  destruct (fault_hits c); [apply R_refl|].
  destruct (exec_stmt env s (db w)) eqn:E; [now apply R_commit | apply R_refl].
Qed.

Lemma respects_executemany ss :
  forallb (stmt_for item) ss = true ->
  forall c, respects R (cursor_executemany env c ss).
Proof.
  induction ss as [|s ss IH]; cbn [forallb cursor_executemany]; intros Hs c.
  - apply respects_ret.
  - apply andb_prop in Hs as [H1 H2].
    apply respects_bind; [now apply respects_execute | intros; now apply IH].
Qed.

Lemma all_params_for rows : forall ps,
  all_params item rows = Returned ps -> forallb (stmt_for item) ps = true.
Proof.
  induction rows as [|row rows IH]; cbn [all_params]; intros ps H.
  - now injection H as <-.
  - unfold row_params in H.
    destruct (py_getitem row "fullname"); [|discriminate].
    destruct (py_getitem row "finish_time"); [|discriminate].
    destruct (all_params item rows) as [ps'|]; [|discriminate].
    injection H as <-. cbn [forallb stmt_for].
    now rewrite !str_eqb_refl, IH.
Qed.

Lemma stmt_for_delete :
  stmt_for item (DeleteDetails (salesregid item) (dTrainBeginDate item) (dTrainEndDate item))
  = true.
Proof. cbn. now rewrite str_eqb_refl, !Z.eqb_refl. Qed.

Lemma stmt_for_update total :
  stmt_for item (UpdateSummary total (salesregid item) (dTrainBeginDate item)
                   (dTrainEndDate item)) = true.
Proof. cbn. now rewrite str_eqb_refl, !Z.eqb_refl. Qed.

Lemma respects_apply_changes api : respects R (apply_changes env item api).
Proof.
  unfold apply_changes, get_db_connection, delete_details, insert_details, update_summary.
  apply respects_bind; [walk | intros conn].
  apply respects_bind.
  { apply respects_bind; [apply respects_execute, stmt_for_delete | intros; walk]. }
  intros cursor1. apply respects_bind; [walk | intros rows].
  apply respects_bind.
  { apply respects_bind; [walk | intros seq_rows].
    apply respects_bind_outcome. intros params Hp.
    pose proof (all_params_for _ _ Hp) as Hf.
    destruct params as [|p ps]; [walk|].
    apply respects_bind; [now apply respects_executemany | intros; walk]. }
  intros cursor2. apply respects_bind; [walk | intros total].
  apply respects_bind; [|intros; walk].
  apply respects_bind; [apply respects_execute, stmt_for_update | intros; walk].
Qed.

Lemma respects_sync_data cookie_str : respects R (sync_data env item cookie_str).
Proof.
  unfold sync_data, raise_for_status, response_json.
  apply respects_try; [|intros; walk].
  destruct (requests_post env (request_of item cookie_str)) as [|response|e]; [walk| |walk].
  apply respects_bind; [walk | intros _].
  apply respects_bind; [walk | intros api_data].
  apply respects_bind; [walk | intros has_total].
  apply respects_bind; [walk | intros malformed].
  destruct malformed; [walk|].
  apply respects_bind; [walk | intros total].
  destruct (py_eq_int total (nTotalComplete item)); [walk|].
  apply respects_bind; [apply respects_apply_changes | intros; walk].
Qed.

End Respects.

(** ** [sync_data] by the answer of the endpoint *)

(** Without a snapshot the [try] block ends before the database block: it
    returns False after the shape check or raises, and has added at most
    a log line and removed at most the cookie file. *)
Lemma sync_data_without_snapshot env item cookie_str w :
  remote_snapshot env item cookie_str = None ->
  fst (sync_data env item cookie_str w) = Returned false
  /\ same_store w (snd (sync_data env item cookie_str w)).
Proof.
  intros Hs. unfold remote_snapshot in Hs.
  assert (Hh : forall e w0, same_store w w0 ->
            fst (sync_handlers env item e w0) = Returned false
            /\ same_store w (snd (sync_handlers env item e w0))).
  { intros e w0 H0. unfold sync_handlers, bind, logging, ret.
    destruct (is_RequestException e); [|destruct (is_PymssqlError e); cbn; auto].
    destruct (clear_cookies_spec env (add_log ERROR (ApiRequestFailed (salesregid item)) w0))
      as (w1 & -> & S & _).
    cbn. split; [reflexivity|].
    eapply same_store_trans; [exact H0|].
    eapply same_store_trans; [apply same_store_log | exact S]. }
  change (sync_data env item cookie_str w)
    with (try_except
            (match requests_post env (request_of item cookie_str) with
             | TransportFailure => raise RequestException
             | PostError e => raise e
             | Replied response =>
                 raise_for_status response ;;
                 api_data <- response_json env response ;;
                 has_total <- of_outcome (py_in "total" api_data) ;;
                 malformed <- (if negb has_total then ret true
                               else has_rows <- of_outcome (py_in "rows" api_data) ;;
                                    ret (negb has_rows)) ;;
                 if (malformed : bool) then
                   logging ERROR BadApiResponse ;;
                   clear_cookies env ;;
                   ret false
                 else after_shape_check env item api_data
             end) (sync_handlers env item) w).
  unfold try_except, bind, raise_for_status, response_json, of_outcome, raise, ret.
  destruct (requests_post env (request_of item cookie_str)) as [|r|e0].
  { apply Hh, same_store_refl. }
  2:{ apply Hh, same_store_refl. }
  destruct (http_error r); [apply Hh, same_store_refl|].
  destruct (body r) as [api|]; [|apply Hh, same_store_refl].
  assert (Hm : fst (let (o, w') := (logging ERROR BadApiResponse;; clear_cookies env;; ret false) w in
                    match o with
                    | Returned a => (Returned a, w')
                    | Raised e => sync_handlers env item e w'
                    end) = Returned false
               /\ same_store w (snd (let (o, w') := (logging ERROR BadApiResponse;; clear_cookies env;; ret false) w in
                    match o with
                    | Returned a => (Returned a, w')
                    | Raised e => sync_handlers env item e w'
                    end))).
  { unfold bind, logging, ret.
    destruct (clear_cookies_spec env (add_log ERROR BadApiResponse w)) as (w1 & -> & S & _).
    cbn. split; [reflexivity|].
    eapply same_store_trans; [apply same_store_log | exact S]. }
  destruct (py_in "total" api) as [[|]|]; cbn [negb];
    [ | exact Hm | apply Hh, same_store_refl ].
  destruct (py_in "rows" api) as [[|]|]; cbn [negb];
    [ discriminate | exact Hm | apply Hh, same_store_refl ].
Qed.

(** ** Exceptions of the database block *)

Lemma raises_only_ret {A} P (a : A) : raises_only P (ret a).
Proof. intros w e H. discriminate. Qed.

Lemma raises_only_logging P l m : raises_only P (logging l m).
Proof. intros w e H. discriminate. Qed.

Lemma raises_only_raise {A} (P : PyExc -> bool) e :
  P e = true -> raises_only P (@raise A e).
Proof. intros H w e' [= <-]. exact H. Qed.

Lemma raises_only_of_outcome {A} (P : PyExc -> bool) (o : Outcome A) :
  (forall e, o = Raised e -> P e = true) -> raises_only P (of_outcome o).
Proof. intros H w e E. apply H. exact E. Qed.

Lemma raises_only_bind {A B} P (m : M A) (k : A -> M B) :
  raises_only P m -> (forall a, raises_only P (k a)) -> raises_only P (bind m k).
Proof.
  intros Hm Hk w e. unfold bind. specialize (Hm w).
  destruct (m w) as [[a|e'] w1]; cbn in *.
  - apply Hk.
  - intros [= <-]. now apply Hm.
Qed.

Lemma raises_only_execute env c s :
  raises_only not_RequestException (cursor_execute env c s).
Proof.
  intros w e. unfold cursor_execute.
  destruct (fault_hits c); [intros [= <-]; reflexivity|].
  destruct (exec_stmt env s (db w)); [discriminate | intros [= <-]; reflexivity].
Qed.

Lemma raises_only_executemany env ss :
  forall c, raises_only not_RequestException (cursor_executemany env c ss).
Proof.
  induction ss as [|s ss IH]; intros c; cbn [cursor_executemany].
  - apply raises_only_ret.
  - apply raises_only_bind; [apply raises_only_execute | auto].
Qed.

Lemma py_getitem_raises obj k e :
  py_getitem obj k = Raised e -> not_RequestException e = true.
Proof.
  destruct obj; cbn; try (intros [= <-]; reflexivity).
  destruct (dict_get k items); [discriminate | intros [= <-]; reflexivity].
Qed.

Lemma py_iter_raises obj e :
  py_iter obj = Raised e -> not_RequestException e = true.
Proof. destruct obj; cbn; try discriminate; intros [= <-]; reflexivity. Qed.

Lemma all_params_raises item rows e :
  all_params item rows = Raised e -> not_RequestException e = true.
Proof.
  induction rows as [|row rows IH]; cbn [all_params]; [discriminate|].
  unfold row_params.
  destruct (py_getitem row "fullname") eqn:E1;
    [|intros [= <-]; exact (py_getitem_raises _ _ _ E1)].
  destruct (py_getitem row "finish_time") eqn:E2;
    [|intros [= <-]; exact (py_getitem_raises _ _ _ E2)].
  destruct (all_params item rows); [discriminate | intros [= <-]; now apply IH].
Qed.

Ltac raises_walk :=
  repeat first
    [ apply raises_only_ret | apply raises_only_logging
    | apply raises_only_execute | apply raises_only_executemany
    | apply raises_only_raise; reflexivity
    | apply raises_only_of_outcome;
        first [ apply py_getitem_raises | apply py_iter_raises | apply all_params_raises ]
    | apply raises_only_bind; [|intros]
    | match goal with
      | |- raises_only _ (match ?x with _ => _ end) => destruct x
      end ].

(** The database block raises pymssql errors, KeyError and TypeError,
    never a RequestException. *)
Lemma apply_changes_raises env item api :
  raises_only not_RequestException (apply_changes env item api).
Proof.
  unfold apply_changes, get_db_connection, delete_details, insert_details, update_summary.
  raises_walk.
Qed.

Lemma after_shape_check_raises env item api :
  raises_only not_RequestException (after_shape_check env item api).
Proof.
  unfold after_shape_check.
  pose proof (apply_changes_raises env item api).
  apply raises_only_bind; [raises_walk | intros total].
  destruct (py_eq_int total (nTotalComplete item)); [raises_walk|].
  apply raises_only_bind; [assumption | intros; raises_walk].
Qed.

Lemma after_shape_check_keeps_cookie env item api :
  keeps_cookie (after_shape_check env item api).
Proof.
  unfold after_shape_check.
  pose proof (keeps_cookie_apply_changes env item api).
  apply keeps_cookie_bind; [cookie_steps | intros total].
  destruct (py_eq_int total (nTotalComplete item)); [cookie_steps|].
  apply keeps_cookie_bind; [assumption | intros; cookie_steps].
Qed.

Lemma sync_data_snapshot_keeps_cookie env item cookie_str api w :
  remote_snapshot env item cookie_str = Some api ->
  cookie_file (snd (sync_data env item cookie_str w)) = cookie_file w.
Proof.
  intros Hs. rewrite (sync_data_with_snapshot _ _ _ _ _ Hs).
  unfold try_except.
  pose proof (after_shape_check_keeps_cookie env item api w) as K.
  pose proof (after_shape_check_raises env item api w) as N.
  destruct (after_shape_check env item api w) as [[b|e] w1]; cbn in *; [exact K|].
  specialize (N e eq_refl). unfold not_RequestException in N.
  apply negb_true_iff in N. unfold sync_handlers. rewrite N.
  destruct (is_PymssqlError e); cbn; exact K.
Qed.

(** ** Instances *)

Lemma cookie_kept_or_gone_refl w : cookie_kept_or_gone w w.
Proof. left. reflexivity. Qed.

Lemma cookie_kept_or_gone_trans w1 w2 w3 :
  cookie_kept_or_gone w1 w2 -> cookie_kept_or_gone w2 w3 -> cookie_kept_or_gone w1 w3.
Proof.
  unfold cookie_kept_or_gone. intros [A|A] [B|B]; [left | right | right | right]; congruence.
Qed.

(** X3: a call of [sync_data] without a remote snapshot (the request
    fails, the status is an error, the body is not JSON or does not pass
    the check for "total" and "rows") returns False and executes no
    statement: the tables are as before. *)
Theorem sync_data_no_snapshot_no_writes env item cookie_str w :
  remote_snapshot env item cookie_str = None ->
  fst (sync_data env item cookie_str w) = Returned false
  /\ same_store w (snd (sync_data env item cookie_str w)).
Proof. apply sync_data_without_snapshot. Qed.

Lemma sync_data_no_snapshot_no_writes_witness :
  fst (sync_data (scenario null_reply NoFault) jan_task "PHPSESSID=abc" jan_world)
    = Returned false
  /\ same_store jan_world
       (snd (sync_data (scenario null_reply NoFault) jan_task "PHPSESSID=abc" jan_world)).
Proof.
  exact (sync_data_no_snapshot_no_writes (scenario null_reply NoFault) jan_task
           "PHPSESSID=abc" jan_world eq_refl).
Defined.

(** X4: [sync_data] never writes the cookie file: after a call the file
    is as it was or gone.  It is exactly as it was whenever the endpoint
    gave a snapshot, whatever the database block does then, and so
    whenever the call returns True: only a refused or malformed answer
    costs the session. *)
Theorem sync_data_cookie_gone_only_without_snapshot env item cookie_str w :
  let w' := snd (sync_data env item cookie_str w) in
  cookie_kept_or_gone w w'
  /\ (remote_snapshot env item cookie_str <> None -> cookie_file w' = cookie_file w)
  /\ (fst (sync_data env item cookie_str w) = Returned true -> cookie_file w' = cookie_file w).
Proof.
  cbv zeta. split; [|split].
  - apply (respects_sync_data env cookie_kept_or_gone cookie_kept_or_gone_refl
             cookie_kept_or_gone_trans).
    + intros l m w0. left. reflexivity.
    + intros w0. right. reflexivity.
    + intros s d w0 _ _. left. reflexivity.
  - intros Hs. destruct (remote_snapshot env item cookie_str) as [api|] eqn:E;
      [|exfalso; apply Hs; reflexivity].
    exact (sync_data_snapshot_keeps_cookie _ _ _ _ _ E).
  - intros Ht. destruct (remote_snapshot env item cookie_str) as [api|] eqn:E.
    + exact (sync_data_snapshot_keeps_cookie _ _ _ _ _ E).
    + destruct (sync_data_without_snapshot env item cookie_str w E) as [F _].
      rewrite F in Ht. discriminate.
Qed.

Lemma spares_refl item w : spares item w w.
Proof. repeat split; auto. Qed.

Lemma spares_trans item w1 w2 w3 :
  spares item w1 w2 -> spares item w2 w3 -> spares item w1 w3.
Proof.
  intros (A & B & C & D) (A' & B' & C' & D'). repeat split.
  - intros r Hr Hin. apply A', A; assumption.
  - intros r Hr Hin. apply B', B; assumption.
  - congruence.
  - congruence.
Qed.

Lemma spares_commit env item s d w :
  stmt_for item s = true -> exec_stmt env s (db w) = Some d -> spares item w (commit s d w).
Proof.
  intros Hs He. unfold spares, commit. cbn [db].
  destruct s as [license b e | ym license lookup fullname finish_time | total license b e];
    cbn in Hs, He.
  - apply andb_prop in Hs as [Hs He']. apply andb_prop in Hs as [Hl Hb].
    apply str_eqb_eq in Hl. apply Z.eqb_eq in Hb, He'. subst.
    injection He as <-. cbn. repeat split; auto.
    intros r Hr Hin. apply filter_In. split; [exact Hin | now rewrite Hr].
  - destruct (sql_varchar env fullname), (sql_datetime env finish_time); try discriminate.
    injection He as <-. cbn. repeat split; auto.
    intros r Hr Hin. apply in_or_app. now left.
  - apply andb_prop in Hs as [Hs He']. apply andb_prop in Hs as [Hl Hb].
    apply str_eqb_eq in Hl. apply Z.eqb_eq in Hb, He'. subst.
    destruct (sql_int env total) as [n|]; [|discriminate].
    injection He as <-. cbn. repeat split; auto.
    + intros r Hr Hin. apply in_map_iff. exists r. split; [now rewrite Hr | exact Hin].
    + apply length_map.
Qed.

(** X5: whatever happens in a call of [sync_data] for a task (success,
    refused request, fault at any statement), no detail row outside the
    task's entity and date window is removed, no summary row with another
    key is changed, the summary table keeps its size and the roster is
    not touched. *)
Theorem sync_data_spares_the_rest env item cookie_str w :
  spares item w (snd (sync_data env item cookie_str w)).
Proof.
  apply (respects_sync_data env (spares item) (spares_refl item) (spares_trans item)).
  - intros l m w0. unfold spares. cbn. repeat split; auto.
  - intros w0. unfold spares. cbn. repeat split; auto.
  - intros s d w0. apply spares_commit.
Qed.

(** ** The database block, step by step *)

Lemma execute_accepted env c s w :
  cur_fault c = NoFault -> accepts env s = true ->
  exists w', cursor_execute env c s w = (Returned (next c), w') /\ committed env w [s] w'.
Proof.
  intros Hf Ha. unfold cursor_execute, fault_hits. rewrite Hf.
  pose proof (exec_stmt_accepts env s (db w)) as H. rewrite Ha in H.
  destruct (exec_stmt env s (db w)) as [d|] eqn:E; [|discriminate].
  eexists. split; [reflexivity|]. repeat split; cbn. now rewrite E.
Qed.

Lemma executemany_accepted env ss : forall c w,
  cur_fault c = NoFault -> forallb (accepts env) ss = true ->
  exists c' w', cursor_executemany env c ss w = (Returned c', w')
                /\ cur_fault c' = NoFault /\ committed env w ss w'.
Proof.
  induction ss as [|s ss IH]; intros c w Hf Ha; cbn [cursor_executemany forallb] in *.
  - exists c, w. split; [reflexivity | split; [assumption | apply committed_nil]].
  - apply andb_prop in Ha as [Ha1 Ha2].
    destruct (execute_accepted env c s w Hf Ha1) as (w1 & E1 & C1).
    destruct (IH (next c) w1 Hf Ha2) as (c' & w2 & E2 & Hf' & C2).
    exists c', w2. rewrite (bind_returned _ _ _ _ _ E1).
    split; [exact E2 | split; [exact Hf'|]].
    change (s :: ss) with ([s] ++ ss). eapply committed_app; eassumption.
Qed.

Lemma delete_details_done env c item w :
  cur_fault c = NoFault ->
  exists w', delete_details env c item w = (Returned (next c), w')
             /\ committed env w
                  [DeleteDetails (salesregid item) (dTrainBeginDate item) (dTrainEndDate item)]
                  w'.
Proof.
  intros Hf. unfold delete_details.
  destruct (execute_accepted env c
              (DeleteDetails (salesregid item) (dTrainBeginDate item) (dTrainEndDate item))
              w Hf eq_refl) as (w1 & E & C).
  rewrite (bind_returned _ _ _ _ _ E).
  eexists. split; [reflexivity|]. now apply committed_log.
Qed.

Lemma snapshot_shape env item cookie_str api :
  remote_snapshot env item cookie_str = Some api ->
  py_in "total" api = Returned true /\ py_in "rows" api = Returned true.
Proof.
  unfold remote_snapshot.
  destruct (requests_post _ _) as [|r|e]; [discriminate| |discriminate].
  destruct (http_error r); [discriminate|].
  destruct (body r) as [api'|]; [|discriminate].
  destruct (py_in "total" api') as [[|]|] eqn:E1; try discriminate.
  destruct (py_in "rows" api') as [[|]|] eqn:E2; try discriminate.
  intros [= <-]. auto.
Qed.

(** With a snapshot whose "total" can be read, the body is an object
    and its "rows" can be read too. *)
Lemma snapshot_rows env item cookie_str api total :
  remote_snapshot env item cookie_str = Some api ->
  py_getitem api "total" = Returned total ->
  exists rows, py_getitem api "rows" = Returned rows.
Proof.
  intros Hs Ht. destruct (snapshot_shape _ _ _ _ Hs) as [_ Hr].
  destruct api; try discriminate. cbn in *.
  destruct (dict_get "rows" items) as [rows|]; [eauto | discriminate].
Qed.

Lemma sync_data_block_returned env item cookie_str api total w w' :
  remote_snapshot env item cookie_str = Some api ->
  py_getitem api "total" = Returned total ->
  py_eq_int total (nTotalComplete item) = false ->
  apply_changes env item api w = (Returned tt, w') ->
  sync_data env item cookie_str w = (Returned true, w').
Proof.
  intros Hs Ht He Ha. rewrite (sync_data_with_snapshot _ _ _ _ _ Hs).
  unfold try_except, after_shape_check, bind, of_outcome, ret.
  now rewrite Ht, He, Ha.
Qed.

Lemma sync_data_block_raised env item cookie_str api total w e w' :
  remote_snapshot env item cookie_str = Some api ->
  py_getitem api "total" = Returned total ->
  py_eq_int total (nTotalComplete item) = false ->
  apply_changes env item api w = (Raised e, w') ->
  exists m, sync_data env item cookie_str w = (Returned false, add_log ERROR m w').
Proof.
  intros Hs Ht He Ha. rewrite (sync_data_with_snapshot _ _ _ _ _ Hs).
  unfold try_except, after_shape_check, bind, of_outcome, ret.
  rewrite Ht, He, Ha.
  pose proof (apply_changes_raises env item api w e) as N.
  rewrite Ha in N. specialize (N eq_refl).
  unfold not_RequestException in N. apply negb_true_iff in N.
  unfold sync_handlers. rewrite N.
  destruct (is_PymssqlError e); eexists; reflexivity.
Qed.

Lemma insert_details_done env c item rows seq_rows params w :
  cur_fault c = NoFault ->
  py_iter rows = Returned seq_rows ->
  all_params item seq_rows = Returned params ->
  forallb (accepts env) params = true ->
  exists c' w', insert_details env c item rows w = (Returned c', w')
                /\ cur_fault c' = NoFault /\ committed env w params w'.
Proof.
  intros Hf Hi Hp Ha. unfold insert_details.
  rewrite Hi. cbn [bind of_outcome]. rewrite Hp.
  destruct params as [|p ps].
  - exists c. eexists. split; [reflexivity|]. split; [exact Hf|].
    apply committed_log, committed_nil.
  - destruct (executemany_accepted env (p :: ps) c w Hf Ha) as (c' & w1 & E & Hf' & C).
    rewrite (bind_returned _ _ _ _ _ E).
    exists c'. eexists. split; [reflexivity|]. split; [exact Hf'|].
    now apply committed_log.
Qed.

Lemma update_summary_done env c item total w :
  cur_fault c = NoFault ->
  accepts env (UpdateSummary total (salesregid item) (dTrainBeginDate item)
                 (dTrainEndDate item)) = true ->
  exists w', update_summary env c item total w = (Returned (next c), w')
             /\ committed env w
                  [UpdateSummary total (salesregid item) (dTrainBeginDate item)
                     (dTrainEndDate item)] w'.
Proof.
  intros Hf Ha. unfold update_summary.
  destruct (execute_accepted env c _ w Hf Ha) as (w1 & E & C).
  rewrite (bind_returned _ _ _ _ _ E).
  eexists. split; [reflexivity|]. now apply committed_log.
Qed.

(** Without fault and with every value taken by the server, the database
    block executes all it planned. *)
Lemma apply_changes_done env item api full w :
  planned_writes item api = Some full ->
  sync_fault env item = NoFault ->
  forallb (accepts env) full = true ->
  exists w', apply_changes env item api w = (Returned tt, w') /\ committed env w full w'.
Proof.
  unfold planned_writes. intros H Hf Ha.
  destruct (py_getitem api "rows") as [rows|] eqn:Er; [|discriminate].
  destruct (py_getitem api "total") as [total|] eqn:Et; [|discriminate].
  destruct (py_iter rows) as [seq_rows|] eqn:Ei; [|discriminate].
  destruct (all_params item seq_rows) as [params|] eqn:Ep; [|discriminate].
  injection H as <-.
  cbn [forallb] in Ha. apply andb_prop in Ha as [_ Ha].
  rewrite forallb_app in Ha. apply andb_prop in Ha as [Hps Hu].
  cbn [forallb] in Hu. rewrite andb_true_r in Hu.
  unfold apply_changes, get_db_connection. rewrite Hf, Er, Et.
  cbn [bind ret].
  destruct (delete_details_done env (conn_cursor {| conn_fault := NoFault |}) item w eq_refl)
    as (w1 & E1 & C1).
  rewrite (bind_returned _ _ _ _ _ E1). cbn [bind of_outcome].
  destruct (insert_details_done env (next (conn_cursor {| conn_fault := NoFault |}))
              item rows seq_rows params w1 eq_refl Ei Ep Hps)
    as (c2 & w2 & E2 & Hf2 & C2).
  rewrite (bind_returned _ _ _ _ _ E2). cbn [bind of_outcome].
  destruct (update_summary_done env c2 item total w2 Hf2 Hu) as (w3 & E3 & C3).
  rewrite (bind_returned _ _ _ _ _ E3).
  eexists. split; [reflexivity|].
  match goal with |- committed _ _ (?d :: ?ps ++ ?u) _ =>
    change (d :: ps ++ u) with ([d] ++ ps ++ u) end.
  eapply committed_app; [exact C1|].
  eapply committed_app; [exact C2 | exact C3].
Qed.

Lemma sync_data_replaces env item cookie_str api total full n w :
  remote_snapshot env item cookie_str = Some api ->
  py_getitem api "total" = Returned total ->
  py_eq_int total (nTotalComplete item) = false ->
  planned_writes item api = Some full ->
  sync_fault env item = NoFault ->
  forallb (accepts env) full = true ->
  sql_int env total = Some n ->
  let w' := snd (sync_data env item cookie_str w) in
  let now := getdate (db w) + Z.of_nat (S (List.length (inserted_rows env full))) in
  fst (sync_data env item cookie_str w) = Returned true
  /\ journal w' = journal w ++ full
  /\ InsuExternalTrainingY (db w')
     = outside_window item (InsuExternalTrainingY (db w)) ++ inserted_rows env full
  /\ List.length full = S (S (List.length (inserted_rows env full)))
  /\ InsuExternalTrainingX (db w')
     = summary_updated item n now (InsuExternalTrainingX (db w))
  /\ (forall a, In a (InsuExternalTrainingX (db w)) -> addresses item a = true ->
                In (refresh n now a) (InsuExternalTrainingX (db w'))).
Proof.
  intros Hs Ht He Hp Hf Ha Hn. cbv zeta.
  destruct (apply_changes_done env item api full w Hp Hf Ha) as (w' & E & J & Rp & _).
  rewrite (sync_data_block_returned _ _ _ _ _ _ _ Hs Ht He E). cbn [fst snd].
  destruct (planned_tables env item api total full _ _ Ht Hp Rp) as (n' & Hn' & Hx & Hy & Hl).
  assert (n' = n) by congruence. subst n'.
  split; [reflexivity|]. split; [exact J|]. split; [exact Hy|]. split; [exact Hl|].
  split; [exact Hx|].
  intros a Hin Hm. rewrite Hx. now apply summary_updated_in.
Qed.

(** X6: on a connection without fault and a server that takes every
    bound value, a call with a differing total replaces rather than adds:
    it returns True, has executed the delete, one insert per fetched row
    and the update, and the detail table is what the delete left of the old
    one followed by one new row per fetched row.  The summary table is the
    old one with total and refresh date set on the rows that have the
    licence and the two dates of the task; a row of the table that the
    task addresses holds the new total afterwards. *)
Theorem sync_data_replaces_details env item cookie_str api total full n w :
  remote_snapshot env item cookie_str = Some api ->
  py_getitem api "total" = Returned total ->
  py_eq_int total (nTotalComplete item) = false ->
  planned_writes item api = Some full ->
  sync_fault env item = NoFault ->
  forallb (accepts env) full = true ->
  sql_int env total = Some n ->
  let w' := snd (sync_data env item cookie_str w) in
  let now := getdate (db w) + Z.of_nat (S (List.length (inserted_rows env full))) in
  fst (sync_data env item cookie_str w) = Returned true
  /\ journal w' = journal w ++ full
  /\ InsuExternalTrainingY (db w')
     = outside_window item (InsuExternalTrainingY (db w)) ++ inserted_rows env full
  /\ List.length full = S (S (List.length (inserted_rows env full)))
  /\ InsuExternalTrainingX (db w')
     = summary_updated item n now (InsuExternalTrainingX (db w))
  /\ (forall a, In a (InsuExternalTrainingX (db w)) -> addresses item a = true ->
                In (refresh n now a) (InsuExternalTrainingX (db w'))).
Proof.
  intros Hs Ht He Hp Hf Ha Hn.
  exact (sync_data_replaces env item cookie_str api total full n w Hs Ht He Hp Hf Ha Hn).
Qed.

Lemma sync_data_replaces_details_witness :
  let w' := snd (sync_data (scenario seven_reply NoFault) jan_task "PHPSESSID=abc" jan_world) in
  fst (sync_data (scenario seven_reply NoFault) jan_task "PHPSESSID=abc" jan_world)
    = Returned true
  /\ journal w' = journal jan_world ++ jan_writes
  /\ InsuExternalTrainingY (db w')
     = outside_window jan_task (InsuExternalTrainingY (db jan_world))
       ++ inserted_rows (scenario seven_reply NoFault) jan_writes
  /\ List.length jan_writes
     = S (S (List.length (inserted_rows (scenario seven_reply NoFault) jan_writes)))
  /\ InsuExternalTrainingX (db w') = [refresh 7 1707000003 jan_summary]
  /\ (forall a, In a [jan_summary] -> addresses jan_task a = true ->
                In (refresh 7 1707000003 a) (InsuExternalTrainingX (db w'))).
Proof.
  exact (sync_data_replaces_details (scenario seven_reply NoFault) jan_task "PHPSESSID=abc"
           _ (JInt 7) jan_writes 7 jan_world
           eq_refl eq_refl eq_refl eq_refl eq_refl eq_refl eq_refl).
Defined.

(** For the task read from a summary row with a time of day the UPDATE
    addresses no row: the call replaces the detail rows and returns True,
    and the summary keeps its total of 5. *)
Example replaced_details_summary_kept :
  let env := scenario seven_reply NoFault in
  let w' := snd (sync_data env night_task "PHPSESSID=abc" night_world) in
  fst (sync_data env night_task "PHPSESSID=abc" night_world) = Returned true
  /\ journal w' = jan_writes
  /\ InsuExternalTrainingX (db w') = [night_summary].
Proof. cbv zeta. repeat split; vm_compute; reflexivity. Qed.

Lemma insert_details_torn env c item rows w :
  match py_iter rows with
  | Returned seq_rows =>
      match all_params item seq_rows with Returned _ => False | Raised _ => True end
  | Raised _ => True
  end ->
  exists e, insert_details env c item rows w = (Raised e, w).
Proof.
  unfold insert_details, bind, of_outcome.
  destruct (py_iter rows) as [seq_rows|e]; [|eauto].
  destruct (all_params item seq_rows) as [params|e]; [intros [] | eauto].
Qed.

(** The database block when the rows cannot be turned into parameters:
    the delete is executed first, then the exception surfaces. *)
Lemma apply_changes_torn env item api total w :
  py_getitem api "total" = Returned total ->
  (exists rows, py_getitem api "rows" = Returned rows) ->
  planned_writes item api = None ->
  sync_fault env item = NoFault ->
  exists e w', apply_changes env item api w = (Raised e, w')
               /\ committed env w
                    [DeleteDetails (salesregid item) (dTrainBeginDate item)
                       (dTrainEndDate item)] w'.
Proof.
  intros Ht (rows & Er) Hp Hf.
  unfold planned_writes in Hp. rewrite Er, Ht in Hp.
  unfold apply_changes, get_db_connection. rewrite Hf, Er. cbn [bind ret].
  destruct (delete_details_done env (conn_cursor {| conn_fault := NoFault |}) item w eq_refl)
    as (w1 & E1 & C1).
  rewrite (bind_returned _ _ _ _ _ E1). cbn [bind of_outcome].
  destruct (insert_details_torn env (next (conn_cursor {| conn_fault := NoFault |}))
              item rows w1) as (e & E2).
  { destruct (py_iter rows) as [seq_rows|]; [|exact I].
    destruct (all_params item seq_rows); [discriminate | exact I]. }
  rewrite (bind_raised _ _ _ _ _ E2).
  exists e, w1. auto.
Qed.

(** X7: when a fetched row lacks "fullname" or "finish_time" (or the
    rows are no list of objects at all), the parameters of the inserts
    cannot be built; by then the delete has been executed and committed.
    The call returns False with exactly the delete done: the old rows of
    the window are gone, nothing is inserted, the summary is as it was, and
    so is the cookie file. *)
Theorem sync_data_torn_rows_lose_details env item cookie_str api total w :
  remote_snapshot env item cookie_str = Some api ->
  py_getitem api "total" = Returned total ->
  py_eq_int total (nTotalComplete item) = false ->
  planned_writes item api = None ->
  sync_fault env item = NoFault ->
  let w' := snd (sync_data env item cookie_str w) in
  fst (sync_data env item cookie_str w) = Returned false
  /\ journal w' = journal w
                  ++ [DeleteDetails (salesregid item) (dTrainBeginDate item) (dTrainEndDate item)]
  /\ InsuExternalTrainingY (db w') = outside_window item (InsuExternalTrainingY (db w))
  /\ InsuExternalTrainingX (db w') = InsuExternalTrainingX (db w)
  /\ cookie_file w' = cookie_file w.
Proof.
  intros Hs Ht He Hp Hf. cbv zeta.
  destruct (apply_changes_torn env item api total w Ht (snapshot_rows _ _ _ _ _ Hs Ht) Hp Hf)
    as (e & w1 & E & J & Rp & C).
  destruct (sync_data_block_raised _ _ _ _ _ _ _ _ Hs Ht He E) as (m & ->).
  cbn [fst snd add_log journal db cookie_file].
  cbn in Rp. injection Rp as Rp. rewrite <- Rp. cbn.
  repeat split; assumption.
Qed.

Lemma sync_data_torn_rows_lose_details_witness :
  let w' := snd (sync_data (scenario torn_reply NoFault) jan_task "PHPSESSID=abc" jan_world) in
  fst (sync_data (scenario torn_reply NoFault) jan_task "PHPSESSID=abc" jan_world)
    = Returned false
  /\ journal w' = [DeleteDetails "A123" 1704067200 1706659200]
  /\ InsuExternalTrainingY (db w') = []
  /\ InsuExternalTrainingX (db w') = [jan_summary]
  /\ cookie_file w' = utf8_encode "PHPSESSID=abc".
Proof.
  exact (sync_data_torn_rows_lose_details (scenario torn_reply NoFault) jan_task
           "PHPSESSID=abc" _ (JInt 7) jan_world eq_refl eq_refl eq_refl eq_refl eq_refl).
Defined.

(** ** Session store *)

Lemma lstrip_head s : forall c t, lstrip s = Str c t -> is_space c = false.
Proof.
  induction s as [|a s IH]; cbn [lstrip]; intros c t H; [discriminate|].
  destruct (is_space a) eqn:E; [eauto|]. now injection H as <- <-.
Qed.

Lemma rstrip_last_char s :
  match last_char (rstrip s) with
  | Some l => is_space l = false
  | None => True
  end.
Proof.
  induction s as [|c s IH]; [exact I|].
  change (rstrip (Str c s))
    with (match rstrip s with
          | EmptyStr => if is_space c then EmptyStr else Str c EmptyStr
          | r => Str c r
          end).
  destruct (rstrip s) as [|a r].
  - destruct (is_space c) eqn:E; [exact I | exact E].
  - exact IH.
Qed.

Lemma rstrip_head c t :
  is_space c = false -> exists t', rstrip (Str c t) = Str c t'.
Proof.
  intros H.
  change (rstrip (Str c t))
    with (match rstrip t with
          | EmptyStr => if is_space c then EmptyStr else Str c EmptyStr
          | r => Str c r
          end).
  destruct (rstrip t); [rewrite H|]; eauto.
Qed.

Lemma bare_strip s : bare (strip s) = true.
Proof.
  unfold strip. destruct (lstrip s) as [|c t] eqn:E; [reflexivity|].
  pose proof (lstrip_head _ _ _ E) as Hc.
  pose proof (rstrip_last_char (Str c t)) as Hl.
  destruct (rstrip_head c t Hc) as (t' & Et). rewrite Et in *.
  unfold bare. rewrite Hc. cbn [negb andb].
  destruct (last_char (Str c t')); [now rewrite Hl | reflexivity].
Qed.

Lemma has_CR_LF s : has_CR (Str LF s) = has_CR s.
Proof. reflexivity. Qed.

Lemma text_read_no_CR_bounded n : forall raw,
  (str_length raw <= n)%nat -> has_CR (text_read raw) = false.
Proof.
  induction n as [|n IH]; intros raw Hn.
  - destruct raw; [reflexivity | cbn in Hn; lia].
  - destruct raw as [|c rest]; [reflexivity|]. cbn [str_length] in Hn.
    cbn [text_read].
    destruct (N.eqb c CR) eqn:Ec.
    + destruct rest as [|c2 rest2]; [reflexivity|]. cbn [str_length] in Hn.
      destruct (N.eqb c2 LF); rewrite has_CR_LF; apply IH;
        cbn [str_length]; lia.
    + cbn [has_CR]. rewrite Ec. cbn [orb]. apply IH. lia.
Qed.

(** Universal newlines leave no carriage return. *)
Lemma text_read_no_CR raw : has_CR (text_read raw) = false.
Proof. exact (text_read_no_CR_bounded _ raw (le_n _)). Qed.

Lemma lstrip_no_CR s : has_CR s = false -> has_CR (lstrip s) = false.
Proof.
  induction s as [|c s IH]; cbn [lstrip]; [auto|]. intros H.
  destruct (is_space c); [|exact H].
  cbn in H. apply orb_false_iff in H as [_ H]. auto.
Qed.

Lemma rstrip_no_CR s : has_CR s = false -> has_CR (rstrip s) = false.
Proof.
  induction s as [|c s IH]; [auto|]. intros H.
  cbn [has_CR] in H. apply orb_false_iff in H as [Hc Hs]. specialize (IH Hs).
  change (rstrip (Str c s))
    with (match rstrip s with
          | EmptyStr => if is_space c then EmptyStr else Str c EmptyStr
          | r => Str c r
          end).
  destruct (rstrip s) as [|a r].
  - destruct (is_space c); cbn [has_CR]; [reflexivity | now rewrite Hc].
  - cbn [has_CR] in *. now rewrite Hc, IH.
Qed.

Lemma get_cookie_result env w :
  let r := get_cookie env w in
  same_store w (snd r)
  /\ cookie_file (snd r) = cookie_file w
  /\ (cookie_file w = None -> fst r = Returned None)
  /\ (forall s, fst r = Returned (Some s) ->
                bare s = true /\ has_CR s = false /\ encodable s = true)
  /\ (forall e, fst r = Raised e <->
                e = ValueError /\ io_error env OpenRead = false
                /\ exists raw, cookie_file w = Some raw /\ utf8_decode raw = None).
Proof.
  cbv zeta. destruct (cookie_file w) as [raw|] eqn:E.
  - destruct (io_error env OpenRead) eqn:Er.
    + rewrite (get_cookie_unreadable env w raw E Er). cbn [fst snd].
      split; [apply same_store_log|]. split; [exact E|].
      split; [discriminate|]. split; [discriminate|].
      intros e. split; [discriminate | intros (_ & F & _); discriminate].
    + destruct (utf8_decode raw) as [text|] eqn:Ed.
      * rewrite (get_cookie_present env w raw text E Er Ed). cbn [fst snd].
        split; [apply same_store_refl|]. split; [exact E|].
        split; [discriminate|]. split.
        -- intros s [= <-]. split; [apply bare_strip|]. split.
           ++ apply rstrip_no_CR, lstrip_no_CR, text_read_no_CR.
           ++ apply encodable_strip, encodable_text_read, (utf8_decode_encodable raw), Ed.
        -- intros e. split; [discriminate|].
           intros (_ & _ & raw' & [= <-] & F). congruence.
      * rewrite (get_cookie_garbled env w raw E Er Ed). cbn [fst snd].
        split; [apply same_store_refl|]. split; [exact E|].
        split; [discriminate|]. split; [discriminate|].
        intros e. split.
        -- intros [= <-]. split; [reflexivity|]. split; [reflexivity|]. eauto.
        -- intros (-> & _). reflexivity.
  - rewrite (get_cookie_absent env w E). cbn [fst snd].
    split; [apply same_store_refl|]. split; [exact E|].
    split; [reflexivity|]. split; [discriminate|].
    intros e. split; [discriminate | intros (_ & _ & raw & F & _); discriminate].
Qed.

(** X8: [get_cookie] changes neither the cookie file nor the tables.
    It finds nothing when there is no file; a credential it returns has no
    leading or trailing whitespace, no carriage return and no surrogate,
    whatever the file holds.  It raises in one case only: the file is
    there, can be opened and is not UTF-8; then the UnicodeDecodeError of
    [f.read()], which is no IOError, reaches the caller. *)
Theorem get_cookie_normalised env w :
  let r := get_cookie env w in
  same_store w (snd r)
  /\ cookie_file (snd r) = cookie_file w
  /\ (cookie_file w = None -> fst r = Returned None)
  /\ (forall s, fst r = Returned (Some s) ->
                bare s = true /\ has_CR s = false /\ encodable s = true)
  /\ (forall e, fst r = Raised e <->
                e = ValueError /\ io_error env OpenRead = false
                /\ exists raw, cookie_file w = Some raw /\ utf8_decode raw = None).
Proof. exact (get_cookie_result env w). Qed.

(** A file holding the single byte 0xFF, and one holding two blanks. *)
Example get_cookie_on_odd_files :
  let env := scenario TransportFailure NoFault in
  get_cookie env (set_cookie_file (Some [xff]) jan_world)
  = (Raised ValueError, set_cookie_file (Some [xff]) jan_world)
  /\ fst (get_cookie env (set_cookie_file (utf8_encode "  ") jan_world))
     = Returned (Some "").
Proof. split; reflexivity. Qed.

(** X9: a credential that [get_cookie] has returned survives being
    saved and loaded again unchanged, from any world, on a disk that takes
    the write and the read. *)
Theorem loaded_cookie_is_stable env w s w0 :
  io_error env OpenWrite = false ->
  io_error env OpenRead = false ->
  fst (get_cookie env w) = Returned (Some s) ->
  saved_then_loaded env s w0 = Returned (Some s).
Proof.
  intros Hw Hr Hg.
  destruct (get_cookie_result env w) as (_ & _ & _ & Hs & _).
  destruct (Hs s Hg) as (Hb & Hc & He).
  now apply saved_then_loaded_plain.
Qed.

Lemma loaded_cookie_is_stable_witness :
  saved_then_loaded (scenario TransportFailure NoFault) "a b" fresh_world
  = Returned (Some "a b").
Proof.
  exact (loaded_cookie_is_stable (scenario TransportFailure NoFault) messy_world "a b"
           fresh_world eq_refl eq_refl eq_refl).
Defined.

(** X10: once [clear_cookies] has run on a file system that lets it
    remove the file, [get_cookie] finds no credential, and clearing again
    changes nothing at all. *)
Theorem cleared_cookie_is_gone env w :
  io_error env Remove = false ->
  let w' := snd (clear_cookies env w) in
  fst (get_cookie env w') = Returned None
  /\ clear_cookies env w' = (Returned tt, w').
Proof.
  intros Hr. cbv zeta.
  destruct (clear_cookies_spec env w) as (w' & -> & _ & _ & Hc).
  specialize (Hc Hr). cbn [snd].
  rewrite (get_cookie_absent env w' Hc). split; [reflexivity|].
  unfold clear_cookies, bind, os_path_exists. now rewrite Hc.
Qed.

Lemma cleared_cookie_is_gone_witness :
  let w' := snd (clear_cookies (scenario TransportFailure NoFault) jan_world) in
  fst (get_cookie (scenario TransportFailure NoFault) w') = Returned None
  /\ clear_cookies (scenario TransportFailure NoFault) w' = (Returned tt, w').
Proof.
  exact (cleared_cookie_is_gone (scenario TransportFailure NoFault) jan_world eq_refl).
Defined.

(** ** Login *)

Ltac attempt_leaf :=
  split;
  [ count_attempts
  | split;
    [ first [ reflexivity | intros _; reflexivity | intros H; discriminate H ]
    | intros ? H; first [ discriminate H | left; reflexivity | right; reflexivity ] ] ].

(** One attempt logs no new attempt line.  When it returns False it has
    left the cookie file alone; when it raises it has left the file alone
    or, where the cookies could not be encoded, empty. *)
Lemma attempt_login_quiet env page ocr username password w :
  let r := _attempt_login env page ocr username password w in
  attempts_logged (snd r) = attempts_logged w
  /\ (fst r = Returned false -> cookie_file (snd r) = cookie_file w)
  /\ (forall e, fst r = Raised e ->
                cookie_file (snd r) = cookie_file w \/ cookie_file (snd r) = Some []).
Proof.
  cbv zeta.
  unfold _attempt_login, save_cookie, page_fill.
  unfold try_except, bind, open_write, logging, raise, ret.
  destruct (goto_error page) as [e|].
  { destruct (is_PlaywrightTimeoutError e); cbn [fst snd is_PlaywrightTimeoutError]; attempt_leaf. }
  destruct username as [u|]; [|cbn [fst snd is_PlaywrightTimeoutError]; attempt_leaf].
  destruct password as [p|]; [|cbn [fst snd is_PlaywrightTimeoutError]; attempt_leaf].
  destruct (captcha_img page) as [img|]; [|cbn [fst snd is_PlaywrightTimeoutError]; attempt_leaf].
  cbn [fst snd is_PlaywrightTimeoutError].
  destruct (wait_error (after_click page u p (ocr img))) as [e|].
  { destruct (is_PlaywrightTimeoutError e); cbn [fst snd is_PlaywrightTimeoutError]; attempt_leaf. }
  destruct (contains "mpage" (page_url (after_click page u p (ocr img))));
    cbn [fst snd negb is_PlaywrightTimeoutError].
  - destruct (error_alert (after_click page u p (ocr img)));
      cbn [fst snd is_PlaywrightTimeoutError]; attempt_leaf.
  - destruct (io_error env OpenWrite); [cbn [fst snd is_PlaywrightTimeoutError]; attempt_leaf|].
    destruct (utf8_encode _); cbn [fst snd is_PlaywrightTimeoutError]; attempt_leaf.
Qed.

Lemma login_loop_quiet env max_attempts remaining : forall attempt w,
  let r := login_loop env max_attempts remaining attempt w in
  (attempts_logged w <= attempts_logged (snd r) <= attempts_logged w + remaining)%nat
  /\ (0 < remaining -> attempts_logged w < attempts_logged (snd r))%nat
  /\ (fst r = Returned false -> cookie_file (snd r) = cookie_file w)
  /\ (forall e, fst r = Raised e ->
                cookie_file (snd r) = cookie_file w \/ cookie_file (snd r) = Some []).
Proof.
  induction remaining as [|r IH]; intros attempt w; cbv zeta.
  - cbn. split; [lia | split; [lia | split; [reflexivity | discriminate]]].
  - rewrite login_loop_step.
    set (w0 := add_log INFO (LoginAttempt (attempt + 1) max_attempts) w).
    assert (H0 : attempts_logged w0 = S (attempts_logged w))
      by (unfold w0; count_attempts).
    assert (C0 : cookie_file w0 = cookie_file w) by reflexivity.
    destruct (attempt_login_quiet env (new_page env attempt) (classification env)
                (TII_USERNAME env) (TII_PASSWORD env) w0) as (Ha & Hf & He).
    destruct (_attempt_login env (new_page env attempt) (classification env)
                (TII_USERNAME env) (TII_PASSWORD env) w0) as [[[|]|e] w1]; cbn [fst snd] in *.
    + split; [lia | split; [lia | split; discriminate]].
    + destruct (IH (S attempt) w1) as (Hb & _ & Hd & Hx). cbv zeta in *.
      split; [lia | split; [lia | split]].
      * intros Hr. rewrite (Hd Hr), (Hf eq_refl). exact C0.
      * intros e Hr. rewrite <- C0, <- (Hf eq_refl). exact (Hx e Hr).
    + split; [lia | split; [lia | split; [discriminate|]]].
      intros e' _. rewrite <- C0. exact (He e eq_refl).
Qed.

Ltac setup_cases env :=
  destruct (setup_error env NewOcr) eqn:?E;
  destruct (setup_error env StartPlaywright) eqn:?E;
  destruct (setup_error env LaunchChromium) eqn:?E;
  destruct (setup_error env CloseBrowser) eqn:?E;
  destruct (setup_error env StopPlaywright) eqn:?E.

Ltac not_running H :=
  exfalso;
  pose proof (H NewOcr); pose proof (H StartPlaywright); pose proof (H LaunchChromium);
  pose proof (H CloseBrowser); pose proof (H StopPlaywright); congruence.

Lemma login_contained env max_attempts w :
  let r := login_and_save_cookie env max_attempts w in
  (forall e, fst r = Raised e -> exists op, setup_error env op = Some e)
  /\ (browser_runs env -> exists b, fst r = Returned b)
  /\ (attempts_logged w <= attempts_logged (snd r)
      <= attempts_logged w + Z.to_nat max_attempts)%nat
  /\ (browser_runs env -> 0 < max_attempts ->
      (attempts_logged w < attempts_logged (snd r))%nat)
  /\ same_store w (snd r)
  /\ (fst r = Returned false ->
      cookie_file (snd r) = cookie_file w \/ cookie_file (snd r) = Some []).
Proof.
  cbv zeta.
  destruct (login_loop_quiet env max_attempts (Z.to_nat max_attempts) O w)
    as (Hb & Hl & Hf & He).
  cbv zeta in *.
  pose proof (respects_login env same_store same_store_refl same_store_trans
                (fun l m w0 => same_store_log l m w0)
                (fun text raw w0 _ => conj eq_refl eq_refl)
                max_attempts w) as Hs.
  split; [|split; [|split; [|split; [|split; [exact Hs|]]]]]; clear Hs;
    unfold login_and_save_cookie, login_attempts, setup, try_finally, try_except,
      bind, raise, ret, logging;
    setup_cases env;
    destruct (login_loop env max_attempts (Z.to_nat max_attempts) O w) as [[[|]|e] w1];
    cbn [fst snd] in *.
  all: try (intros e' H; try discriminate H; injection H as <-; eauto; fail).
  all: try (intros H; first [ not_running H | eauto ]; fail).
  all: try (repeat rewrite attempts_logged_add; cbn [is_attempt snd]; lia).
  all: try (intros H Hmax; first [ not_running H | idtac ];
            repeat rewrite attempts_logged_add; cbn [is_attempt snd];
            assert (Hpos : (0 < Z.to_nat max_attempts)%nat) by lia;
            specialize (Hl Hpos); lia).
  all: intros H; try discriminate H;
       first [ left; exact (Hf eq_refl) | exact (He _ eq_refl) | left; reflexivity ].
Qed.

(** X11: [login_and_save_cookie] raises only what creating the
    recognizer, starting, launching, closing or stopping the browser
    raises, and returns True or False when none of them fails.  It logs at
    most [max_attempts] attempts (at least one when the browser runs and
    [max_attempts] is positive) and never touches the tables.  When it
    returns False the cookie file is what it was, or empty where the
    cookies of the page could not be encoded: no failed login stores a
    session. *)
Theorem login_is_contained env max_attempts w :
  let r := login_and_save_cookie env max_attempts w in
  (forall e, fst r = Raised e -> exists op, setup_error env op = Some e)
  /\ (browser_runs env -> exists b, fst r = Returned b)
  /\ (attempts_logged w <= attempts_logged (snd r)
      <= attempts_logged w + Z.to_nat max_attempts)%nat
  /\ (browser_runs env -> 0 < max_attempts ->
      (attempts_logged w < attempts_logged (snd r))%nat)
  /\ same_store w (snd r)
  /\ (fst r = Returned false ->
      cookie_file (snd r) = cookie_file w \/ cookie_file (snd r) = Some []).
Proof. exact (login_contained env max_attempts w). Qed.

Lemma first_attempt_raises env w :
  first_attempt_breaks env ->
  exists e, _attempt_login env (new_page env O) (classification env)
              (TII_USERNAME env) (TII_PASSWORD env) w = (Raised e, w).
Proof.
  unfold first_attempt_breaks, _attempt_login, try_except, page_fill, bind, raise, ret.
  destruct (goto_error (new_page env O)) as [e|].
  - intros ->. eauto.
  - intros [-> | ->].
    + eexists. reflexivity.
    + destruct (TII_USERNAME env); eexists; reflexivity.
Qed.

(** X12: an exception that [_attempt_login] does not handle ends the
    whole login, not just the attempt: with a recognizer and a browser
    that start and stop without error, when the page fails to load for
    another reason than a timeout, or a credential is missing from the
    environment, the login makes one attempt, logs the error and returns
    False, whatever [max_attempts] allows; the cookie file is not
    touched. *)
Theorem login_gives_up_on_error env max_attempts w :
  browser_runs env ->
  0 < max_attempts ->
  first_attempt_breaks env ->
  login_and_save_cookie env max_attempts w
  = (Returned false,
     add_log ERROR AllLoginAttemptsFailed
       (add_log ERROR LoginUnknownError
          (add_log INFO (LoginAttempt 1 max_attempts) w))).
Proof.
  intros Hruns Hmax Hb. rewrite (login_from_loop env max_attempts w Hruns).
  destruct (Z.to_nat max_attempts) as [|r] eqn:E; [lia|].
  rewrite login_loop_step.
  destruct (first_attempt_raises env (add_log INFO (LoginAttempt (0 + 1) max_attempts) w) Hb)
    as (e & ->).
  reflexivity.
Qed.

Lemma login_gives_up_on_error_witness :
  login_and_save_cookie
    (with_credentials None (Some "secret") (browser_env good_reader)) 10 fresh_world
  = (Returned false,
     add_log ERROR AllLoginAttemptsFailed
       (add_log ERROR LoginUnknownError
          (add_log INFO (LoginAttempt 1 10) fresh_world))).
Proof.
  apply login_gives_up_on_error; [intros op; reflexivity | reflexivity | left; reflexivity].
Defined.

Section Retry.

Variable env : Env.
Variable P : Portal.

Hypothesis pages : forall n, new_page env n = portal_page P n.
Hypothesis landing : contains "mpage" (landing_url P) = false.
Hypothesis user : TII_USERNAME env = Some (valid_username P).
Hypothesis pass : TII_PASSWORD env = Some (valid_password P).
Hypothesis cookies : encodable (serialized P) = true.

Lemma login_loop_retry max_attempts : forall k attempt remaining w,
  (k < remaining)%nat ->
  (forall n, (attempt <= n < attempt + k)%nat ->
             classification env (captcha_image P n) <> captcha_answer P n) ->
  classification env (captcha_image P (attempt + k)) = captcha_answer P (attempt + k) ->
  exists w',
    login_loop env max_attempts remaining attempt w = (Returned true, w')
    /\ attempts_logged w' = (attempts_logged w + k + 1)%nat
    /\ (io_error env OpenWrite = false ->
        cookie_file w' = utf8_encode (text_write (os_platform env) (serialized P))).
Proof.
  induction k as [|k IH]; intros attempt remaining w Hk Hwrong Hright;
    (destruct remaining as [|r]; [lia|]); rewrite login_loop_step.
  - rewrite Nat.add_0_r in Hright.
    destruct (attempt_accepted env P _ _ pages landing user pass attempt
                (add_log INFO (LoginAttempt (attempt + 1) max_attempts) w)
                eq_refl eq_refl Hright cookies) as (w1 & -> & Ha & Hf).
    exists w1. split; [reflexivity|]. split; [|exact Hf].
    rewrite Ha. count_attempts.
  - destruct (attempt_rejected env P _ _ pages user pass attempt
                (add_log INFO (LoginAttempt (attempt + 1) max_attempts) w))
      as (w1 & -> & Ha & Hf).
    { apply Hwrong. lia. }
    destruct (IH (S attempt) r w1) as (w2 & -> & Ha2 & Hf2).
    + lia.
    + intros n Hn. apply Hwrong. lia.
    + replace (S attempt + k)%nat with (attempt + S k)%nat by lia. exact Hright.
    + exists w2. split; [reflexivity|]. split; [|exact Hf2].
      rewrite Ha2, Ha. count_attempts.
Qed.

End Retry.

(** X13: against a portal that lets the right credentials and captcha
    text in, with the valid credentials configured, session cookies
    without surrogates and a recognizer and a browser that start and stop
    without error: if the recognizer misreads the first [k] captchas and
    reads the next one right, and [max_attempts] allows more than [k]
    attempts, the login returns True after exactly [k + 1] attempts and the
    cookie file holds the cookies of the session (on a disk that takes the
    write). *)
Theorem login_retries_until_accepted env P max_attempts k w :
  browser_runs env ->
  (forall n, new_page env n = portal_page P n) ->
  contains "mpage" (landing_url P) = false ->
  TII_USERNAME env = Some (valid_username P) ->
  TII_PASSWORD env = Some (valid_password P) ->
  encodable (serialized P) = true ->
  (forall n, (n < k)%nat -> classification env (captcha_image P n) <> captcha_answer P n) ->
  classification env (captcha_image P k) = captcha_answer P k ->
  Z.of_nat k < max_attempts ->
  let w' := snd (login_and_save_cookie env max_attempts w) in
  fst (login_and_save_cookie env max_attempts w) = Returned true
  /\ attempts_logged w' = (attempts_logged w + k + 1)%nat
  /\ (io_error env OpenWrite = false ->
      cookie_file w' = utf8_encode (text_write (os_platform env) (serialized P))).
Proof.
  intros Hruns Hpages Hland Hu Hp Hc Hwrong Hright Hmax. cbv zeta.
  rewrite (login_from_loop env max_attempts w Hruns).
  destruct (login_loop_retry env P Hpages Hland Hu Hp Hc max_attempts k O
              (Z.to_nat max_attempts) w) as (w' & -> & Ha & Hf).
  - lia.
  - intros n Hn. apply Hwrong. lia.
  - exact Hright.
  - cbn [fst snd]. auto.
Qed.

Lemma slow_reader_wrong n :
  (n < 1)%nat ->
  classification (browser_env slow_reader) (captcha_image demo_portal n)
  <> captcha_answer demo_portal n.
Proof. intros H. replace n with O by lia. cbn. discriminate. Qed.

Lemma login_retries_until_accepted_witness :
  let w' := snd (login_and_save_cookie (browser_env slow_reader) 10 fresh_world) in
  fst (login_and_save_cookie (browser_env slow_reader) 10 fresh_world) = Returned true
  /\ attempts_logged w' = 2%nat
  /\ cookie_file w' = utf8_encode "PHPSESSID=abc; lang=zh".
Proof.
  destruct (login_retries_until_accepted (browser_env slow_reader) demo_portal 10 1 fresh_world
              (fun op => eq_refl) (fun n => eq_refl) eq_refl eq_refl eq_refl eq_refl
              slow_reader_wrong eq_refl eq_refl)
    as (A & B & C).
  split; [exact A | split; [exact B | exact (C eq_refl)]].
Defined.

(** ** Task source *)

Lemma select_outstanding_in d t :
  In t (select_outstanding d) <->
  exists a b reg,
    In a (InsuExternalTrainingX d) /\ In b (vInsuSalesEmpX d)
    /\ x_cRegNumber a = Some reg
    /\ v_cEmpIdn b = x_cEmpIdn a /\ v_cWorkingStatus b = "W"
    /\ x_nTotalComplete a <> x_nShouldComplete a
    /\ t = task_of a reg.
Proof.
  unfold select_outstanding. rewrite in_flat_map. split.
  - intros (a & Ha & H). apply in_flat_map in H as (b & Hb & H).
    destruct (x_cRegNumber a) as [reg|] eqn:Er; [|destruct H].
    destruct (str_eqb (v_cEmpIdn b) (x_cEmpIdn a)) eqn:E1; [|destruct H].
    destruct (str_eqb (v_cWorkingStatus b) "W") eqn:E2; [|destruct H].
    destruct (x_nTotalComplete a =? x_nShouldComplete a) eqn:E3; [destruct H|].
    cbn in H. destruct H as [<- | []].
    exists a, b, reg. repeat split; auto.
    + now apply str_eqb_eq.
    + now apply str_eqb_eq.
    + now apply Z.eqb_neq.
  - intros (a & b & reg & Ha & Hb & Er & E1 & E2 & E3 & ->).
    exists a. split; [exact Ha|]. apply in_flat_map. exists b. split; [exact Hb|].
    rewrite Er. apply str_eqb_eq in E1, E2. apply Z.eqb_neq in E3.
    rewrite E1, E2, E3. cbn. auto.
Qed.

Lemma fetch_tasks_sound env w :
  storage_error (fetch_fault env) = false ->
  fetch_tasks env w = (Returned (select_outstanding (db w)), w).
Proof.
  unfold fetch_tasks, try_except, bind, get_db_connection, cursor_select, fault_hits,
    conn_cursor.
  destruct (fetch_fault env) as [| |[|k]]; cbn; intros H; try discriminate; reflexivity.
Qed.



Lemma midnight_floor t : midnight t <= t < midnight t + 86400.
Proof.
  unfold midnight.
  pose proof (Z.mul_div_le t 86400).
  pose proof (Z.mod_pos_bound t 86400).
  pose proof (Z.div_mod t 86400). lia.
Qed.

Lemma midnight_mono t u : t <= u -> midnight t <= midnight u.
Proof.
  intros H. unfold midnight.
  pose proof (Z.div_le_mono t u 86400). lia.
Qed.

Lemma midnight_mod t : midnight t mod 86400 = 0.
Proof. unfold midnight. rewrite Z.mul_comm. apply Z.mod_mul. lia. Qed.

(** X15: the windows of a fetched task.  When no summary row ends
    before it begins, every task of [select_outstanding] has two midnights
    as its dates, the first not after the second, and epoch bounds with
    the start before the end; read in local time (eight hours ahead) the
    epoch window begins on the first day and reaches to the last second of
    the last day, so it covers the window of the delete. *)
Theorem fetched_task_windows d t :
  (forall a, In a (InsuExternalTrainingX d) -> x_dTrainBeginDate a <= x_dTrainEndDate a) ->
  In t (select_outstanding d) ->
  dTrainBeginDate t mod 86400 = 0 /\ dTrainEndDate t mod 86400 = 0
  /\ dTrainBeginDate t <= dTrainEndDate t
  /\ finish_start_date t < finish_end_date t
  /\ dTrainBeginDate t <= finish_start_date t + 8 * 3600 < dTrainBeginDate t + 86400
  /\ dTrainEndDate t + 86399 <= finish_end_date t + 8 * 3600.
Proof.
  intros Hrows Hin.
  apply select_outstanding_in in Hin as (a & b & reg & Ha & _ & _ & _ & _ & _ & ->).
  specialize (Hrows a Ha). cbn [task_of dTrainBeginDate dTrainEndDate finish_start_date
                                 finish_end_date].
  pose proof (midnight_floor (x_dTrainBeginDate a)).
  pose proof (midnight_floor (x_dTrainEndDate a)).
  pose proof (midnight_mono _ _ Hrows).
  repeat split; try apply midnight_mod; lia.
Qed.

Lemma fetched_task_windows_witness :
  dTrainBeginDate jan_task mod 86400 = 0 /\ dTrainEndDate jan_task mod 86400 = 0
  /\ dTrainBeginDate jan_task <= dTrainEndDate jan_task
  /\ finish_start_date jan_task < finish_end_date jan_task
  /\ dTrainBeginDate jan_task <= finish_start_date jan_task + 8 * 3600
     < dTrainBeginDate jan_task + 86400
  /\ dTrainEndDate jan_task + 86399 <= finish_end_date jan_task + 8 * 3600.
Proof.
  apply (fetched_task_windows (db jan_world) jan_task).
  - intros a [<- | []]. cbn. lia.
  - left. reflexivity.
Defined.

(** X16: the task fetched from a summary row addresses that very row
    in its UPDATE exactly when the two dates of the row carry no time of
    day: the task holds the dates cut to the day, and the UPDATE compares
    them with the stored values for equality. *)
Theorem fetched_task_addresses_its_row a reg :
  addresses (task_of a reg) a = true
  <-> x_dTrainBeginDate a mod 86400 = 0 /\ x_dTrainEndDate a mod 86400 = 0.
Proof.
  unfold addresses, summary_matches, task_of, midnight.
  cbn [salesregid dTrainBeginDate dTrainEndDate].
  rewrite str_eqb_refl. cbn [andb].
  rewrite andb_true_iff, !Z.eqb_eq.
  pose proof (Z.div_mod (x_dTrainBeginDate a) 86400).
  pose proof (Z.div_mod (x_dTrainEndDate a) 86400).
  lia.
Qed.

(** ** The whole run *)

Lemma fetch_tasks_failed env w :
  storage_error (fetch_fault env) = true ->
  fetch_tasks env w = (Returned [], add_log ERROR FetchTasksFailed w).
Proof.
  unfold fetch_tasks, try_except, bind, get_db_connection, cursor_select, fault_hits,
    conn_cursor.
  destruct (fetch_fault env) as [| |[|k]]; cbn; intros H; try discriminate; reflexivity.
Qed.

Lemma readable_kept env w w' :
  cookie_file w' = cookie_file w -> readable env w -> readable env w'.
Proof. intros E H raw. rewrite E. apply H. Qed.

(** On a readable file [get_cookie] returns. *)
Lemma get_cookie_returns env w :
  readable env w ->
  exists c w', get_cookie env w = (Returned c, w') /\ cookie_file w' = cookie_file w.
Proof.
  intros Hr.
  destruct (get_cookie_result env w) as (_ & Hc & _ & _ & He). cbv zeta in *.
  destruct (get_cookie env w) as [[c|e] w'] eqn:E; cbn [fst snd] in *; [eauto|].
  destruct (proj1 (He e) eq_refl) as (_ & Ho & raw & Ef & Ed).
  destruct (Hr raw Ef Ho Ed).
Qed.

(** What the login writes can be read again. *)
Lemma login_keeps_readable env max_attempts w :
  readable env w -> readable env (snd (login_and_save_cookie env max_attempts w)).
Proof.
  apply (respects_login env (fun w0 w1 => readable env w0 -> readable env w1)).
  - auto.
  - auto.
  - intros l m w0 H. exact H.
  - intros text raw w0 E _ raw' [= <-] _.
    rewrite (utf8_decode_encode _ _ E). discriminate.
Qed.

Lemma never_raises_fetch_tasks env : never_raises (fetch_tasks env).
Proof. intros w. apply fetch_tasks_returns. Qed.

Lemma never_raises_executor_map env schedule tasks cookie_str :
  never_raises (executor_map (fun task => process_single_task env task cookie_str)
                  schedule tasks).
Proof.
  intros w. eexists.
  apply (executor_map_verdicts
           (fun task => process_single_task env task cookie_str)
           (returns_true (fun task => process_single_task env task cookie_str) w)).
  intros t w1. unfold process_single_task.
  apply worker_verdict. intros item. apply steady_sync_data.
Qed.

Lemma never_raises_run_tasks env schedule tasks cookie_str :
  never_raises (run_tasks env schedule tasks cookie_str).
Proof.
  unfold run_tasks.
  apply never_raises_bind; [apply never_raises_logging | intros _].
  apply never_raises_bind; [apply never_raises_executor_map | intros results].
  apply never_raises_bind; [apply never_raises_logging | intros; apply never_raises_ret].
Qed.

Lemma never_raises_main_sync env schedule cookie_str :
  never_raises (main_sync env schedule cookie_str).
Proof.
  unfold main_sync.
  apply never_raises_bind; [apply never_raises_fetch_tasks | intros tasks].
  destruct tasks; [apply never_raises_logging|].
  apply never_raises_bind; [apply never_raises_run_tasks | intros; apply never_raises_ret].
Qed.

Lemma main_returns env schedule w :
  readable env w -> browser_runs env -> fst (main env schedule w) = Returned tt.
Proof.
  intros Hr Hb. unfold main.
  destruct (get_cookie_returns env w Hr) as (c & w1 & E1 & C1).
  rewrite (bind_returned _ _ _ _ _ E1).
  destruct (usable c) as [cookie_str|].
  { destruct (never_raises_main_sync env schedule cookie_str w1) as ([] & E). exact E. }
  unfold bind at 1. unfold logging at 1.
  set (w2 := add_log INFO NoValidCookie w1).
  assert (Hr2 : readable env w2) by exact (readable_kept env w w2 C1 Hr).
  destruct (login_contained env 10 w2) as (_ & Hret & _). cbv zeta in Hret.
  destruct (Hret Hb) as (ok & Eok).
  pose proof (login_keeps_readable env 10 w2 Hr2) as Hr3.
  unfold bind at 1.
  destruct (login_and_save_cookie env 10 w2) as [o w3]. cbn [fst snd] in *. subst o.
  destruct ok; cbn [negb]; [|reflexivity].
  destruct (get_cookie_returns env w3 Hr3) as (c' & w4 & E4 & _).
  rewrite (bind_returned _ _ _ _ _ E4).
  destruct (usable c') as [cookie_str|]; [|reflexivity].
  destruct (never_raises_main_sync env schedule cookie_str w4) as ([] & E). exact E.
Qed.

(** X17: [main] comes to its end whenever the cookie file, if there is
    one that can be opened, holds UTF-8, and the recognizer and the
    browser start and stop without error: whatever the portal, the
    endpoint and the database do then, and under every schedule of the
    pool, no exception leaves [main]. *)
Theorem main_returns_on_sound_host env schedule w :
  readable env w ->
  browser_runs env ->
  fst (main env schedule w) = Returned tt.
Proof. intros Hr Hb. exact (main_returns env schedule w Hr Hb). Qed.

Lemma main_returns_on_sound_host_witness :
  fst (main (scenario seven_reply (StmtFails 1)) [] jan_world) = Returned tt.
Proof.
  apply main_returns_on_sound_host.
  - intros raw [= <-] _. discriminate.
  - intros op. reflexivity.
Defined.

(** Outside these two conditions [main] does end in an exception: on a
    cookie file that is not UTF-8 with the UnicodeDecodeError of
    [get_cookie], and without a cookie file with whatever the launch of
    the browser raises. *)
Example main_ends_in_exception :
  main (scenario seven_reply NoFault) [] (set_cookie_file (Some [xff]) jan_world)
  = (Raised ValueError, set_cookie_file (Some [xff]) jan_world)
  /\ main (with_setup no_chromium (scenario seven_reply NoFault)) [] fresh_world
     = (Raised IOError, add_log INFO NoValidCookie fresh_world).
Proof. split; reflexivity. Qed.

Lemma main_login_failed env schedule w w1 :
  cookie_file w = None ->
  login_and_save_cookie env 10 (add_log INFO NoValidCookie w) = (Returned false, w1) ->
  main env schedule w = (Returned tt, add_log ERROR LoginFailedAbort w1).
Proof.
  intros Hc Hl. unfold main.
  rewrite (bind_returned _ _ _ _ _ (get_cookie_absent env w Hc)).
  cbn [usable]. unfold bind, logging. now rewrite Hl.
Qed.

(** X18: without a session file and with a login that returns False,
    [main] stops there: it executes no statement, leaves no session (no
    cookie file, or an empty one where the cookies of the page could not
    be encoded), and its last log line is the abort. *)
Theorem main_stops_without_login env schedule w :
  cookie_file w = None ->
  fst (login_and_save_cookie env 10 (add_log INFO NoValidCookie w)) = Returned false ->
  let w' := snd (main env schedule w) in
  same_store w w'
  /\ (cookie_file w' = None \/ cookie_file w' = Some [])
  /\ last_logged w' = Some (ERROR, LoginFailedAbort).
Proof.
  intros Hc Hl. cbv zeta.
  destruct (login_contained env 10 (add_log INFO NoValidCookie w))
    as (_ & _ & _ & _ & Hs & Hk). cbv zeta in *.
  specialize (Hk Hl).
  destruct (login_and_save_cookie env 10 (add_log INFO NoValidCookie w)) as [o w1] eqn:E.
  cbn [fst snd] in *. subst o.
  rewrite (main_login_failed env schedule w w1 Hc E). cbn [snd].
  split; [|split].
  - eapply same_store_trans; [apply same_store_log|].
    eapply same_store_trans; [exact Hs | apply same_store_log].
  - change (cookie_file w1 = None \/ cookie_file w1 = Some []).
    destruct Hk as [Hk | Hk]; [left; rewrite Hk; exact Hc | right; exact Hk].
  - unfold last_logged, add_log. cbn [log]. now rewrite rev_app_distr.
Qed.

Lemma main_stops_without_login_witness :
  let w' := snd (main (browser_env bad_reader) [] fresh_world) in
  same_store fresh_world w'
  /\ (cookie_file w' = None \/ cookie_file w' = Some [])
  /\ last_logged w' = Some (ERROR, LoginFailedAbort).
Proof.
  apply (main_stops_without_login (browser_env bad_reader) [] fresh_world).
  - reflexivity.
  - vm_compute. reflexivity.
Defined.

(** X19: with a usable session on file, when [fetch_tasks] has nothing
    (no outstanding row, or a storage error, which it turns into the empty
    list), [main] neither logs in nor touches tables or cookie file: it
    adds the log lines of the empty run and ends. *)
Theorem main_with_nothing_to_do env schedule w raw text :
  cookie_file w = Some raw ->
  io_error env OpenRead = false ->
  utf8_decode raw = Some text ->
  truthy (strip (text_read text)) = true ->
  storage_error (fetch_fault env) = true \/ select_outstanding (db w) = [] ->
  main env schedule w = (Returned tt, after_empty_fetch env w).
Proof.
  intros Hc Hr Hd Ht Hn.
  unfold main. rewrite (bind_returned _ _ _ _ _ (get_cookie_present env w raw text Hc Hr Hd)).
  cbn [usable]. rewrite Ht. unfold main_sync, after_empty_fetch.
  destruct (storage_error (fetch_fault env)) eqn:Es.
  - rewrite (bind_returned _ _ _ _ _ (fetch_tasks_failed env w Es)). reflexivity.
  - destruct Hn as [Hn | Hn]; [discriminate|].
    rewrite (bind_returned _ _ _ _ _ (fetch_tasks_sound env w Es)). now rewrite Hn.
Qed.

Lemma main_with_nothing_to_do_witness :
  main (scenario TransportFailure ConnectFails) [] jan_world
  = (Returned tt, after_empty_fetch (scenario TransportFailure ConnectFails) jan_world).
Proof.
  apply (main_with_nothing_to_do _ _ _ (file_bytes "PHPSESSID=abc") "PHPSESSID=abc");
    [reflexivity | reflexivity | reflexivity | reflexivity | left; reflexivity].
Defined.

Lemma run_tasks_world env schedule tasks cookie_str w w0 :
  let alone := succeeds_alone env cookie_str w0 in
  let N := List.length tasks in
  let K := List.length (filter (fun t => negb (alone t)) tasks) in
  exists w2,
    run_tasks env schedule tasks cookie_str w
    = (Returned ((N - K)%nat, N), add_log INFO (Done (N - K) N) w2).
Proof.
  cbv zeta.
  assert (Hs : forall item, steady (sync_data env item cookie_str))
    by (intros item; apply steady_sync_data).
  destruct (pool_tally (sync_data env) schedule tasks cookie_str
              (add_log INFO (StartProcessing (List.length tasks)) w) w0 Hs) as [He Hsum].
  unfold run_tasks, bind, logging, ret. unfold process_single_task.
  destruct (executor_map _ schedule tasks _) as [o w2].
  cbn [fst] in He. subst o.
  exists w2. unfold succeeds_alone, process_single_task. now rewrite Hsum.
Qed.

(** X20: with a usable session on file and outstanding tasks fetched,
    [main] does not log in, hands the stripped content of the file to
    every task, and ends with the log line "Done successes/total": the
    total is the number of fetched tasks, the successes are those tasks
    that succeed when processed alone with that cookie, under every
    schedule. *)
Theorem main_reports_tally env schedule w raw text t ts w0 :
  cookie_file w = Some raw ->
  io_error env OpenRead = false ->
  utf8_decode raw = Some text ->
  truthy (strip (text_read text)) = true ->
  storage_error (fetch_fault env) = false ->
  select_outstanding (db w) = t :: ts ->
  let alone := succeeds_alone env (strip (text_read text)) w0 in
  let N := List.length (t :: ts) in
  let K := List.length (filter (fun task => negb (alone task)) (t :: ts)) in
  last_logged (snd (main env schedule w)) = Some (INFO, Done (N - K) N).
Proof.
  intros Hc Hr Hd Ht Hs Hts. cbv zeta.
  unfold main. rewrite (bind_returned _ _ _ _ _ (get_cookie_present env w raw text Hc Hr Hd)).
  cbn [usable]. rewrite Ht. unfold main_sync.
  rewrite (bind_returned _ _ _ _ _ (fetch_tasks_sound env w Hs)). rewrite Hts.
  destruct (run_tasks_world env schedule (t :: ts) (strip (text_read text)) w w0) as (w2 & E).
  rewrite (bind_returned _ _ _ _ _ E).
  unfold ret, last_logged, add_log. cbn [snd log]. now rewrite rev_app_distr.
Qed.

Lemma main_reports_tally_witness :
  last_logged (snd (main (scenario seven_reply NoFault) [] jan_world))
  = Some (INFO, Done 1 1).
Proof.
  exact (main_reports_tally (scenario seven_reply NoFault) [] jan_world
           (file_bytes "PHPSESSID=abc") "PHPSESSID=abc"
           jan_task [] jan_world eq_refl eq_refl eq_refl eq_refl eq_refl eq_refl).
Defined.

(** ** The pool and the rest of the world *)

Section PoolRespects.

Variable R : World -> World -> Prop.
Hypothesis R_refl : forall w, R w w.
Hypothesis R_trans : forall w1 w2 w3, R w1 w2 -> R w2 w3 -> R w1 w3.
Variable f : Task -> M bool.
Variable tasks : list Task.
Hypothesis f_respects : forall t, In t tasks -> respects R (f t).

Lemma run_pool_respects fuel : forall schedule pending done w,
  (forall i t, In (i, t) pending -> In t tasks) ->
  R w (snd (run_pool f schedule fuel pending done w)).
Proof.
  induction fuel as [|fuel IH]; intros schedule pending done w Hp; cbn [run_pool].
  - apply R_refl.
  - destruct (nth_error pending _) as [[i t]|] eqn:En; [|apply R_refl].
    pose proof (f_respects t (Hp i t (nth_error_In _ _ En)) w) as Hf.
    destruct (f t w) as [o w1]. cbn [snd] in Hf.
    eapply R_trans; [exact Hf|]. apply IH.
    intros j u Hin. apply (Hp j u). eapply without_in. exact Hin.
Qed.

Lemma executor_map_respects schedule : respects R (executor_map f schedule tasks).
Proof.
  intros w. unfold executor_map.
  pose proof (run_pool_respects (List.length tasks) schedule
                (combine (seq O (List.length tasks)) tasks) [] w) as H.
  destruct (run_pool f schedule (List.length tasks) _ [] w) as [done w'].
  cbn [snd] in *. apply H.
  intros i t Hin. apply in_combine_r in Hin. exact Hin.
Qed.

End PoolRespects.

Lemma contained_refl tasks w : contained tasks w w.
Proof. repeat split; auto. left. reflexivity. Qed.

Lemma contained_trans tasks w1 w2 w3 :
  contained tasks w1 w2 -> contained tasks w2 w3 -> contained tasks w1 w3.
Proof.
  intros (A & B & C & D) (A' & B' & C' & D'). repeat split.
  - eapply cookie_kept_or_gone_trans; eassumption.
  - intros r Hr Hin. apply B', B; assumption.
  - congruence.
  - congruence.
Qed.

Lemma contained_log tasks l m w : contained tasks w (add_log l m w).
Proof. repeat split; auto. left. reflexivity. Qed.

Lemma sync_data_contained env tasks item cookie_str :
  In item tasks -> respects (contained tasks) (sync_data env item cookie_str).
Proof.
  intros Hin.
  apply (respects_sync_data env (contained tasks) (contained_refl tasks)
           (contained_trans tasks)).
  - intros l m w. apply contained_log.
  - intros w. repeat split; auto. right. reflexivity.
  - intros s d w Hs He.
    destruct (spares_commit env item s d w Hs He) as (A & _ & C & D).
    split; [left; reflexivity|].
    split; [intros r Hr Hr'; apply A; [apply Hr, Hin | exact Hr'] |].
    split; assumption.
Qed.

(** X21: a run of the pool stays within its tasks.  Under every
    schedule, after [run_tasks] the cookie file is what it was or gone
    (never rewritten), every detail row that lies in the delete window of
    none of the tasks is still there, the summary table has as many rows
    as before and the roster is unchanged. *)
Theorem run_tasks_contained env schedule tasks cookie_str w :
  contained tasks w (snd (run_tasks env schedule tasks cookie_str w)).
Proof.
  unfold run_tasks, bind, logging, ret.
  pose proof (executor_map_respects (contained tasks) (contained_refl tasks)
                (contained_trans tasks)
                (fun task => process_single_task env task cookie_str) tasks) as H.
  assert (Hf : forall t, In t tasks ->
                 respects (contained tasks) (fun w0 => process_single_task env t cookie_str w0)).
  { intros t Hin w0. rewrite worker_is_sync_data. now apply sync_data_contained. }
  specialize (H Hf schedule (add_log INFO (StartProcessing (List.length tasks)) w)).
  destruct (executor_map _ schedule tasks _) as [[results|e] w1]; cbn [snd] in *.
  - eapply contained_trans; [apply contained_log|].
    eapply contained_trans; [exact H | apply contained_log].
  - eapply contained_trans; [apply contained_log | exact H].
Qed.

Lemma outside_window_app item a b :
  outside_window item (a ++ b) = outside_window item a ++ outside_window item b.
Proof. apply filter_app. Qed.

Lemma outside_window_twice item l :
  outside_window item (outside_window item l) = outside_window item l.
Proof.
  unfold outside_window. induction l as [|r l IH]; cbn [filter]; [reflexivity|].
  destruct (negb (in_window _ _ _ r)) eqn:E; [|exact IH].
  cbn [filter]. now rewrite E, IH.
Qed.

(** X22: the delete window and the inserted rows are not tied to each
    other.  When a task is synchronised twice with success (same record,
    same snapshot), the rows of the first call whose stored timestamp lies
    outside the delete window are not removed by the second call, which
    inserts all rows again: after the second call the detail table is what
    the delete left of the original table, then the first call's rows from
    outside the window, then all rows once more. *)
Theorem resync_keeps_rows_outside_window env item cookie_str api total full n w :
  remote_snapshot env item cookie_str = Some api ->
  py_getitem api "total" = Returned total ->
  py_eq_int total (nTotalComplete item) = false ->
  planned_writes item api = Some full ->
  sync_fault env item = NoFault ->
  forallb (accepts env) full = true ->
  sql_int env total = Some n ->
  let w1 := snd (sync_data env item cookie_str w) in
  let w2 := snd (sync_data env item cookie_str w1) in
  InsuExternalTrainingY (db w2)
  = outside_window item (InsuExternalTrainingY (db w))
    ++ outside_window item (inserted_rows env full)
    ++ inserted_rows env full.
Proof.
  intros Hs Ht He Hp Hf Ha Hn. cbv zeta.
  destruct (sync_data_replaces env item cookie_str api total full n w Hs Ht He Hp Hf Ha Hn)
    as (_ & _ & Y1 & _).
  destruct (sync_data_replaces env item cookie_str api total full n
              (snd (sync_data env item cookie_str w)) Hs Ht He Hp Hf Ha Hn)
    as (_ & _ & Y2 & _).
  cbv zeta in Y1, Y2. rewrite Y2, Y1.
  now rewrite outside_window_app, outside_window_twice, app_assoc.
Qed.

Lemma resync_keeps_rows_outside_window_witness :
  let env := scenario late_reply NoFault in
  let w1 := snd (sync_data env jan_task "PHPSESSID=abc" jan_world) in
  let w2 := snd (sync_data env jan_task "PHPSESSID=abc" w1) in
  map y_dChgDate (InsuExternalTrainingY (db w2)) = [1706700000; 1706700000].
Proof.
  exact (f_equal (map y_dChgDate)
           (resync_keeps_rows_outside_window (scenario late_reply NoFault) jan_task
              "PHPSESSID=abc" _ (JInt 7)
              [DeleteDetails "A123" 1704067200 1706659200;
               InsertDetail "202401" "A123" "A123" (JStr "Ethics") (JInt 1706700000);
               UpdateSummary (JInt 7) "A123" 1704067200 1706659200]
              7 jan_world eq_refl eq_refl eq_refl eq_refl eq_refl eq_refl eq_refl)).
Defined.
